(** * Portal lifecycle and health supervision: a shallow embedding

    The development follows three classes of the portal front end:

    - [HealthCheckManager] (integrated_portal/static/js/main.js): the
      self-rescheduling health probe with retries, adaptive interval and
      circuit breaker;
    - [ServiceManager]: start/stop commands for the backing services;
    - [TabManager]: the bounded registry of tabs.

    Around them it covers what these classes call or are called by in the
    same files: the response cache [CacheManager] and [PortalUtils.request]
    in front of [fetch], the notification pool of
    [PortalUtils.showNotification], [SystemGuide.startSystem], and the
    performance metrics of [TabManager].

    JavaScript numbers that hold millisecond clock readings and counters are
    integers ([Z], [nat]); the adaptive interval is multiplied by 0.9 and 1.5
    and is kept as an exact rational ([Q]).  Asynchronous functions are split
    at their suspension points; everything the environment decides (clock
    readings, network outcomes, answers to dialogs, presence of DOM nodes) is
    an explicit argument. *)

From Stdlib Require Import ZArith QArith Qminmax Lia Lqa DecimalString.
From stdpp Require Import base strings list gmap.

Local Open Scope Z_scope.

(* ===================================================================== *)
(** * HealthCheckManager                                                  *)
(* ===================================================================== *)

Module Health.

(** The parsed body of a [/health] response, as far as [onCheckSuccess]
    and [updateUI] look at it: [data.overall_status] and the keys of
    [data.services] ([None] when the property is missing, in which case
    [Object.keys] raises a TypeError). *)
Record HealthData := mkHealthData {
  overall_status : option string;
  services : option (list string)
}.

(** What one call of [PortalUtils.request('/health')] gives back. *)
Inductive Reply :=
| NetworkError                       (* the request promise rejects *)
| HttpNotOk                          (* a response with [ok = false] *)
| HttpOk (body : option HealthData). (* [None]: [response.json()] rejects *)

(** [window.PortalState.systemHealth]. *)
Inductive Snapshot :=
| NoSnapshot
| DataSnapshot (d : HealthData)
| ErrorSnapshot (consecutive_failures : nat).

(** Observable actions of a cycle. *)
Inductive Event :=
| Wait (ms : Z)      (* [setTimeout(resolve, delay)] before a retry *)
| Probe (attempt : nat). (* a call of [PortalUtils.request('/health')] *)

Record HealthCheckManager := mkHCM {
  isChecking : bool;
  maxRetries : nat;
  retryDelay : Z;
  consecutiveFailures : nat;
  maxConsecutiveFailures : nat;
  adaptiveInterval : Q;
  errorHistory : nat;            (* [errorHistory.length] *)
  maxErrorHistory : nat;
  circuitBreakerOpen : bool;
  circuitBreakerTimeout : Z;
  lastCircuitBreakerReset : option Z;
  systemHealth : Snapshot
}.

(** [window.PortalConfig.healthCheckInterval] as shipped. *)
Definition healthCheckInterval : Q := 60000 # 1.

(** [constructor()], for a configured base interval. *)
Definition constructor (base : Q) : HealthCheckManager :=
  {| isChecking := false;
     maxRetries := 3;
     retryDelay := 1000;
     consecutiveFailures := 0;
     maxConsecutiveFailures := 5;
     adaptiveInterval := base;
     errorHistory := 0;
     maxErrorHistory := 10;
     circuitBreakerOpen := false;
     circuitBreakerTimeout := 30000;
     lastCircuitBreakerReset := None;
     systemHealth := NoSnapshot |}.

Definition set_isChecking (b : bool) (m : HealthCheckManager) :=
  mkHCM b (maxRetries m) (retryDelay m) (consecutiveFailures m)
    (maxConsecutiveFailures m) (adaptiveInterval m) (errorHistory m)
    (maxErrorHistory m) (circuitBreakerOpen m) (circuitBreakerTimeout m)
    (lastCircuitBreakerReset m) (systemHealth m).

(** JavaScript truthiness of a number-or-null field. *)
Definition truthy (v : option Z) : bool :=
  match v with
  | None => false
  | Some n => negb (n =? 0)
  end.

(** The result of the synchronous prefix of [check()]. *)
Inductive Entry :=
| Busy                               (* [if (this.isChecking) return] *)
| Skipped                            (* breaker open, cooling down *)
| Proceed (m : HealthCheckManager).  (* goes on to probe *)

(** [check()], lines 568-583: the guard and the breaker gate. *)
Definition check_enter (m : HealthCheckManager) (now : Z) : Entry :=
  if isChecking m then Busy
  else if circuitBreakerOpen m then
    if truthy (lastCircuitBreakerReset m)
       && (now - default 0 (lastCircuitBreakerReset m)
             <? circuitBreakerTimeout m)
    then Skipped
    else Proceed
           (mkHCM (isChecking m) (maxRetries m) (retryDelay m) 0
              (maxConsecutiveFailures m) (adaptiveInterval m)
              (errorHistory m) (maxErrorHistory m) false
              (circuitBreakerTimeout m) (lastCircuitBreakerReset m)
              (systemHealth m))
  else Proceed m.

(** [retryDelay * Math.pow(2, attempt - 1)], used for [attempt > 0]. *)
Definition backoff (m : HealthCheckManager) (attempt : nat) : Z :=
  retryDelay m * 2 ^ (Z.of_nat attempt - 1).

(** What [performHealthCheckWithRetry] hands to its caller. *)
Inductive RetryResult :=
| Returned (body : option HealthData)  (* [return response] *)
| Thrown                               (* [throw lastError] *)
| FellThrough.                         (* the loop ends without returning *)

(** The [for] loop of [performHealthCheckWithRetry]; [left] counts the
    iterations that remain, [attempt] is the loop variable. *)
Fixpoint retry_loop (m : HealthCheckManager) (net : nat -> Reply)
    (left attempt : nat) : RetryResult * list Event :=
  match left with
  | O => (FellThrough, [])
  | S left' =>
      let pre := if (0 <? attempt)%nat then [Wait (backoff m attempt)]
                 else [] in
      match net attempt with
      | HttpOk body => (Returned body, pre ++ [Probe attempt])
      | _ =>
          if (attempt =? maxRetries m)%nat
          then (Thrown, pre ++ [Probe attempt])
          else
            let '(r, tr) := retry_loop m net left' (S attempt) in
            (r, pre ++ Probe attempt :: tr)
      end
  end.

(** [for (let attempt = 0; attempt <= this.maxRetries; attempt++)]. *)
Definition performHealthCheckWithRetry (m : HealthCheckManager)
    (net : nat -> Reply) : RetryResult * list Event :=
  retry_loop m net (S (maxRetries m)) 0.

(** [updateUI(healthData)] raises exactly when [healthData.services] is
    missing ([Object.keys(undefined)]). *)
Definition updateUI_throws (d : HealthData) : bool :=
  match services d with None => true | Some _ => false end.

(** [onCheckSuccess(data, startTime)]: the state it leaves and whether it
    ran to its end ([false]: [updateUI] raised after the assignments). *)
Definition onCheckSuccess (base : Q) (m : HealthCheckManager)
    (d : HealthData) : HealthCheckManager * bool :=
  let m' :=
    mkHCM (isChecking m) (maxRetries m) (retryDelay m) 0
      (maxConsecutiveFailures m)
      (Qmax base (adaptiveInterval m * (9 # 10)))
      (errorHistory m) (maxErrorHistory m) false
      (circuitBreakerTimeout m) (lastCircuitBreakerReset m)
      (DataSnapshot d) in
  if updateUI_throws d then (m', false)
  else
    let cleared :=
      match overall_status d with
      | Some st => (0 <? errorHistory m)%nat && String.eqb st "healthy"
      | None => false
      end in
    (if cleared then
       mkHCM (isChecking m') (maxRetries m') (retryDelay m')
         (consecutiveFailures m') (maxConsecutiveFailures m')
         (adaptiveInterval m') 0 (maxErrorHistory m')
         (circuitBreakerOpen m') (circuitBreakerTimeout m')
         (lastCircuitBreakerReset m') (systemHealth m')
     else m', true).

(** [onCheckFailure(error, startTime)]; [now] is the reading of
    [Date.now()] taken when the breaker opens. *)
Definition onCheckFailure (base : Q) (m : HealthCheckManager) (now : Z)
    : HealthCheckManager :=
  let failures := S (consecutiveFailures m) in
  let hist := S (errorHistory m) in
  let hist' := if (maxErrorHistory m <? hist)%nat then pred hist
               else hist in
  let interval := Qmin (adaptiveInterval m * (3 # 2)) (base * (5 # 1)) in
  let opens := (maxConsecutiveFailures m <=? failures)%nat in
  mkHCM (isChecking m) (maxRetries m) (retryDelay m) failures
    (maxConsecutiveFailures m) interval hist' (maxErrorHistory m)
    (if opens then true else circuitBreakerOpen m)
    (circuitBreakerTimeout m)
    (if opens then Some now else lastCircuitBreakerReset m)
    (ErrorSnapshot failures).

(** How the promise returned by [check()] settles. *)
Inductive Settled := Fulfilled | Rejected.

(** What a cycle did, for the statements below. *)
Inductive Outcome := NotRun | Succeeded | Failed.

Record CycleResult := mkCycle {
  after : HealthCheckManager;
  trace : list Event;
  outcome : Outcome;
  settled : Settled
}.

(** The [try { ... } catch (error) { ... } finally { ... }] of [check()]:
    everything raised inside [try] (the retry loop, [response.json()],
    [onCheckSuccess]) lands in [onCheckFailure]. *)
Definition check_body (base : Q) (m : HealthCheckManager)
    (net : nat -> Reply) (later : Z) : CycleResult :=
  let m1 := set_isChecking true m in
  let '(r, tr) := performHealthCheckWithRetry m1 net in
  match r with
  | Returned (Some d) =>
      let '(m2, ok) := onCheckSuccess base m1 d in
      if ok then mkCycle (set_isChecking false m2) tr Succeeded Fulfilled
      else mkCycle (set_isChecking false (onCheckFailure base m2 later))
             tr Failed Fulfilled
  | Returned None | Thrown | FellThrough =>
      mkCycle (set_isChecking false (onCheckFailure base m1 later))
        tr Failed Fulfilled
  end.

(** One whole invocation of [check()], run to completion: [now] is read on
    entry, [later] when the failure handler runs, [net] answers the
    attempts. *)
Definition check (base : Q) (m : HealthCheckManager) (now later : Z)
    (net : nat -> Reply) : CycleResult :=
  match check_enter m now with
  | Busy | Skipped => mkCycle m [] NotRun Fulfilled
  | Proceed m0 => check_body base m0 net later
  end.

(** The probes found in a trace. *)
Definition is_probe (e : Event) : bool :=
  match e with Probe _ => true | Wait _ => false end.
Definition probes (tr : list Event) : nat :=
  length (List.filter is_probe tr).

(** A reply that makes the retry loop return. *)
Definition reply_ok (r : Reply) : bool :=
  match r with HttpOk _ => true | _ => false end.

(** A reply whose body the success path cannot use: [response.json()]
    rejects, or [updateUI] raises on it. *)
Definition body_unusable (r : Reply) : bool :=
  match r with
  | HttpOk None => true
  | HttpOk (Some d) => updateUI_throws d
  | _ => false
  end.

(** Every attempt of a cycle (0 .. maxRetries) fails. *)
Definition all_attempts_fail (m : HealthCheckManager) (net : nat -> Reply)
    : bool :=
  forallb (fun k => negb (reply_ok (net k))) (seq 0 (S (maxRetries m))).

(** A sequence of invocations of [check()], each run to completion
    before the next starts: entry clock, failure-handler clock and the
    network's answers. *)
Definition Cycle : Type := Z * Z * (nat -> Reply).

Fixpoint run_cycles (base : Q) (m : HealthCheckManager) (cs : list Cycle)
    : HealthCheckManager :=
  match cs with
  | [] => m
  | (now, later, net) :: cs' =>
      run_cycles base (after (check base m now later net)) cs'
  end.

(** The trace of a cycle that makes [n] attempts: attempt 0 at once, each
    later attempt [k] after waiting [backoff m k]. *)
Definition attempt_events (m : HealthCheckManager) (k : nat) : list Event :=
  if (0 <? k)%nat then [Wait (backoff m k); Probe k] else [Probe k].

Definition attempts_trace (m : HealthCheckManager) (n : nat) : list Event :=
  concat (map (attempt_events m) (seq 0 n)).


(** Sample runs used to exercise the statements. *)
Definition net_down : nat -> Reply := fun _ => NetworkError.

Definition healthy_body : HealthData :=
  mkHealthData (Some "healthy") (Some ["writing"; "censor"]).

Definition net_up : nat -> Reply := fun _ => HttpOk (Some healthy_body).

Definition five_failures : list Cycle :=
  [ (1000, 8500, net_down); (98500, 106000, net_down);
    (241000, 248500, net_down); (451000, 458500, net_down);
    (758500, 766000, net_down) ].

(** ** Further readings of a manager and of a trace *)

(** The time a trace spends in [setTimeout] waits, in milliseconds. *)
Fixpoint waits (tr : list Event) : Z :=
  match tr with
  | [] => 0
  | Wait ms :: tr' => ms + waits tr'
  | Probe _ :: tr' => waits tr'
  end.

(** The failure counter, the breaker flag and the opening time agree. *)
Definition breaker_consistent (m : HealthCheckManager) : Prop :=
  (consecutiveFailures m <= maxConsecutiveFailures m)%nat /\
  (circuitBreakerOpen m = true <->
   consecutiveFailures m = maxConsecutiveFailures m) /\
  (circuitBreakerOpen m = true -> is_Some (lastCircuitBreakerReset m)).

(** A manager whose breaker opened at 766000, as after [five_failures]. *)
Definition tripped : HealthCheckManager :=
  run_cycles healthCheckInterval (constructor healthCheckInterval)
    five_failures.


End Health.


(* ===================================================================== *)
(** * ServiceManager                                                      *)
(* ===================================================================== *)

Module Service.

Inductive Status := Unknown | Stopped | Starting | Running | Stopping.

(** Requests that leave the class. *)
Inductive Command :=
| StartCommand (name : string)   (* POST /api/services/name/start *)
| StopCommand (name : string)    (* POST /api/services/name/stop *)
| StatusQuery (name : string)    (* GET /api/services/name/status *)
| OpenTabRequest (name : string) (immediate : bool).
                                 (* window.tabManager.openTab(...) *)

(** The class keeps a service's status in the page: the [data-status]
    attribute of the element [name-status], written by
    [updateServiceStatus] when that element and the system card exist.
    [cards] has a key for every service whose elements exist. *)
Record ServiceManager := mkSM {
  cards : gmap string Status;
  issued : list Command;           (* oldest first *)
  confirmations : list string      (* pending [setTimeout] status checks *)
}.

(** [updateServiceStatus(serviceName, status, message)]; without the two
    elements it returns at once. *)
Definition updateServiceStatus (name : string) (st : Status)
    (s : ServiceManager) : ServiceManager :=
  match cards s !! name with
  | None => s
  | Some _ => mkSM (<[name := st]> (cards s)) (issued s) (confirmations s)
  end.













(** ** The status of all services at once *)

(** [this.services]. *)
Definition managed_services : list string :=
  [ "writing"; "case2pg"; "censor"; "meeting_minutes" ].

(** The answer to [GET /api/services/status]: the promise rejects (or the
    body is not JSON), or the body carries [success] and, when present, the
    object [services] (its entries in key order). *)
Inductive AllStatusReply :=
| AllRejected
| AllAnswer (success : bool) (servicesData : option (list (string * Status))).

(** [updateAllServiceStatus(servicesData)]. *)
Definition updateAllServiceStatus (servicesData : list (string * Status))
    (s : ServiceManager) : ServiceManager :=
  fold_left (fun acc p => updateServiceStatus (fst p) (snd p) acc)
    servicesData s.

(** The [catch] branch of [checkAllServices]. *)
Definition markAllUnknown (s : ServiceManager) : ServiceManager :=
  fold_left (fun acc n => updateServiceStatus n Unknown acc)
    managed_services s.

(** [checkAllServices()], run to completion.  With [success] and no
    [services] object, [Object.keys] raises inside the [try]. *)
Definition checkAllServices (reply : AllStatusReply) (s : ServiceManager)
    : ServiceManager :=
  match reply with
  | AllAnswer true (Some servicesData) =>
      updateAllServiceStatus servicesData s
  | AllAnswer true None => markAllUnknown s
  | AllAnswer false _ => s
  | AllRejected => markAllUnknown s
  end.




(** A page with cards for the censor and the writing service. *)
Definition two_cards : ServiceManager :=
  mkSM {[ "censor" := Starting; "writing" := Running ]} [] [].

End Service.

(* ===================================================================== *)
(** * JavaScript containers used by TabManager                            *)
(* ===================================================================== *)

(** A [Map] with string keys: entries in insertion order, at most one entry
    per key.  [set] on a present key replaces the value in place, on an
    absent key appends. *)
Module JsMap.
Section Ops.
Context {V : Type}.

Fixpoint get (k : string) (m : list (string * V)) : option V :=
  match m with
  | [] => None
  | (k', v) :: m' => if String.eqb k' k then Some v else get k m'
  end.

Definition has (k : string) (m : list (string * V)) : bool :=
  match get k m with Some _ => true | None => false end.

(** The object stored under [k] is changed by [f]; other entries and the
    order are untouched.  Used for assignments to the fields of a value
    reached through the map. *)
Fixpoint update (k : string) (f : V -> V) (m : list (string * V))
    : list (string * V) :=
  match m with
  | [] => []
  | (k', v) :: m' =>
      if String.eqb k' k then (k', f v) :: m'
      else (k', v) :: update k f m'
  end.

Definition set (k : string) (v : V) (m : list (string * V))
    : list (string * V) :=
  if has k m then update k (fun _ => v) m else m ++ [(k, v)].

Fixpoint delete (k : string) (m : list (string * V))
    : list (string * V) :=
  match m with
  | [] => []
  | (k', v) :: m' =>
      if String.eqb k' k then delete k m' else (k', v) :: delete k m'
  end.

(** [forEach] with a callback that assigns to fields of each value. *)
Definition map_values (f : V -> V) (m : list (string * V))
    : list (string * V) :=
  map (fun p => (fst p, f (snd p))) m.

Definition size (m : list (string * V)) : nat := length m.
Definition keys (m : list (string * V)) : list string := map fst m.
Definition values (m : list (string * V)) : list V := map snd m.
End Ops.
End JsMap.

(** A [Set] of strings, or the keys of a [Map] whose values are not looked
    at: insertion order, no repetition. *)
Module JsSet.
Definition has (k : string) (s : list string) : bool :=
  existsb (String.eqb k) s.
Definition add (k : string) (s : list string) : list string :=
  if has k s then s else s ++ [k].
Definition delete (k : string) (s : list string) : list string :=
  List.filter (fun x => negb (String.eqb x k)) s.
End JsSet.

(* ===================================================================== *)
(** * TabManager                                                          *)
(* ===================================================================== *)

(** The registry and its bookkeeping.  The page itself (tab buttons,
    frames, notifications) and the performance metrics are left out; where
    the code asks the page for an element, the answer is an argument. *)
Module Tabs.

Inductive TabType := Welcome | System.
Inductive TabStatus := Pending | Loading | Loaded | Unloaded | Error.

(** A tab object.  Properties the welcome tab does not have are [None]
    (or [false] for [isLoaded], which is only tested for truth). *)
Record Tab := mkTab {
  id : string;
  name : option string;
  type : TabType;
  system : option string;
  url : option string;
  isClosable : bool;
  isActive : bool;
  status : option TabStatus;
  loadTime : option Z;
  createTime : option Z;
  lastActiveTime : option Z;
  isLoaded : bool;
  priority : option string;
  loadStartTime : option Z
}.

Definition set_active (b : bool) (now : Z) (t : Tab) : Tab :=
  mkTab (id t) (name t) (type t) (system t) (url t) (isClosable t) b
    (status t) (loadTime t) (createTime t) (Some now) (isLoaded t)
    (priority t) (loadStartTime t).

Definition set_status (st : TabStatus) (t : Tab) : Tab :=
  mkTab (id t) (name t) (type t) (system t) (url t) (isClosable t)
    (isActive t) (Some st) (loadTime t) (createTime t) (lastActiveTime t)
    (isLoaded t) (priority t) (loadStartTime t).

Definition set_isLoaded (b : bool) (t : Tab) : Tab :=
  mkTab (id t) (name t) (type t) (system t) (url t) (isClosable t)
    (isActive t) (status t) (loadTime t) (createTime t) (lastActiveTime t)
    b (priority t) (loadStartTime t).

Definition set_loadStartTime (v : option Z) (t : Tab) : Tab :=
  mkTab (id t) (name t) (type t) (system t) (url t) (isClosable t)
    (isActive t) (status t) (loadTime t) (createTime t) (lastActiveTime t)
    (isLoaded t) (priority t) v.

Definition set_loadTime (v : option Z) (t : Tab) : Tab :=
  mkTab (id t) (name t) (type t) (system t) (url t) (isClosable t)
    (isActive t) (status t) v (createTime t) (lastActiveTime t)
    (isLoaded t) (priority t) (loadStartTime t).

(** An entry of [window.PortalConfig.systems], as far as [openTab] reads
    it. *)
Record SystemConfig := mkSystem {
  cfg_name : option string;
  cfg_path : option string;
  cfg_url : option string
}.

(** [window.PortalConfig.systems] as shipped (its own properties). *)
Definition portal_systems : gmap string SystemConfig :=
  {[ "writing" := mkSystem (Some "智能文件撰写系统") (Some "/writing/")
                    (Some "/writing/");
     "qa_sys" := mkSystem (Some "业务查询系统") (Some "/qa_sys")
                   (Some "/qa_sys");
     "case2pg" := mkSystem (Some "数据处理系统") (Some "/case2pg")
                    (Some "/case2pg");
     "censor" := mkSystem (Some "文件审查系统") (Some "/censor")
                   (Some "/censor") ]}.

(** The configuration is an object literal, so a property read that finds
    no own property goes on to [Object.prototype].  These are its property
    names; all of them hold functions, except the accessor [__proto__],
    which yields the prototype object itself. *)
Definition object_prototype_names : list string :=
  [ "constructor"; "hasOwnProperty"; "isPrototypeOf";
    "propertyIsEnumerable"; "toLocaleString"; "toString"; "valueOf";
    "__proto__"; "__defineGetter__"; "__defineSetter__";
    "__lookupGetter__"; "__lookupSetter__" ].

(** What [openTab] reads from an inherited member: a function has a
    [name] (the constructor's is "Object") and neither [path] nor [url]. *)
Definition inherited_member (k : string) : option SystemConfig :=
  if existsb (String.eqb k) object_prototype_names then
    Some (mkSystem
            (if String.eqb k "constructor" then Some "Object"
             else if String.eqb k "__proto__" then None
             else Some k)
            None None)
  else None.

(** [window.PortalConfig.systems[systemName]]; [None] is [undefined]. *)
Definition systems_get (systems : gmap string SystemConfig)
    (systemName : string) : option SystemConfig :=
  match systems !! systemName with
  | Some c => Some c
  | None => inherited_member systemName
  end.

(** The second argument of [openTab].  The callers pass [priority] and
    [immediate] only; other properties, which the object spread would copy
    into the tab, are not part of the model. *)
Record Options := mkOptions {
  opt_priority : option string;
  opt_immediate : bool
}.

Definition no_options : Options := mkOptions None false.

(** The answer to the close confirmation: cancel ([null]), close only
    ([false]), stop the service and close ([true]). *)
Inductive Choice := Cancel | CloseOnly | StopAndClose.

Record TabManager := mkTM {
  tabs : list (string * Tab);
  activeTab : option string;
  tabCounter : nat;
  lazyLoadQueue : list string;
  maxTabs : nat;
  inactiveTabTimers : list string;    (* keys of the timers map *)
  idleCallbacks : list string;        (* scheduled by [scheduleTabLoad] *)
  closeDialogs : list (string * string);
                                      (* open confirmations: tab id, system *)
  stopRequests : list (string * string);
                                      (* stop requests awaited by a close *)
  currentSystem : option string       (* window.PortalState.currentSystem *)
}.

Definition with_tabs (f : list (string * Tab) -> list (string * Tab))
    (s : TabManager) : TabManager :=
  mkTM (f (tabs s)) (activeTab s) (tabCounter s) (lazyLoadQueue s)
    (maxTabs s) (inactiveTabTimers s) (idleCallbacks s) (closeDialogs s)
    (stopRequests s) (currentSystem s).

Definition with_queue (f : list string -> list string) (s : TabManager)
    : TabManager :=
  mkTM (tabs s) (activeTab s) (tabCounter s) (f (lazyLoadQueue s))
    (maxTabs s) (inactiveTabTimers s) (idleCallbacks s) (closeDialogs s)
    (stopRequests s) (currentSystem s).

Definition with_maxTabs (n : nat) (s : TabManager) : TabManager :=
  mkTM (tabs s) (activeTab s) (tabCounter s) (lazyLoadQueue s) n
    (inactiveTabTimers s) (idleCallbacks s) (closeDialogs s)
    (stopRequests s) (currentSystem s).

(** Truthiness of a string-or-undefined value. *)
Definition truthy (v : option string) : bool :=
  match v with
  | Some s => negb (String.eqb s "")
  | None => false
  end.

Definition is_system (t : Tab) : bool :=
  match type t with System => true | Welcome => false end.

Definition is_welcome (t : Tab) : bool :=
  match type t with Welcome => true | System => false end.

(** [tab.system === systemName]. *)
Definition has_system (systemName : string) (t : Tab) : bool :=
  match system t with
  | Some k => String.eqb k systemName
  | None => false
  end.

(** [createWelcomeTab()]. *)
Definition welcomeTab : Tab :=
  mkTab "welcome" (Some "欢迎页面") Welcome None None false true None None
    None None false None None.

(** [constructor()] and [init()]; [createTabNavigation] makes the welcome
    tab only when the page has the [tabList] element. *)
Definition constructor (hasTabList : bool) : TabManager :=
  if hasTabList then
    mkTM [("welcome", welcomeTab)] (Some "welcome") 0 [] 10 [] [] [] []
      None
  else mkTM [] None 0 [] 10 [] [] [] [] None.

(** [findTabBySystem(systemName)]: the first tab, in insertion order,
    whose [system] is [systemName]. *)
Definition findTabBySystem (systemName : string) (s : TabManager)
    : option Tab :=
  List.find (has_system systemName) (JsMap.values (tabs s)).

(** [updateTabStatus(tabId, status)]. *)
Definition updateTabStatus (tabId : string) (st : TabStatus)
    (s : TabManager) : TabManager :=
  with_tabs (JsMap.update tabId (set_status st)) s.

(** [loadTabContent(tabId)]. *)
Definition loadTabContent (tabId : string) (now : Z) (s : TabManager)
    : TabManager :=
  match JsMap.get tabId (tabs s) with
  | None => s
  | Some tab =>
      if negb (is_system tab) || isLoaded tab then s
      else
        let s1 := with_queue (JsSet.delete tabId) s in
        let s2 := updateTabStatus tabId Loading s1 in
        with_tabs
          (JsMap.update tabId
             (fun t => set_isLoaded true (set_loadStartTime (Some now) t)))
          s2
  end.

(** [scheduleTabLoad(tabId)]: registers the idle callback. *)
Definition scheduleTabLoad (tabId : string) (s : TabManager) : TabManager :=
  mkTM (tabs s) (activeTab s) (tabCounter s) (lazyLoadQueue s)
    (maxTabs s) (inactiveTabTimers s) (idleCallbacks s ++ [tabId])
    (closeDialogs s) (stopRequests s) (currentSystem s).

(** The callback registered by [scheduleTabLoad], when it runs. *)
Definition idleCallback (tabId : string) (now : Z) (s : TabManager)
    : TabManager :=
  if JsSet.has tabId (lazyLoadQueue s) then loadTabContent tabId now s
  else s.

(** The [forEach] of [activateTab]: every active tab is deactivated, its
    [lastActiveTime] is set and its unload timer is registered. *)
Definition deactivate (now : Z) (t : Tab) : Tab :=
  if isActive t then set_active false now t else t.

Definition active_keys (m : list (string * Tab)) : list string :=
  JsMap.keys (List.filter (fun p => isActive (snd p)) m).

(** [activateTab(tabId)]. *)
Definition activateTab (tabId : string) (now : Z) (s : TabManager)
    : TabManager :=
  match JsMap.get tabId (tabs s) with
  | None => s
  | Some tab =>
      let timers1 :=
        match activeTab s with
        | Some a =>
            if truthy (Some a) && JsSet.has a (inactiveTabTimers s)
            then JsSet.delete a (inactiveTabTimers s)
            else inactiveTabTimers s
        | None => inactiveTabTimers s
        end in
      let timers2 :=
        fold_left (fun acc k => JsSet.add k acc) (active_keys (tabs s))
          timers1 in
      let tabs1 := JsMap.map_values (deactivate now) (tabs s) in
      let tabs2 := JsMap.update tabId (set_active true now) tabs1 in
      let s1 :=
        mkTM tabs2 (Some tabId) (tabCounter s) (lazyLoadQueue s)
          (maxTabs s) timers2 (idleCallbacks s) (closeDialogs s)
          (stopRequests s) (currentSystem s) in
      let s2 := if negb (isLoaded tab) && is_system tab
                then loadTabContent tabId now s1 else s1 in
      mkTM (tabs s2) (activeTab s2) (tabCounter s2) (lazyLoadQueue s2)
        (maxTabs s2) (inactiveTabTimers s2) (idleCallbacks s2)
        (closeDialogs s2) (stopRequests s2)
        (if is_system tab then system tab else None)
  end.

(** [activateNextTab()]. *)
Definition activateNextTab (now : Z) (s : TabManager) : TabManager :=
  let tabIds := JsMap.keys (tabs s) in
  match tabIds with
  | [] => s
  | _ =>
      let welcome :=
        List.find
          (fun k => match JsMap.get k (tabs s) with
                    | Some t => is_welcome t
                    | None => false
                    end) tabIds in
      let target := if truthy welcome then welcome else last tabIds in
      match target with
      | Some k => activateTab k now s
      | None => s
      end
  end.

(** [closeTab], from "clear the timer" to the end. *)
Definition closeTab_finish (tabId : string) (now : Z) (s : TabManager)
    : TabManager :=
  let s1 :=
    mkTM (JsMap.delete tabId (tabs s)) (activeTab s) (tabCounter s)
      (JsSet.delete tabId (lazyLoadQueue s)) (maxTabs s)
      (JsSet.delete tabId (inactiveTabTimers s)) (idleCallbacks s)
      (closeDialogs s) (stopRequests s) (currentSystem s) in
  match activeTab s1 with
  | Some a => if String.eqb a tabId then activateNextTab now s1 else s1
  | None => s1
  end.

(** [closeTab(tabId, confirmClose)] is asynchronous.  This is the part
    that runs within the call: for a system tab with [confirmClose] it
    opens the confirmation and suspends; otherwise it goes through to the
    end. *)
Definition closeTab (tabId : string) (confirmClose : bool) (now : Z)
    (s : TabManager) : TabManager :=
  match JsMap.get tabId (tabs s) with
  | None => s
  | Some tab =>
      if negb (isClosable tab) then s
      else if is_system tab && truthy (system tab) && confirmClose then
        mkTM (tabs s) (activeTab s) (tabCounter s) (lazyLoadQueue s)
          (maxTabs s) (inactiveTabTimers s) (idleCallbacks s)
          (closeDialogs s ++ [(tabId, default "" (system tab))])
          (stopRequests s) (currentSystem s)
      else closeTab_finish tabId now s
  end.

Fixpoint remove_first (tabId : string) (l : list (string * string))
    : option (string * list (string * string)) :=
  match l with
  | [] => None
  | (k, sys) :: l' =>
      if String.eqb k tabId then Some (sys, l')
      else match remove_first tabId l' with
           | Some (sys', r) => Some (sys', (k, sys) :: r)
           | None => None
           end
  end.

(** The user answers an open confirmation; [closeTab] resumes. *)
Definition answerCloseDialog (tabId : string) (c : Choice) (now : Z)
    (s : TabManager) : TabManager :=
  match remove_first tabId (closeDialogs s) with
  | None => s
  | Some (sys, rest) =>
      let s1 :=
        mkTM (tabs s) (activeTab s) (tabCounter s) (lazyLoadQueue s)
          (maxTabs s) (inactiveTabTimers s) (idleCallbacks s) rest
          (stopRequests s) (currentSystem s) in
      match c with
      | Cancel => s1
      | CloseOnly => closeTab_finish tabId now s1
      | StopAndClose =>
          mkTM (tabs s1) (activeTab s1) (tabCounter s1) (lazyLoadQueue s1)
            (maxTabs s1) (inactiveTabTimers s1) (idleCallbacks s1)
            (closeDialogs s1) (stopRequests s1 ++ [(tabId, sys)])
            (currentSystem s1)
      end
  end.

(** [stopBackendService] has settled (it catches its own errors);
    [closeTab] resumes. *)
Definition stopServiceSettled (tabId : string) (now : Z) (s : TabManager)
    : TabManager :=
  match remove_first tabId (stopRequests s) with
  | None => s
  | Some (_, rest) =>
      closeTab_finish tabId now
        (mkTM (tabs s) (activeTab s) (tabCounter s) (lazyLoadQueue s)
           (maxTabs s) (inactiveTabTimers s) (idleCallbacks s)
           (closeDialogs s) rest (currentSystem s))
  end.

(** [tab.lastActiveTime < oldestTime]; false when the property is
    missing. *)
Definition older_than (t : Tab) (bound : Z) : bool :=
  match lastActiveTime t with
  | Some v => v <? bound
  | None => false
  end.

(** The loop of [closeOldestInactiveTab]: [acc] is
    [(oldestTab, oldestTime)]. *)
Fixpoint oldest_scan (l : list Tab) (acc : option Tab * Z)
    : option Tab * Z :=
  match l with
  | [] => acc
  | tab :: l' =>
      if isClosable tab && negb (isActive tab)
         && older_than tab (snd acc)
      then oldest_scan l' (Some tab, default 0 (lastActiveTime tab))
      else oldest_scan l' acc
  end.


Definition oldestInactiveTab (now : Z) (s : TabManager) : option Tab :=
  fst (oldest_scan (JsMap.values (tabs s)) (None, now)).

(** [closeOldestInactiveTab()]; the call of [closeTab] is not awaited. *)
Definition closeOldestInactiveTab (now : Z) (s : TabManager) : TabManager :=
  match oldestInactiveTab now s with
  | Some t => closeTab (id t) true now s
  | None => s
  end.

(** [`tab-${systemName}-${counter}`]. *)
Definition tab_id (systemName : string) (counter : nat) : string :=
  "tab-" +:+ systemName +:+ "-"
    +:+ NilZero.string_of_uint (Nat.to_uint counter).

Definition new_tab (tabId systemName : string) (cfg : SystemConfig)
    (options : Options) (now : Z) : Tab :=
  mkTab tabId (cfg_name cfg) System (Some systemName)
    (if truthy (cfg_path cfg) then cfg_path cfg else cfg_url cfg)
    true false (Some Pending) None (Some now) (Some now) false
    (Some (default "normal" (opt_priority options))) None.

Definition wants_immediate (options : Options) : bool :=
  match opt_priority options with
  | Some p => String.eqb p "high"
  | None => false
  end || opt_immediate options.

(** [openTab(systemName, options)]. *)
Definition openTab (systems : gmap string SystemConfig)
    (systemName : string) (options : Options) (now : Z) (s : TabManager)
    : TabManager :=
  match systems_get systems systemName with
  | None => s
  | Some cfg =>
      match findTabBySystem systemName s with
      | Some existing => activateTab (id existing) now s
      | None =>
          let s1 := if (maxTabs s <=? JsMap.size (tabs s))%nat
                    then closeOldestInactiveTab now s else s in
          let counter := S (tabCounter s1) in
          let tabId := tab_id systemName counter in
          let tab := new_tab tabId systemName cfg options now in
          let s2 :=
            mkTM (JsMap.set tabId tab (tabs s1)) (activeTab s1) counter
              (lazyLoadQueue s1) (maxTabs s1) (inactiveTabTimers s1)
              (idleCallbacks s1) (closeDialogs s1) (stopRequests s1)
              (currentSystem s1) in
          let s3 := activateTab tabId now s2 in
          let s4 :=
            if wants_immediate options then loadTabContent tabId now s3
            else scheduleTabLoad tabId
                   (with_queue (JsSet.add tabId) s3) in
          mkTM (tabs s4) (activeTab s4) (tabCounter s4) (lazyLoadQueue s4)
            (maxTabs s4) (inactiveTabTimers s4) (idleCallbacks s4)
            (closeDialogs s4) (stopRequests s4) (Some systemName)
      end
  end.

(** [preloadNextTab()]. *)
Definition preloadNextTab (s : TabManager) : TabManager :=
  match lazyLoadQueue s with
  | k :: _ => if truthy (Some k) then scheduleTabLoad k s else s
  | [] => s
  end.

(** [onIframeLoad(tab, iframe)], for the tab object that was created
    under [tabId]. *)
Definition onIframeLoad (tabId : string) (now : Z) (s : TabManager)
    : TabManager :=
  let timed (t : Tab) : Tab :=
    match loadStartTime t with
    | Some t0 =>
        if negb (t0 =? 0)
        then set_loadStartTime None (set_loadTime (Some (now - t0)) t)
        else t
    | None => t
    end in
  preloadNextTab
    (updateTabStatus tabId Loaded (with_tabs (JsMap.update tabId timed) s)).

(** [onIframeError(tab, iframe)]. *)
Definition onIframeError (tabId : string) (s : TabManager) : TabManager :=
  updateTabStatus tabId Error s.

(** [unloadInactiveTab(tabId)]; [iframeFound] says whether the page still
    has the tab's frame. *)
Definition unloadInactiveTab (tabId : string) (iframeFound : bool)
    (s : TabManager) : TabManager :=
  match JsMap.get tabId (tabs s) with
  | None => s
  | Some tab =>
      if isActive tab || negb (is_system tab) then s
      else if iframeFound then
        updateTabStatus tabId Unloaded
          (with_tabs (JsMap.update tabId (set_isLoaded false)) s)
      else s
  end.

(** [refreshCurrentTab()]. *)
Definition refreshCurrentTab (iframeFound : bool) (now : Z)
    (s : TabManager) : TabManager :=
  match activeTab s with
  | None => s
  | Some a =>
      if negb (truthy (Some a)) then s
      else match JsMap.get a (tabs s) with
           | None => s
           | Some tab =>
               if negb (is_system tab) then s
               else if iframeFound then
                 with_tabs
                   (JsMap.update a (set_loadStartTime (Some now)))
                   (updateTabStatus a Loading s)
               else s
           end
  end.

(** [duplicateTab(tabId)]. *)
Definition duplicateTab (systems : gmap string SystemConfig)
    (tabId : string) (now : Z) (s : TabManager) : TabManager :=
  match JsMap.get tabId (tabs s) with
  | None => s
  | Some tab =>
      if negb (is_system tab) then s
      else match system tab with
           | Some k => openTab systems k no_options now s
           | None => s
           end
  end.

(** [closeOtherTabs(keepTabId)]. *)
Definition closeOtherTabs (keepTabId : string) (now : Z) (s : TabManager)
    : TabManager :=
  let tabsToClose :=
    List.filter
      (fun k => negb (String.eqb k keepTabId)
                && match JsMap.get k (tabs s) with
                   | Some t => isClosable t
                   | None => false
                   end)
      (JsMap.keys (tabs s)) in
  fold_left (fun acc k => closeTab k true now acc) tabsToClose s.

(** [destroy()].  Confirmations that are still open keep waiting. *)
Definition destroy (s : TabManager) : TabManager :=
  mkTM [] None (tabCounter s) [] (maxTabs s) [] (idleCallbacks s)
    (closeDialogs s) (stopRequests s) (currentSystem s).

(** What can happen to a tab manager, one event-loop turn at a time. *)
Inductive Action :=
| OpenTab (systemName : string) (options : Options)
| ActivateTab (tabId : string)
| CloseTab (tabId : string) (confirmClose : bool)
| AnswerCloseDialog (tabId : string) (c : Choice)
| StopServiceSettled (tabId : string)
| IdleCallback (tabId : string)
| IframeLoad (tabId : string)
| IframeError (tabId : string)
| UnloadTimer (tabId : string) (iframeFound : bool)
| RefreshCurrentTab (iframeFound : bool)
| DuplicateTab (tabId : string)
| CloseOtherTabs (keepTabId : string)
| Destroy.

Definition step (systems : gmap string SystemConfig) (now : Z)
    (a : Action) (s : TabManager) : TabManager :=
  match a with
  | OpenTab k o => openTab systems k o now s
  | ActivateTab t => activateTab t now s
  | CloseTab t c => closeTab t c now s
  | AnswerCloseDialog t c => answerCloseDialog t c now s
  | StopServiceSettled t => stopServiceSettled t now s
  | IdleCallback t => idleCallback t now s
  | IframeLoad t => onIframeLoad t now s
  | IframeError t => onIframeError t s
  | UnloadTimer t f => unloadInactiveTab t f s
  | RefreshCurrentTab f => refreshCurrentTab f now s
  | DuplicateTab t => duplicateTab systems t now s
  | CloseOtherTabs t => closeOtherTabs t now s
  | Destroy => destroy s
  end.

(** A run: each turn reads the clock once. *)
Fixpoint run (systems : gmap string SystemConfig)
    (turns : list (Z * Action)) (s : TabManager) : TabManager :=
  match turns with
  | [] => s
  | (now, a) :: rest => run systems rest (step systems now a s)
  end.

(** At most one tab per system key. *)
Definition system_keys (m : list (string * Tab)) : list string :=
  omap (fun t => system t) (JsMap.values m).

Definition unique_systems (s : TabManager) : Prop :=
  NoDup (system_keys (tabs s)).

Definition status_of (tabId : string) (s : TabManager) : option TabStatus :=
  match JsMap.get tabId (tabs s) with
  | Some t => status t
  | None => None
  end.



(** The first welcome tab and the last key, as [activateNextTab] finds
    them. *)
Definition first_welcome (m : list (string * Tab)) : option string :=
  List.find
    (fun k => match JsMap.get k m with
              | Some t => is_welcome t
              | None => false
              end) (JsMap.keys m).

(** The tab that [activateNextTab] activates: [welcomeTab ||
    tabIds[tabIds.length - 1]]. *)
Definition next_after_close (m : list (string * Tab)) : option string :=
  if truthy (first_welcome m) then first_welcome m
  else last (JsMap.keys m).

(** What never changes in a tab once it is in the registry: its key, its
    [id] and its [system]. *)
Definition skeleton (m : list (string * Tab))
    : list (string * (string * option string)) :=
  map (fun p => (fst p, (id (snd p), system (snd p)))) m.

(** Assignments to the mutable fields leave the skeleton alone. *)
Definition keeps (f : Tab -> Tab) : Prop :=
  forall t, id (f t) = id t /\ system (f t) = system t.

(** The registry of [s'] holds some of the tabs of [s], in the same
    order, and no other. *)
Definition shrinks (s s' : TabManager) : Prop :=
  skeleton (tabs s') `sublist_of` skeleton (tabs s).

(** The registry invariant: keys are unique and equal to the [id] of the
    tab they hold, no two tabs have the same [system], and every [system]
    is a name that the configuration lookup finds. *)
Definition well_formed (systems : gmap string SystemConfig)
    (sk : list (string * (string * option string))) : Prop :=
  NoDup (map fst sk) /\
  Forall (fun e => fst (snd e) = fst e) sk /\
  NoDup (omap (fun e => snd (snd e)) sk) /\
  Forall (fun e => forall k, snd (snd e) = Some k ->
                             is_Some (systems_get systems k)) sk.

(** ** Sample runs *)

Definition open_ (now : Z) (systemName : string) : Z * Action :=
  (now, OpenTab systemName no_options).

(** The scenario of the specification: two tabs allowed, three opened. *)
Definition three_opens : list (Z * Action) :=
  [ open_ 100 "writing"; open_ 200 "case2pg"; open_ 300 "censor" ].

(** Ten tabs opened on the shipped page: the four configured systems and
    six names that the configuration object inherits. *)
Definition ten_opens : list (Z * Action) :=
  [ open_ 100 "writing"; open_ 200 "qa_sys"; open_ 300 "case2pg";
    open_ 400 "censor"; open_ 500 "constructor"; open_ 600 "toString";
    open_ 700 "valueOf"; open_ 800 "hasOwnProperty";
    open_ 900 "isPrototypeOf"; open_ 1000 "propertyIsEnumerable" ].

(** Three loaded, closable, inactive tabs last active at 10, 20 and 5,
    next to the active welcome tab, in a manager that allows four tabs. *)
Definition sample_tab (tabId systemName : string) (last : Z) : Tab :=
  mkTab tabId (Some systemName) System (Some systemName) (Some "/") true
    false (Some Loaded) (Some 40) (Some 1) (Some last) true
    (Some "normal") None.

Definition T1 : Tab := sample_tab "tab-writing-1" "writing" 10.
Definition T2 : Tab := sample_tab "tab-case2pg-2" "case2pg" 20.
Definition T3 : Tab := sample_tab "tab-censor-3" "censor" 5.

Definition three_tabs : TabManager :=
  mkTM [ ("welcome", welcomeTab); ("tab-writing-1", T1);
         ("tab-case2pg-2", T2); ("tab-censor-3", T3) ]
    (Some "welcome") 3 [] 4 [] [] [] [] None.

(** Three tabs on a page without the tab list (no welcome tab), the
    second one active, the first one active just before it. *)
Definition three_no_welcome : TabManager :=
  run portal_systems
    [ open_ 1 "writing"; open_ 2 "qa_sys"; open_ 3 "case2pg";
      (4, ActivateTab "tab-writing-1"); (5, ActivateTab "tab-qa_sys-2") ]
    (constructor false).

(** ** Keyboard navigation, the context menu and memory pressure *)

(** [tabIds.indexOf(this.activeTab)], counting from [i]: the position of
    the first element equal to the active tab, [-1] when there is none
    (also when [activeTab] is [null]). *)
Fixpoint index_from (i : Z) (a : option string) (tabIds : list string)
    : Z :=
  match tabIds with
  | [] => -1
  | x :: rest =>
      if match a with Some k => String.eqb x k | None => false end
      then i else index_from (i + 1) a rest
  end.

Definition indexOf (a : option string) (tabIds : list string) : Z :=
  index_from 0 a tabIds.

(** [tabIds[i]]; [None] is [undefined]. *)
Definition at_index (tabIds : list string) (i : Z) : option string :=
  if i <? 0 then None else tabIds !! Z.to_nat i.

(** [this.activateTab(tabIds[i])]; for [undefined] no tab is found. *)
Definition activate_at (tabIds : list string) (i : Z) (now : Z)
    (s : TabManager) : TabManager :=
  match at_index tabIds i with
  | Some k => activateTab k now s
  | None => s
  end.

(** [switchToNextTab()].  With no tabs the remainder is [NaN] and the
    lookup gives [undefined]. *)
Definition switchToNextTab (now : Z) (s : TabManager) : TabManager :=
  let tabIds := JsMap.keys (tabs s) in
  let currentIndex := indexOf (activeTab s) tabIds in
  match tabIds with
  | [] => s
  | _ :: _ =>
      let nextIndex :=
        Z.rem (currentIndex + 1) (Z.of_nat (length tabIds)) in
      activate_at tabIds nextIndex now s
  end.

(** [navigateToPreviousTab()]. *)
Definition navigateToPreviousTab (now : Z) (s : TabManager) : TabManager :=
  let tabIds := JsMap.keys (tabs s) in
  let currentIndex := indexOf (activeTab s) tabIds in
  let prevIndex :=
    if currentIndex >? 0 then currentIndex - 1
    else Z.of_nat (length tabIds) - 1 in
  activate_at tabIds prevIndex now s.

(** [navigateToFirstTab()]. *)
Definition navigateToFirstTab (now : Z) (s : TabManager) : TabManager :=
  match JsMap.keys (tabs s) with
  | k :: _ => activateTab k now s
  | [] => s
  end.

(** [navigateToLastTab()]. *)
Definition navigateToLastTab (now : Z) (s : TabManager) : TabManager :=
  match last (JsMap.keys (tabs s)) with
  | Some k => activateTab k now s
  | None => s
  end.

(** [refreshTab(tabId)]; [iframeFound] says whether the page has the frame
    of the tab that is active when [refreshCurrentTab] runs. *)
Definition refreshTab (tabId : string) (iframeFound : bool) (now : Z)
    (s : TabManager) : TabManager :=
  let currentActive := activeTab s in
  let s1 := activateTab tabId now s in
  let s2 := refreshCurrentTab iframeFound now s1 in
  match currentActive with
  | Some a => if String.eqb a tabId then s2 else activateTab a now s2
  | None => s2
  end.

(** [loadTabIfNeeded(tabId)]. *)
Definition loadTabIfNeeded (tabId : string) (now : Z) (s : TabManager)
    : TabManager :=
  match JsMap.get tabId (tabs s) with
  | Some tab =>
      if negb (isLoaded tab) && JsSet.has tabId (lazyLoadQueue s)
      then loadTabContent tabId now s else s
  | None => s
  end.

(** The body of the loop of [performMemoryCleanup], for one entry: the
    tab is read as it is when its turn comes.  [iframeFound] says for
    which tabs the page has a frame. *)
Definition cleanup_visit (iframeFound : string -> bool)
    (acc : TabManager) (tabId : string) : TabManager :=
  match JsMap.get tabId (tabs acc) with
  | Some tab =>
      if negb (isActive tab) && is_system tab && isLoaded tab
      then unloadInactiveTab tabId (iframeFound tabId) acc
      else acc
  | None => acc
  end.

(** [performMemoryCleanup()], as far as the registry goes. *)
Definition performMemoryCleanup (iframeFound : string -> bool)
    (s : TabManager) : TabManager :=
  fold_left (cleanup_visit iframeFound) (JsMap.keys (tabs s)) s.

(** ** Views of the registry *)

(** One property of every tab, by key. *)
Definition proj {A} (f : Tab -> A) (m : list (string * Tab))
    : list (string * A) :=
  map (fun p => (fst p, f (snd p))) m.

(** An assignment that leaves the property alone. *)
Definition keeps_on {A} (f : Tab -> A) (g : Tab -> Tab) : Prop :=
  forall t, f (g t) = f t.

(** What the loading operations leave alone besides the registry. *)
Definition same_frame (s s' : TabManager) : Prop :=
  activeTab s' = activeTab s /\ closeDialogs s' = closeDialogs s /\
  stopRequests s' = stopRequests s.

(** The tab named by [activeTab], and no other, is marked active. *)
Definition consistent (a : option string) (act : list (string * bool))
    : Prop :=
  (forall k, (k, true) ∈ act -> a = Some k) /\
  (forall k, a = Some k -> JsMap.get k act <> Some false).

Definition active_consistent (s : TabManager) : Prop :=
  consistent (activeTab s) (proj isActive (tabs s)).

(** Every id in the lazy-load queue is the key of a registered tab. *)
Definition queue_registered (s : TabManager) : Prop :=
  forall k, k ∈ lazyLoadQueue s -> k ∈ JsMap.keys (tabs s).

(** The registry has the same keys and the queue has lost ids at most. *)
Definition queue_shrinks (s s' : TabManager) : Prop :=
  JsMap.keys (tabs s') = JsMap.keys (tabs s) /\
  forall k, k ∈ lazyLoadQueue s' -> k ∈ lazyLoadQueue s.

(** What the welcome tab is, as far as closing goes. *)
Definition closing_view (t : Tab) : bool * TabType :=
  (isClosable t, type t).

(** The welcome tab is registered as a welcome tab that cannot be closed,
    and no close of it is under way. *)
Definition welcome_kept (s : TabManager) : Prop :=
  JsMap.get "welcome" (proj closing_view (tabs s)) = Some (false, Welcome)
  /\ Forall (fun p => fst p <> "welcome") (closeDialogs s)
  /\ Forall (fun p => fst p <> "welcome") (stopRequests s).

(** Every tab that can be closed is a system tab with a system name. *)
Definition closable_are_systems (s : TabManager) : Prop :=
  forall k t, JsMap.get k (tabs s) = Some t -> isClosable t = true ->
              is_system t && truthy (system t) = true.

End Tabs.

(* ===================================================================== *)
(** * CacheManager                                                        *)
(* ===================================================================== *)

(** The response cache of [main.js]: a [Map] from request keys to a value
    and the time at which it expires.  [Date.now()] is an argument. *)
Module Cache.

Record Item (V : Type) := mkItem { value : V; expiry : Z }.
Arguments mkItem {V}.
Arguments value {V}.
Arguments expiry {V}.

Record CacheManager (V : Type) := mkCache {
  cache : list (string * Item V);
  maxSize : nat;
  ttl : Z
}.
Arguments mkCache {V}.
Arguments cache {V}.
Arguments maxSize {V}.
Arguments ttl {V}.

Definition with_cache {V} (m : list (string * Item V))
    (c : CacheManager V) : CacheManager V :=
  mkCache m (maxSize c) (ttl c).

(** The object as declared: empty, a hundred entries, five minutes. *)
Definition initial {V} : CacheManager V := mkCache [] 100 (5 * 60 * 1000).

(** [customTtl || this.ttl]: the default also replaces a zero. *)
Definition effective_ttl {V} (customTtl : option Z) (c : CacheManager V)
    : Z :=
  match customTtl with
  | Some t => if t =? 0 then ttl c else t
  | None => ttl c
  end.

(** [set(key, value, customTtl)].  On an empty map [firstKey] is
    [undefined] and the deletion does nothing. *)
Definition set {V} (key : string) (v : V) (customTtl : option Z) (now : Z)
    (c : CacheManager V) : CacheManager V :=
  let expiry := now + effective_ttl customTtl c in
  let c1 :=
    if (maxSize c <=? JsMap.size (cache c))%nat then
      match JsMap.keys (cache c) with
      | firstKey :: _ => with_cache (JsMap.delete firstKey (cache c)) c
      | [] => c
      end
    else c in
  with_cache (JsMap.set key (mkItem v expiry) (cache c1)) c1.

(** [get(key)]; [None] is [null]. *)
Definition get {V} (key : string) (now : Z) (c : CacheManager V)
    : CacheManager V * option V :=
  match JsMap.get key (cache c) with
  | None => (c, None)
  | Some item =>
      if now >? expiry item
      then (with_cache (JsMap.delete key (cache c)) c, None)
      else (c, Some (value item))
  end.

(** [clear()]. *)
Definition clear {V} (c : CacheManager V) : CacheManager V :=
  with_cache [] c.

(** [cleanup()]: the loop goes over the entries and deletes, by key, each
    one that has expired. *)
Definition cleanup {V} (now : Z) (c : CacheManager V) : CacheManager V :=
  with_cache
    (fold_left
       (fun acc p => if now >? expiry (snd p) then JsMap.delete (fst p) acc
                     else acc)
       (cache c) (cache c))
    c.

(** The calls that reach the cache. *)
Inductive Call (V : Type) :=
| CallSet (key : string) (v : V) (customTtl : option Z)
| CallGet (key : string)
| CallClear
| CallCleanup.
Arguments CallSet {V}.
Arguments CallGet {V}.
Arguments CallClear {V}.
Arguments CallCleanup {V}.

Definition step {V} (now : Z) (a : Call V) (c : CacheManager V)
    : CacheManager V :=
  match a with
  | CallSet key v customTtl => set key v customTtl now c
  | CallGet key => fst (get key now c)
  | CallClear => clear c
  | CallCleanup => cleanup now c
  end.

Fixpoint run {V} (calls : list (Z * Call V)) (c : CacheManager V)
    : CacheManager V :=
  match calls with
  | [] => c
  | (now, a) :: rest => run rest (step now a c)
  end.

(** Keys are unique and there are no more entries than [maxSize]. *)
Definition bounded {V} (c : CacheManager V) : Prop :=
  NoDup (JsMap.keys (cache c)) /\ (JsMap.size (cache c) <= maxSize c)%nat.

(** The entries that have not expired at [now]. *)
Definition fresh {V} (now : Z) (m : list (string * Item V))
    : list (string * Item V) :=
  List.filter (fun p => negb (now >? expiry (snd p))) m.

(** A cache for two entries, holding [a] and [b]. *)
Definition small : CacheManager nat :=
  mkCache [("a", mkItem 1%nat 50); ("b", mkItem 2%nat 500)] 2 100.

End Cache.

(* ===================================================================== *)
(** * PortalUtils                                                         *)
(* ===================================================================== *)

Module PortalUtils.

(** ** [request]: the cache in front of [fetch]

    The parsed body is a value of type [V]; [truthy] is its JavaScript
    truthiness, which [if (cached)] tests. *)

(** What [fetch] does: the promise rejects ([aborted] when the timeout
    fired), or there is a response, with [ok] false, or with [ok] true and
    a body that [clone().json()] can parse or not. *)
Inductive FetchReply (V : Type) :=
| FetchRejected (aborted : bool)
| FetchNotOk
| FetchOk (body : option V).
Arguments FetchRejected {V}.
Arguments FetchNotOk {V}.
Arguments FetchOk {V}.

(** What [request] resolves to or throws. *)
Inductive RequestResult (V : Type) :=
| FromCache (data : V)          (* a new [Response] made of cached data *)
| FromNetwork (body : option V) (* the response of [fetch] *)
| Timeout                       (* [new Error('请求超时')] *)
| Failure.                      (* any other error, rethrown *)
Arguments FromCache {V}.
Arguments FromNetwork {V}.
Arguments Timeout {V}.
Arguments Failure {V}.

Record RequestOutcome (V : Type) := mkOutcome {
  cache_after : Cache.CacheManager V;
  result : RequestResult V;
  fetched : bool                 (* whether [fetch] was called *)
}.
Arguments mkOutcome {V}.
Arguments cache_after {V}.
Arguments result {V}.
Arguments fetched {V}.

(** [`request_${url}_${JSON.stringify(options)}`]. *)
Definition cacheKey (url optionsJson : string) : string :=
  "request_" +:+ url +:+ "_" +:+ optionsJson.

(** [!options.method || options.method === 'GET']. *)
Definition is_get (method : option string) : bool :=
  match method with
  | None => true
  | Some m => String.eqb m "" || String.eqb m "GET"
  end.

(** [options.method !== 'POST']. *)
Definition not_post (method : option string) : bool :=
  match method with
  | Some m => negb (String.eqb m "POST")
  | None => true
  end.

(** [request], from [fetch] on. *)
Definition request_fetch {V} (enableCaching : bool) (key : string)
    (method : option string) (later : Z) (reply : FetchReply V)
    (c : Cache.CacheManager V) : RequestOutcome V :=
  match reply with
  | FetchRejected aborted =>
      mkOutcome c (if aborted then Timeout else Failure) true
  | FetchNotOk => mkOutcome c Failure true
  | FetchOk body =>
      let c1 :=
        if enableCaching && is_get method then
          match body with
          | Some data => Cache.set key data None later c
          | None => c
          end
        else c in
      mkOutcome c1 (FromNetwork body) true
  end.

(** [request(url, options)]: [now] is the clock when the cache is read,
    [later] when the answer is stored. *)
Definition request {V} (truthy : V -> bool) (enableCaching : bool)
    (url optionsJson : string) (method : option string) (now later : Z)
    (reply : FetchReply V) (c : Cache.CacheManager V) : RequestOutcome V :=
  let key := cacheKey url optionsJson in
  let '(c1, cached) :=
    if enableCaching && not_post method then Cache.get key now c
    else (c, None) in
  match cached with
  | Some d =>
      if truthy d then mkOutcome c1 (FromCache d) false
      else request_fetch enableCaching key method later reply c1
  | None => request_fetch enableCaching key method later reply c1
  end.

(** ** [showNotification]: the pool of visible notifications *)

Record Note := mkNote {
  message : string;
  type : string;
  duration : Z
}.








Inductive PageEvent :=
| Show (n : Note)              (* a call from the application *)
| TransitionEnd (key : string) (* a run of a [handleTransitionEnd] *)
| TimerFires.                  (* the oldest 100 ms timer *)





(** Six different notifications. *)
Definition six_notes : list PageEvent :=
  map (fun m => Show (mkNote m "info" 3000))
    [ "a"; "b"; "c"; "d"; "e"; "f" ].

End PortalUtils.

(* ===================================================================== *)
(** * SystemGuide                                                         *)
(* ===================================================================== *)

Module Guide.

(** The notifications of [startSystem]. *)
Inductive Notice :=
| NoSuchSystem     (* 系统不存在 *)
| Launching        (* 正在启动 ... *)
| StartFailed      (* 启动 ... 失败 *)
| StartedOpening   (* ... 启动成功，正在打开页面... *)
| Opened.          (* ... 已打开 *)

Record Outcome := mkOutcome {
  serviceManager : option Service.ServiceManager;
  guideHidden : bool;        (* [this.hideGuide()] was called *)
  tabRequested : bool;       (* [window.tabManager.openTab(systemName)] *)
  notices : list Notice
}.



End Guide.

(* ===================================================================== *)
(** * The performance metrics of TabManager                               *)
(* ===================================================================== *)

(** [this.performanceMetrics]: a [Map] from tab ids to plain objects whose
    properties, one per metric, hold arrays of samples.  The value of a
    sample is not looked at and has any type [V]. *)
Module Metrics.

Record Sample (V : Type) := mkSample { value : V; timestamp : Z }.
Arguments mkSample {V}.
Arguments value {V}.
Arguments timestamp {V}.

(** The own properties of one metrics object. *)
Definition MetricsObject (V : Type) : Type :=
  list (string * list (Sample V)).

Definition PerformanceMetrics (V : Type) : Type :=
  list (string * MetricsObject V).

(** [metrics[metric].slice(-10)] when there are more than ten. *)
Definition last_ten {A} (l : list A) : list A :=
  if (10 <? length l)%nat then drop (length l - 10) l else l.

(** [recordPerformanceMetric(tabId, metric, value)].  The boolean is
    [false] when the call raises: for a name that the object inherits
    from [Object.prototype], [metrics[metric]] is not an array and has no
    [push]. *)
Definition recordPerformanceMetric {V} (tabId metric : string) (v : V)
    (now : Z) (pm : PerformanceMetrics V) : PerformanceMetrics V * bool :=
  let pm1 := if JsMap.has tabId pm then pm else JsMap.set tabId [] pm in
  match JsMap.get tabId pm1 with
  | None => (pm1, false)
  | Some metrics =>
      let store (vals : list (Sample V)) :=
        (JsMap.update tabId
           (JsMap.set metric (last_ten (vals ++ [mkSample v now]))) pm1,
         true) in
      match JsMap.get metric metrics with
      | Some vals => store vals
      | None =>
          if existsb (String.eqb metric) Tabs.object_prototype_names
          then (pm1, false)
          else store []
      end
  end.

(** [cleanupPerformanceMetrics()]. *)
Definition cleanupPerformanceMetrics {V} (now : Z)
    (pm : PerformanceMetrics V) : PerformanceMetrics V :=
  let cutoffTime := now - 300000 in
  JsMap.map_values
    (JsMap.map_values
       (List.filter (fun item => timestamp item >? cutoffTime)))
    pm.

(** What happens to the metrics: a sample is recorded, old samples are
    cleaned up, or a tab is closed and its metrics are deleted. *)
Inductive Call (V : Type) :=
| Record_ (tabId metric : string) (v : V)
| Cleanup
| Delete (tabId : string).
Arguments Record_ {V}.
Arguments Cleanup {V}.
Arguments Delete {V}.

Definition step {V} (now : Z) (a : Call V) (pm : PerformanceMetrics V)
    : PerformanceMetrics V :=
  match a with
  | Record_ tabId metric v =>
      fst (recordPerformanceMetric tabId metric v now pm)
  | Cleanup => cleanupPerformanceMetrics now pm
  | Delete tabId => JsMap.delete tabId pm
  end.

Fixpoint run {V} (calls : list (Z * Call V)) (pm : PerformanceMetrics V)
    : PerformanceMetrics V :=
  match calls with
  | [] => pm
  | (now, a) :: rest => run rest (step now a pm)
  end.

(** The samples kept for a metric of a tab. *)
Definition samples {V} (tabId metric : string) (pm : PerformanceMetrics V)
    : option (list (Sample V)) :=
  match JsMap.get tabId pm with
  | Some metrics => JsMap.get metric metrics
  | None => None
  end.

(** No array holds more than ten samples. *)
Definition capped {V} (pm : PerformanceMetrics V) : Prop :=
  Forall (fun p => Forall (fun q => (length (snd q) <= 10)%nat) (snd p)) pm.

End Metrics.

(* ===================================================================== *)
(** * The health probe and the response cache                             *)
(* ===================================================================== *)

(** The probe of [performHealthCheckWithRetry] is
    [PortalUtils.request('/health')]: there are no options, so the method
    is missing and [JSON.stringify(options)] is the text of the empty
    object; caching is on in the configuration as shipped. *)
Module Probe.





End Probe.
(* ===================================================================== *)
(** * Properties of the health monitor                                    *)
(* ===================================================================== *)

Section HealthFacts.
Import Health.

(** ** The retry loop *)

Lemma retry_loop_spec m net :
  forall left attempt,
    (attempt + left = S (maxRetries m))%nat ->
    (0 < left)%nat ->
    exists n,
      (1 <= n <= left)%nat /\
      snd (retry_loop m net left attempt)
        = concat (map (attempt_events m) (seq attempt n)) /\
      (forall k, (attempt <= k < attempt + n - 1)%nat ->
                 reply_ok (net k) = false) /\
      match fst (retry_loop m net left attempt) with
      | Returned b => net (attempt + n - 1)%nat = HttpOk b
      | Thrown => n = left /\ reply_ok (net (attempt + n - 1)%nat) = false
      | FellThrough => False
      end.
Proof.
  induction left as [|left IH]; intros attempt Hsum Hpos; [lia|].
  cbn [retry_loop].
  set (pre := if (0 <? attempt)%nat then [Wait (backoff m attempt)]
              else []).
  assert (Hpre : pre ++ [Probe attempt] = attempt_events m attempt).
  { unfold attempt_events, pre. destruct (0 <? attempt)%nat; reflexivity. }
  assert (Hlast : (attempt + 1 - 1)%nat = attempt) by lia.
  assert (Hfail : reply_ok (net attempt) = false ->
    let res := if (attempt =? maxRetries m)%nat
               then (Thrown, pre ++ [Probe attempt])
               else let '(r, tr) := retry_loop m net left (S attempt) in
                    (r, pre ++ Probe attempt :: tr) in
    exists n,
      (1 <= n <= S left)%nat /\
      snd res = concat (map (attempt_events m) (seq attempt n)) /\
      (forall k, (attempt <= k < attempt + n - 1)%nat ->
                 reply_ok (net k) = false) /\
      match fst res with
      | Returned b => net (attempt + n - 1)%nat = HttpOk b
      | Thrown => n = S left
                  /\ reply_ok (net (attempt + n - 1)%nat) = false
      | FellThrough => False
      end).
  { intros Hbad res. subst res.
    destruct (Nat.eqb_spec attempt (maxRetries m)) as [Heq|Hne].
    - exists 1%nat. cbn [fst snd]. rewrite Hlast.
      split; [lia|]. split; [cbn; rewrite app_nil_r; exact Hpre|].
      split; [intros k Hk; lia|]. split; [lia | exact Hbad].
    - destruct (IH (S attempt)) as (n & Hn & Htr & Hprev & Hres);
        [lia | lia |].
      destruct (retry_loop m net left (S attempt)) as [r tr] eqn:Hloop.
      cbn [fst snd] in *.
      exists (S n).
      replace (attempt + S n - 1)%nat with (S attempt + n - 1)%nat by lia.
      split; [lia|]. split.
      { cbn [seq map concat]. rewrite <- Hpre, Htr.
        rewrite <- app_assoc. reflexivity. }
      split.
      { intros k Hk.
        destruct (Nat.eq_dec k attempt) as [->|Hk']; [exact Hbad|].
        apply Hprev. lia. }
      destruct r; try exact Hres.
      destruct Hres as [-> Hl]. split; [reflexivity | exact Hl]. }
  destruct (net attempt) as [| |body] eqn:Hnet.
  - apply Hfail. reflexivity.
  - apply Hfail. reflexivity.
  - exists 1%nat. cbn [fst snd]. rewrite Hlast.
    split; [lia|]. split; [cbn; rewrite app_nil_r; exact Hpre|].
    split; [intros k Hk; lia | exact Hnet].
Qed.

Lemma attempt_events_ext m m' k :
  retryDelay m = retryDelay m' -> attempt_events m k = attempt_events m' k.
Proof. unfold attempt_events, backoff. intros ->. reflexivity. Qed.

Lemma attempts_trace_ext m m' n :
  retryDelay m = retryDelay m' -> attempts_trace m n = attempts_trace m' n.
Proof.
  intros H. unfold attempts_trace. f_equal. apply map_ext.
  intros k. apply attempt_events_ext, H.
Qed.

Lemma probes_app t1 t2 : probes (t1 ++ t2) = (probes t1 + probes t2)%nat.
Proof. unfold probes. rewrite List.filter_app, length_app. reflexivity. Qed.

Lemma probes_attempts m n a :
  probes (concat (map (attempt_events m) (seq a n))) = n.
Proof.
  revert a. induction n as [|n IH]; intros a; [reflexivity|].
  cbn [seq map concat]. rewrite probes_app, IH.
  unfold attempt_events. destruct (0 <? a)%nat; reflexivity.
Qed.

(** What [check_enter] may change. *)
Lemma check_enter_Proceed m now m0 :
  check_enter m now = Proceed m0 ->
  isChecking m = false /\ maxRetries m0 = maxRetries m /\
  retryDelay m0 = retryDelay m /\
  maxConsecutiveFailures m0 = maxConsecutiveFailures m /\
  adaptiveInterval m0 = adaptiveInterval m /\
  circuitBreakerOpen m0 = false /\
  (circuitBreakerOpen m = false -> m0 = m).
Proof.
  unfold check_enter. destruct (isChecking m) eqn:Hc; [discriminate|].
  destruct (circuitBreakerOpen m) eqn:Ho.
  - destruct (_ && _); [discriminate|]. intros [= <-]. cbn.
    repeat split; try reflexivity. discriminate.
  - intros [= <-]. repeat split; try reflexivity. exact Ho.
Qed.

(** The body of a cycle, once past the breaker check. *)
Lemma check_body_spec base m net later :
  let r := check_body base m net later in
  settled r = Fulfilled /\
  outcome r <> NotRun /\
  isChecking (after r) = false /\
  exists n,
    (1 <= n <= S (maxRetries m))%nat /\
    trace r = attempts_trace m n /\
    (forall k, (k < n - 1)%nat -> reply_ok (net k) = false) /\
    match net (n - 1)%nat with
    | HttpOk (Some d) =>
        if updateUI_throws d
        then outcome r = Failed /\
             after r = set_isChecking false
               (onCheckFailure base
                  (fst (onCheckSuccess base (set_isChecking true m) d))
                  later)
        else outcome r = Succeeded /\
             after r = set_isChecking false
               (fst (onCheckSuccess base (set_isChecking true m) d))
    | HttpOk None =>
        outcome r = Failed /\
        after r = set_isChecking false
          (onCheckFailure base (set_isChecking true m) later)
    | _ =>
        n = S (maxRetries m) /\ outcome r = Failed /\
        after r = set_isChecking false
          (onCheckFailure base (set_isChecking true m) later)
    end.
Proof.
  unfold check_body, performHealthCheckWithRetry.
  destruct (retry_loop_spec (set_isChecking true m) net
              (S (maxRetries m)) 0) as (n & Hn & Htr & Hprev & Hres);
    [cbn; lia | lia |].
  change (maxRetries (set_isChecking true m)) with (maxRetries m) in *.
  destruct (retry_loop (set_isChecking true m) net (S (maxRetries m)) 0)
    as [res tr] eqn:Hloop.
  cbn [fst snd] in Htr, Hres. cbn [Nat.add] in Hres.
  assert (Htrace : tr = attempts_trace m n).
  { rewrite Htr. apply (attempts_trace_ext (set_isChecking true m) m).
    reflexivity. }
  assert (Hprev' : forall k, (k < n - 1)%nat -> reply_ok (net k) = false).
  { intros k Hk. apply Hprev. lia. }
  destruct res as [[d|]| |].
  - unfold onCheckSuccess.
    destruct (updateUI_throws d) eqn:Hui; cbn [fst snd].
    + repeat split; try discriminate.
      exists n. rewrite Hres, Hui. cbn [fst]. auto.
    + repeat split; try discriminate.
      exists n. rewrite Hres, Hui. cbn [fst]. auto.
  - repeat split; try discriminate. exists n. rewrite Hres. auto.
  - destruct Hres as [Hl Hbad]. repeat split; try discriminate.
    exists n.
    destruct (net (n - 1)%nat) as [| |b]; try discriminate;
      cbn [trace outcome after]; auto 10.
  - contradiction.
Qed.

Lemma all_attempts_fail_spec m net :
  all_attempts_fail m net = true <->
  forall k, (k <= maxRetries m)%nat -> reply_ok (net k) = false.
Proof.
  unfold all_attempts_fail. rewrite forallb_forall. split.
  - intros H k Hk. specialize (H k).
    rewrite in_seq in H. apply negb_true_iff, H. lia.
  - intros H k Hk. rewrite in_seq in Hk. apply negb_true_iff, H. lia.
Qed.

(** A cycle whose attempts all fail, entered with the breaker closed. *)
Lemma check_all_fail base m now later net :
  isChecking m = false -> circuitBreakerOpen m = false ->
  all_attempts_fail m net = true ->
  check base m now later net
  = mkCycle (set_isChecking false
               (onCheckFailure base (set_isChecking true m) later))
      (attempts_trace m (S (maxRetries m))) Failed Fulfilled.
Proof.
  intros Hc Ho Hall. unfold check, check_enter. rewrite Hc, Ho.
  rewrite all_attempts_fail_spec in Hall.
  destruct (check_body_spec base m net later)
    as (Hs & Hrun & _ & n & Hn & Htr & Hprev & Hlast).
  assert (Hbad : reply_ok (net (n - 1)%nat) = false) by (apply Hall; lia).
  destruct (check_body base m net later) as [a t o st].
  cbn [after trace outcome settled] in *.
  destruct (net (n - 1)%nat) as [| |b]; try discriminate;
    destruct Hlast as (-> & -> & ->); subst; reflexivity.
Qed.


(** ** The adaptive interval *)

(** The bounds do not depend on how the two products are rounded: it is
    enough that the shrunk value does not exceed the current one and that
    the grown value is not below it, which rounding to the nearest double
    keeps, the current value being a double itself. *)
Lemma bounds_under_any_rounding (base cap cur shrunk grown : Q) :
  (base <= cap)%Q -> (base <= cur)%Q -> (cur <= cap)%Q ->
  (shrunk <= cur)%Q -> (cur <= grown)%Q ->
  (base <= Qmax base shrunk)%Q /\ (Qmax base shrunk <= cap)%Q /\
  (base <= Qmin grown cap)%Q /\ (Qmin grown cap <= cap)%Q.
Proof.
  intros Hbc Hlo Hhi Hs Hg. repeat split.
  - apply Q.le_max_l.
  - apply Q.max_lub; lra.
  - apply Q.min_glb; lra.
  - apply Q.le_min_r.
Qed.




End HealthFacts.

Section HealthClaims.
Import Health.






(** C8 as stated fails: with the constructor's [maxRetries = 3], a cycle
    whose attempts all fail issues four probes; and a cycle is failed
    after a single attempt when the body of a good response cannot be
    read. *)
Lemma retry_attempts_counterexample :
  let base := healthCheckInterval in
  let m := constructor base in
  (maxRetries m = 3%nat /\
   probes (trace (check base m 1000 8500 net_down)) = 4%nat /\
   ~ (probes (trace (check base m 1000 8500 net_down))
      <= maxRetries m)%nat) /\
  (let r := check base m 1000 1200 (fun _ => HttpOk None) in
   outcome r = Failed /\ probes (trace r) = 1%nat).
Proof.
  cbn zeta. split; [split; [reflexivity | split; [reflexivity|]]|].
  - vm_compute. lia.
  - split; reflexivity.
Qed.

(** C8, amended.  A cycle issues at most [maxRetries + 1] attempts (the
    first one and [maxRetries] retries); attempt [k > 0] is preceded by a
    wait of [retryDelay * 2^(k-1)]; an attempt is made only after all the
    earlier ones failed, and the retry loop gives up only after attempt
    [maxRetries] has failed too; a cycle is failed only when every attempt
    failed or the body of the good response was unusable; the promise of
    [check()] is never rejected, and a failed cycle leaves the error
    snapshot carrying the failure count. *)
Theorem retry_attempts_budget base m now later net :
  let r := check base m now later net in
  settled r = Fulfilled /\
  (probes (trace r) <= S (maxRetries m))%nat /\
  (outcome r = NotRun -> trace r = [] /\ after r = m) /\
  (outcome r <> NotRun ->
   exists n,
     (1 <= n <= S (maxRetries m))%nat /\
     trace r = attempts_trace m n /\
     (forall k, (k < n - 1)%nat -> reply_ok (net k) = false) /\
     (reply_ok (net (n - 1)%nat) = false -> n = S (maxRetries m))) /\
  (outcome r = Failed ->
   systemHealth (after r) = ErrorSnapshot (consecutiveFailures (after r))
   /\ (all_attempts_fail m net = true
       \/ exists k, (k <= maxRetries m)%nat
                    /\ body_unusable (net k) = true)).
Proof.
  cbn zeta. unfold check.
  destruct (check_enter m now) as [| |m0] eqn:He.
  1,2: cbn [settled trace outcome after probes List.filter length];
    repeat split; try lia; try discriminate; congruence.
  apply check_enter_Proceed in He as (_ & Hmr & Hrd & _).
  destruct (check_body_spec base m0 net later)
    as (Hs & Hrun & _ & n & Hn & Htr & Hprev & Hlast).
  rewrite Hmr in Hn, Hlast.
  rewrite (attempts_trace_ext m0 m n Hrd) in Htr.
  split; [exact Hs|]. split.
  { rewrite Htr. unfold attempts_trace. rewrite probes_attempts. lia. }
  split; [intros H; contradiction|]. split.
  { intros _. exists n. repeat split; try lia; auto.
    intros Hbad. destruct (net (n - 1)%nat) as [| |b];
      try discriminate; tauto. }
  intros Hfail.
  destruct (net (n - 1)%nat) as [| |[d|]] eqn:Hnet.
  - destruct Hlast as (-> & _ & ->). split; [reflexivity|]. left.
    apply all_attempts_fail_spec. intros k Hk.
    destruct (Nat.eq_dec k (S (maxRetries m) - 1)%nat) as [->|Hne];
      [rewrite Hnet; reflexivity | apply Hprev; lia].
  - destruct Hlast as (-> & _ & ->). split; [reflexivity|]. left.
    apply all_attempts_fail_spec. intros k Hk.
    destruct (Nat.eq_dec k (S (maxRetries m) - 1)%nat) as [->|Hne];
      [rewrite Hnet; reflexivity | apply Hprev; lia].
  - destruct (updateUI_throws d) eqn:Hui; destruct Hlast as (Ho & ->).
    + split; [reflexivity|]. right. exists (n - 1)%nat.
      split; [lia|]. rewrite Hnet. exact Hui.
    + congruence.
  - destruct Hlast as (_ & ->). split; [reflexivity|]. right.
    exists (n - 1)%nat. split; [lia|]. rewrite Hnet. reflexivity.
Qed.

Lemma retry_attempts_budget_witness :
  let m := constructor healthCheckInterval in
  let r := check healthCheckInterval m 1000 8500 net_down in
  trace r = attempts_trace m 4 /\
  systemHealth (after r) = ErrorSnapshot (consecutiveFailures (after r)).
Proof.
  cbn zeta.
  destruct (retry_attempts_budget healthCheckInterval
              (constructor healthCheckInterval) 1000 8500 net_down)
    as (_ & _ & _ & H & F).
  split.
  - destruct H as (n & _ & Htr & _ & Hlast); [discriminate|].
    rewrite (Hlast eq_refl) in Htr. exact Htr.
  - apply F. reflexivity.
Defined.

End HealthClaims.

(* ===================================================================== *)
(** * Properties of the service controller                                *)
(* ===================================================================== *)

Section ServiceClaims.
Import Service.








End ServiceClaims.

(* ===================================================================== *)
(** * Facts about the containers                                          *)
(* ===================================================================== *)

Section JsMapFacts.
Context {V : Type}.
Implicit Types (m : list (string * V)) (k : string) (f : V -> V).

Lemma get_update k k' f m :
  JsMap.get k' (JsMap.update k f m)
  = if String.eqb k k' then f <$> JsMap.get k' m else JsMap.get k' m.
Proof.
  induction m as [|[k0 v] m IH]; cbn [JsMap.update JsMap.get].
  - destruct (String.eqb k k'); reflexivity.
  - destruct (String.eqb_spec k0 k) as [->|Hne]; cbn [JsMap.get].
    + destruct (String.eqb k k'); reflexivity.
    + rewrite IH. destruct (String.eqb_spec k0 k') as [->|Hne'].
      * destruct (String.eqb_spec k k'); [congruence | reflexivity].
      * reflexivity.
Qed.

Lemma get_update_eq k f m :
  JsMap.get k (JsMap.update k f m) = f <$> JsMap.get k m.
Proof. rewrite get_update, String.eqb_refl. reflexivity. Qed.

Lemma keys_update k f m : JsMap.keys (JsMap.update k f m) = JsMap.keys m.
Proof.
  induction m as [|[k0 v] m IH]; [reflexivity|].
  cbn [JsMap.update]. destruct (String.eqb k0 k); cbn; [reflexivity|].
  unfold JsMap.keys in IH. rewrite IH. reflexivity.
Qed.

Lemma length_update k f m : length (JsMap.update k f m) = length m.
Proof.
  induction m as [|[k0 v] m IH]; [reflexivity|].
  cbn [JsMap.update]. destruct (String.eqb k0 k); cbn; congruence.
Qed.

Lemma get_map_values k f m :
  JsMap.get k (JsMap.map_values f m) = f <$> JsMap.get k m.
Proof.
  induction m as [|[k0 v] m IH]; [reflexivity|].
  cbn. destruct (String.eqb k0 k); [reflexivity | exact IH].
Qed.

Lemma keys_map_values f m :
  JsMap.keys (JsMap.map_values f m) = JsMap.keys m.
Proof.
  unfold JsMap.keys, JsMap.map_values. rewrite map_map. reflexivity.
Qed.

Lemma get_app k m m' :
  JsMap.get k (m ++ m')
  = match JsMap.get k m with
    | Some v => Some v
    | None => JsMap.get k m'
    end.
Proof.
  induction m as [|[k0 v] m IH]; [reflexivity|].
  cbn. destruct (String.eqb k0 k); [reflexivity | exact IH].
Qed.

Lemma get_set_eq k v m : JsMap.get k (JsMap.set k v m) = Some v.
Proof.
  unfold JsMap.set, JsMap.has.
  destruct (JsMap.get k m) as [v0|] eqn:Hg.
  - rewrite get_update_eq, Hg. reflexivity.
  - rewrite get_app, Hg. cbn. rewrite String.eqb_refl. reflexivity.
Qed.

Lemma get_delete_eq k m : JsMap.get k (JsMap.delete k m) = None.
Proof.
  induction m as [|[k0 v] m IH]; [reflexivity|].
  cbn [JsMap.delete]. destruct (String.eqb k0 k) eqn:He; [exact IH|].
  cbn. rewrite He. exact IH.
Qed.

Lemma get_delete_ne k k' m :
  k <> k' -> JsMap.get k' (JsMap.delete k m) = JsMap.get k' m.
Proof.
  intros Hne. induction m as [|[k0 v] m IH]; [reflexivity|].
  cbn [JsMap.delete]. destruct (String.eqb_spec k0 k) as [->|Hn0].
  - cbn. destruct (String.eqb_spec k k'); [congruence | exact IH].
  - cbn. destruct (String.eqb k0 k'); [reflexivity | exact IH].
Qed.

Lemma delete_sublist k m : JsMap.delete k m `sublist_of` m.
Proof.
  induction m as [|[k0 v] m IH]; [constructor|].
  cbn [JsMap.delete]. destruct (String.eqb k0 k); by constructor.
Qed.

Lemma get_Some_in_keys k v m : JsMap.get k m = Some v -> k ∈ JsMap.keys m.
Proof.
  induction m as [|[k0 v0] m IH]; [discriminate|].
  cbn. destruct (String.eqb_spec k0 k) as [->|Hne].
  - intros _. apply list_elem_of_here.
  - intros H. apply list_elem_of_further, IH, H.
Qed.

Lemma in_keys_get k m : k ∈ JsMap.keys m -> is_Some (JsMap.get k m).
Proof.
  induction m as [|[k0 v0] m IH]; cbn.
  - intros H. by apply elem_of_nil in H.
  - intros H. destruct (String.eqb_spec k0 k) as [->|Hne]; [by eexists|].
    apply elem_of_cons in H as [->|H]; [congruence | by apply IH].
Qed.

Lemma get_Some_in k v m : JsMap.get k m = Some v -> (k, v) ∈ m.
Proof.
  induction m as [|[k0 v0] m IH]; [discriminate|].
  cbn. destruct (String.eqb_spec k0 k) as [->|Hne].
  - intros [= ->]. apply list_elem_of_here.
  - intros H. apply list_elem_of_further, IH, H.
Qed.

Lemma in_get_NoDup k v m :
  NoDup (JsMap.keys m) -> (k, v) ∈ m -> JsMap.get k m = Some v.
Proof.
  induction m as [|[k0 v0] m IH]; cbn.
  - intros _ H. by apply elem_of_nil in H.
  - intros Hnd H. apply NoDup_cons in Hnd as [Hnotin Hnd].
    apply elem_of_cons in H as [[= -> ->]|H].
    + rewrite String.eqb_refl. reflexivity.
    + destruct (String.eqb_spec k0 k) as [->|Hne]; [|by apply IH].
      exfalso. apply Hnotin.
      apply (list_elem_of_fmap_2 fst) in H. exact H.
Qed.

End JsMapFacts.

(* ===================================================================== *)
(** * Properties of the tab registry                                      *)
(* ===================================================================== *)

Section TabRuns.
Import Tabs.

(** For a name that the lookup does not find, [openTab] changes nothing. *)
Lemma openTab_unknown systems k o now s :
  systems_get systems k = None -> openTab systems k o now s = s.
Proof. unfold openTab. intros ->. reflexivity. Qed.

(** ** Choosing the tab to evict *)




End TabRuns.

Section TabFrames.
Import Tabs.

Lemma keeps_set_active b now : keeps (set_active b now).
Proof. by intros t. Qed.
Lemma keeps_set_status st : keeps (set_status st).
Proof. by intros t. Qed.
Lemma keeps_set_isLoaded b : keeps (set_isLoaded b).
Proof. by intros t. Qed.
Lemma keeps_set_loadStartTime v : keeps (set_loadStartTime v).
Proof. by intros t. Qed.
Lemma keeps_set_loadTime v : keeps (set_loadTime v).
Proof. by intros t. Qed.
Lemma keeps_deactivate now : keeps (deactivate now).
Proof. intros t. unfold deactivate. by destruct (isActive t). Qed.
Lemma keeps_compose f g : keeps f -> keeps g -> keeps (fun t => f (g t)).
Proof.
  intros Hf Hg t. destruct (Hf (g t)) as [-> ->]. apply Hg.
Qed.

Lemma skeleton_update k f m :
  keeps f -> skeleton (JsMap.update k f m) = skeleton m.
Proof.
  intros Hf. induction m as [|[k0 t] m IH]; [reflexivity|].
  cbn [JsMap.update]. destruct (String.eqb k0 k); cbn.
  - destruct (Hf t) as [-> ->]. reflexivity.
  - unfold skeleton in IH. rewrite IH. reflexivity.
Qed.

Lemma skeleton_map_values f m :
  keeps f -> skeleton (JsMap.map_values f m) = skeleton m.
Proof.
  intros Hf. unfold skeleton, JsMap.map_values. rewrite map_map.
  apply map_ext. intros [k t]. cbn. destruct (Hf t) as [-> ->].
  reflexivity.
Qed.

Lemma skeleton_delete k m :
  skeleton (JsMap.delete k m) `sublist_of` skeleton m.
Proof.
  unfold skeleton. apply (fmap_sublist _), delete_sublist.
Qed.

Lemma keys_skeleton m : map fst (skeleton m) = JsMap.keys m.
Proof. unfold skeleton, JsMap.keys. rewrite map_map. reflexivity. Qed.

Lemma system_keys_skeleton m :
  omap (fun e => snd (snd e)) (skeleton m) = system_keys m.
Proof.
  unfold system_keys, skeleton, JsMap.values.
  induction m as [|[k t] m IH]; [reflexivity|].
  cbn. rewrite IH. reflexivity.
Qed.

End TabFrames.

Section TabOperations.
Import Tabs.

Lemma skeleton_updateTabStatus k st s :
  skeleton (tabs (updateTabStatus k st s)) = skeleton (tabs s).
Proof. apply skeleton_update, keeps_set_status. Qed.

Lemma skeleton_loadTabContent k now s :
  skeleton (tabs (loadTabContent k now s)) = skeleton (tabs s).
Proof.
  unfold loadTabContent. destruct (JsMap.get k (tabs s)); [|reflexivity].
  destruct (_ || _); [reflexivity|]. cbn [with_tabs tabs].
  rewrite skeleton_update.
  - rewrite skeleton_updateTabStatus. reflexivity.
  - apply (keeps_compose (set_isLoaded true)
             (set_loadStartTime (Some now)));
      [apply keeps_set_isLoaded | apply keeps_set_loadStartTime].
Qed.

Lemma skeleton_activateTab k now s :
  skeleton (tabs (activateTab k now s)) = skeleton (tabs s).
Proof.
  unfold activateTab. destruct (JsMap.get k (tabs s)) as [t|];
    [|reflexivity].
  cbn [tabs].
  match goal with
  | |- skeleton (tabs (if ?c then loadTabContent k now ?s1 else _)) = _ =>
      assert (Hs1 : skeleton (tabs s1) = skeleton (tabs s));
      [| destruct c; [rewrite skeleton_loadTabContent|]; exact Hs1]
  end.
  cbn [tabs]. rewrite skeleton_update by apply keeps_set_active.
  apply skeleton_map_values, keeps_deactivate.
Qed.

Lemma activateNextTab_eq now s :
  activateNextTab now s
  = match next_after_close (tabs s) with
    | Some k => activateTab k now s
    | None => s
    end.
Proof.
  unfold activateNextTab, next_after_close, first_welcome.
  destruct (JsMap.keys (tabs s)) eqn:Hk; reflexivity.
Qed.

Lemma skeleton_activateNextTab now s :
  skeleton (tabs (activateNextTab now s)) = skeleton (tabs s).
Proof.
  rewrite activateNextTab_eq. destruct (next_after_close (tabs s));
    [apply skeleton_activateTab | reflexivity].
Qed.

Lemma shrinks_refl s : shrinks s s.
Proof. unfold shrinks. reflexivity. Qed.

Lemma shrinks_trans s1 s2 s3 : shrinks s1 s2 -> shrinks s2 s3 -> shrinks s1 s3.
Proof. unfold shrinks. intros H1 H2. by etrans. Qed.

Lemma shrinks_same s s' :
  skeleton (tabs s') = skeleton (tabs s) -> shrinks s s'.
Proof. unfold shrinks. intros ->. reflexivity. Qed.

Local Ltac same_tabs := apply shrinks_same; reflexivity.

Lemma shrinks_closeTab_finish k now s : shrinks s (closeTab_finish k now s).
Proof.
  unfold closeTab_finish, shrinks. cbn [activeTab].
  assert (Hd : skeleton (JsMap.delete k (tabs s))
               `sublist_of` skeleton (tabs s)) by apply skeleton_delete.
  destruct (activeTab s) as [a|]; [|exact Hd].
  destruct (String.eqb a k); [|exact Hd].
  rewrite skeleton_activateNextTab. exact Hd.
Qed.

Lemma shrinks_closeTab k c now s : shrinks s (closeTab k c now s).
Proof.
  unfold closeTab. destruct (JsMap.get k (tabs s)) as [t|];
    [|same_tabs].
  destruct (negb (isClosable t)); [same_tabs|].
  destruct (_ && _); [same_tabs | apply shrinks_closeTab_finish].
Qed.

Lemma shrinks_answerCloseDialog k c now s :
  shrinks s (answerCloseDialog k c now s).
Proof.
  unfold answerCloseDialog.
  destruct (remove_first k (closeDialogs s)) as [[sys rest]|];
    [|same_tabs].
  destruct c; try same_tabs.
  eapply shrinks_trans; [|apply shrinks_closeTab_finish].
  same_tabs.
Qed.

Lemma shrinks_stopServiceSettled k now s :
  shrinks s (stopServiceSettled k now s).
Proof.
  unfold stopServiceSettled.
  destruct (remove_first k (stopRequests s)) as [[sys rest]|];
    [|same_tabs].
  eapply shrinks_trans; [|apply shrinks_closeTab_finish].
  same_tabs.
Qed.

Lemma shrinks_closeOldestInactiveTab now s :
  shrinks s (closeOldestInactiveTab now s).
Proof.
  unfold closeOldestInactiveTab. destruct (oldestInactiveTab now s);
    [apply shrinks_closeTab | same_tabs].
Qed.

Lemma shrinks_closeOtherTabs k now s : shrinks s (closeOtherTabs k now s).
Proof.
  unfold closeOtherTabs. generalize (List.filter
    (fun k0 => negb (String.eqb k0 k)
               && match JsMap.get k0 (tabs s) with
                  | Some t => isClosable t
                  | None => false
                  end) (JsMap.keys (tabs s))).
  intros l. revert s. induction l as [|x l IH]; intros s.
  - same_tabs.
  - cbn [fold_left]. eapply shrinks_trans; [apply shrinks_closeTab|].
    apply IH.
Qed.

Lemma shrinks_idleCallback k now s : shrinks s (idleCallback k now s).
Proof.
  unfold idleCallback. destruct (JsSet.has k (lazyLoadQueue s));
    [|same_tabs].
  apply shrinks_same, skeleton_loadTabContent.
Qed.

Lemma shrinks_onIframeLoad k now s : shrinks s (onIframeLoad k now s).
Proof.
  apply shrinks_same. unfold onIframeLoad.
  assert (Hp : forall s0, tabs (preloadNextTab s0) = tabs s0).
  { intros s0. unfold preloadNextTab. destruct (lazyLoadQueue s0);
      [reflexivity|]. destruct (truthy _); reflexivity. }
  rewrite Hp, skeleton_updateTabStatus. cbn [with_tabs tabs].
  apply skeleton_update. intros t. destruct (loadStartTime t) as [t0|];
    [|by split]. destruct (negb (t0 =? 0)); by split.
Qed.

Lemma shrinks_onIframeError k s : shrinks s (onIframeError k s).
Proof. apply shrinks_same, skeleton_updateTabStatus. Qed.

Lemma shrinks_unloadInactiveTab k f s :
  shrinks s (unloadInactiveTab k f s).
Proof.
  unfold unloadInactiveTab. destruct (JsMap.get k (tabs s)) as [t|];
    [|same_tabs].
  destruct (_ || _); [same_tabs|].
  destruct f; [|same_tabs].
  apply shrinks_same. rewrite skeleton_updateTabStatus.
  apply skeleton_update, keeps_set_isLoaded.
Qed.

Lemma shrinks_refreshCurrentTab f now s :
  shrinks s (refreshCurrentTab f now s).
Proof.
  unfold refreshCurrentTab. destruct (activeTab s) as [a|];
    [|same_tabs].
  destruct (negb (truthy (Some a))); [same_tabs|].
  destruct (JsMap.get a (tabs s)) as [t|]; [|same_tabs].
  destruct (negb (is_system t)); [same_tabs|].
  destruct f; [|same_tabs].
  apply shrinks_same. cbn [with_tabs tabs].
  rewrite skeleton_update by apply keeps_set_loadStartTime.
  apply skeleton_updateTabStatus.
Qed.

End TabOperations.

Section TabInvariant.
Import Tabs.
Context (systems : gmap string SystemConfig).

Implicit Types sk : list (string * (string * option string)).

Lemma omap_sublist {A B} (f : A -> option B) (l1 l2 : list A) :
  l1 `sublist_of` l2 -> omap f l1 `sublist_of` omap f l2.
Proof.
  induction 1 as [|x l1 l2 _ IH|x l1 l2 _ IH]; cbn.
  - constructor.
  - destruct (f x); [by constructor | exact IH].
  - destruct (f x); [by constructor | exact IH].
Qed.

Lemma Forall_sublist_of {A} (P : A -> Prop) (l1 l2 : list A) :
  l1 `sublist_of` l2 -> Forall P l2 -> Forall P l1.
Proof.
  intros Hsub HP. apply Forall_forall. intros x Hx.
  rewrite Forall_forall in HP. apply HP.
  eapply sublist_subseteq; eassumption.
Qed.

Lemma well_formed_sublist sk sk' :
  sk' `sublist_of` sk -> well_formed systems sk -> well_formed systems sk'.
Proof.
  intros Hsub (Hk & Hid & Hsys & Hcfg). repeat split.
  - eapply sublist_NoDup; [exact Hk|]. by apply (fmap_sublist _).
  - eapply Forall_sublist_of; eassumption.
  - eapply sublist_NoDup; [exact Hsys|]. by apply omap_sublist.
  - eapply Forall_sublist_of; eassumption.
Qed.

Lemma get_None_not_in_keys {V} k (m : list (string * V)) :
  JsMap.get k m = None -> k ∉ JsMap.keys m.
Proof.
  intros Hg Hin. apply in_keys_get in Hin as [v Hv]. congruence.
Qed.

(** Replacing the value under a key, in the skeleton. *)
Lemma omap_update_elem k e sk x :
  x ∈ omap (fun e => snd (snd e)) (JsMap.update k (fun _ => e) sk) ->
  x ∈ omap (fun e => snd (snd e)) sk \/ snd e = Some x.
Proof.
  induction sk as [|[k0 e0] sk IH]; cbn [JsMap.update].
  - intros H. by left.
  - destruct (String.eqb k0 k); cbn [omap list_omap snd].
    + destruct (snd e) as [y|] eqn:Hy.
      * intros H. apply elem_of_cons in H as [->|H]; [by right|].
        left. destruct (snd e0); [by apply list_elem_of_further | exact H].
      * intros H. left.
        destruct (snd e0); [by apply list_elem_of_further | exact H].
    + destruct (snd e0) as [y|] eqn:Hy.
      * intros H. apply elem_of_cons in H as [->|H];
          [left; apply list_elem_of_here|].
        destruct (IH H) as [H'|H']; [left|by right].
        by apply list_elem_of_further.
      * exact IH.
Qed.

Lemma well_formed_update k e name sk :
  well_formed systems sk ->
  fst e = k -> snd e = Some name ->
  name ∉ omap (fun e => snd (snd e)) sk ->
  is_Some (systems_get systems name) ->
  well_formed systems (JsMap.update k (fun _ => e) sk).
Proof.
  intros (Hk & Hid & Hsys & Hcfg) He1 He2 Hfresh Hok.
  repeat split.
  - change (NoDup (JsMap.keys (JsMap.update k (fun _ => e) sk))).
    rewrite keys_update. exact Hk.
  - clear Hk Hsys Hcfg Hfresh.
    induction sk as [|[k0 e0] sk IH]; [constructor|].
    apply Forall_cons in Hid as [Hhd Htl]. cbn [JsMap.update].
    destruct (String.eqb_spec k0 k) as [->|Hne].
    + constructor; [exact He1 | exact Htl].
    + constructor; [exact Hhd | by apply IH].
  - clear Hk Hid Hcfg.
    induction sk as [|[k0 e0] sk IH]; [constructor|].
    cbn [JsMap.update]. cbn [omap list_omap snd] in Hsys, Hfresh.
    destruct (String.eqb k0 k); cbn [omap list_omap snd].
    + rewrite He2. destruct (snd e0) as [y|].
      * apply NoDup_cons in Hsys as [_ Hsys].
        apply NoDup_cons. split; [|exact Hsys].
        intros Hin. apply Hfresh. by apply list_elem_of_further.
      * apply NoDup_cons. by split.
    + destruct (snd e0) as [y|] eqn:Hy.
      * apply NoDup_cons in Hsys as [Hy' Hsys].
        apply NoDup_cons. split.
        -- intros Hin. apply omap_update_elem in Hin as [Hin|Hin];
             [by apply Hy'|].
           apply Hfresh. rewrite He2 in Hin. injection Hin as ->.
           apply list_elem_of_here.
        -- apply IH; [exact Hsys|].
           intros Hin. apply Hfresh. by apply list_elem_of_further.
      * by apply IH.
  - clear Hk Hid Hsys Hfresh.
    induction sk as [|[k0 e0] sk IH]; [constructor|].
    apply Forall_cons in Hcfg as [Hhd Htl]. cbn [JsMap.update].
    destruct (String.eqb k0 k).
    + constructor; [|exact Htl]. cbn [snd]. intros x Hx.
      rewrite He2 in Hx. injection Hx as <-. exact Hok.
    + constructor; [exact Hhd | by apply IH].
Qed.

Lemma well_formed_set k e name sk :
  well_formed systems sk ->
  fst e = k -> snd e = Some name ->
  name ∉ omap (fun e => snd (snd e)) sk ->
  is_Some (systems_get systems name) ->
  well_formed systems (JsMap.set k e sk).
Proof.
  intros Hwf He1 He2 Hfresh Hok. unfold JsMap.set, JsMap.has.
  destruct (JsMap.get k sk) as [e0|] eqn:Hg.
  - by eapply well_formed_update.
  - destruct Hwf as (Hk & Hid & Hsys & Hcfg). repeat split.
    + rewrite map_app. cbn. apply NoDup_app. split; [exact Hk|].
      split; [|apply NoDup_singleton].
      intros x Hx Hx'. apply list_elem_of_singleton in Hx' as ->.
      by apply (get_None_not_in_keys k sk).
    + apply Forall_app. split; [exact Hid|]. by constructor.
    + rewrite omap_app. cbn [omap list_omap snd]. rewrite He2.
      apply NoDup_app. split; [exact Hsys|].
      split; [|apply NoDup_singleton].
      intros x Hx Hx'. apply list_elem_of_singleton in Hx' as ->.
      by apply Hfresh.
    + apply Forall_app. split; [exact Hcfg|]. constructor; [|constructor].
      cbn [snd]. intros x Hx. rewrite He2 in Hx. injection Hx as <-.
      exact Hok.
Qed.

Lemma get_skeleton k m :
  JsMap.get k (skeleton m) = (fun t => (id t, system t)) <$> JsMap.get k m.
Proof.
  induction m as [|[k0 t] m IH]; [reflexivity|].
  cbn. destruct (String.eqb k0 k); [reflexivity | exact IH].
Qed.

Lemma skeleton_set k v m :
  skeleton (JsMap.set k v m) = JsMap.set k (id v, system v) (skeleton m).
Proof.
  unfold JsMap.set, JsMap.has. rewrite get_skeleton.
  destruct (JsMap.get k m) as [t|]; cbn [fmap option_fmap option_map].
  - induction m as [|[k0 t0] m IH]; [reflexivity|].
    cbn [JsMap.update skeleton map fst snd].
    destruct (String.eqb k0 k); cbn [skeleton map fst snd];
      [reflexivity|].
    unfold skeleton in IH. rewrite IH. reflexivity.
  - unfold skeleton. rewrite map_app. reflexivity.
Qed.

Lemma findTabBySystem_None k s :
  findTabBySystem k s = None -> k ∉ system_keys (tabs s).
Proof.
  unfold findTabBySystem, system_keys. intros Hf Hin.
  apply list_elem_of_omap in Hin as (t & Ht & Hsys).
  apply list_elem_of_In in Ht.
  pose proof (List.find_none _ _ Hf t Ht) as Hno.
  unfold has_system in Hno. rewrite Hsys, String.eqb_refl in Hno.
  discriminate.
Qed.

Lemma findTabBySystem_Some k s t :
  findTabBySystem k s = Some t ->
  t ∈ JsMap.values (tabs s) /\ system t = Some k.
Proof.
  unfold findTabBySystem. intros Hf.
  apply List.find_some in Hf as [Hin Hsys]. split.
  - by apply list_elem_of_In.
  - unfold has_system in Hsys. destruct (system t) as [k'|];
      [|discriminate].
    apply String.eqb_eq in Hsys. by subst.
Qed.

Lemma shrinks_system_keys s s' :
  shrinks s s' -> system_keys (tabs s') ⊆ system_keys (tabs s).
Proof.
  unfold shrinks. intros H. rewrite <- !system_keys_skeleton.
  apply sublist_subseteq, omap_sublist, H.
Qed.

(** What [openTab] does to the registry when it creates a tab. *)
Lemma openTab_new_skeleton k o now s cfg :
  systems_get systems k = Some cfg ->
  findTabBySystem k s = None ->
  let s1 := if (maxTabs s <=? JsMap.size (tabs s))%nat
            then closeOldestInactiveTab now s else s in
  shrinks s s1 /\ tabCounter s1 = tabCounter s /\
  skeleton (tabs (openTab systems k o now s))
  = JsMap.set (tab_id k (S (tabCounter s)))
      (tab_id k (S (tabCounter s)), Some k) (skeleton (tabs s1)).
Proof.
  intros Hcfg Hfind. unfold openTab. rewrite Hcfg, Hfind.
  set (s1 := if (maxTabs s <=? JsMap.size (tabs s))%nat
             then closeOldestInactiveTab now s else s).
  assert (Hs1 : shrinks s s1).
  { subst s1. destruct (_ <=? _)%nat;
      [apply shrinks_closeOldestInactiveTab | apply shrinks_refl]. }
  assert (Hc : tabCounter s1 = tabCounter s).
  { subst s1. destruct (_ <=? _)%nat; [|reflexivity].
    unfold closeOldestInactiveTab.
    destruct (oldestInactiveTab now s) as [t|]; [|reflexivity].
    unfold closeTab. destruct (JsMap.get (id t) (tabs s)) as [t'|];
      [|reflexivity].
    destruct (negb (isClosable t')); [reflexivity|].
    destruct (_ && _); [reflexivity|].
    unfold closeTab_finish. cbn [activeTab].
    destruct (activeTab s) as [a|]; [|reflexivity].
    destruct (String.eqb a (id t)); [|reflexivity].
    rewrite activateNextTab_eq. cbn [tabs].
    destruct (next_after_close _) as [n|]; [|reflexivity].
    unfold activateTab. cbn [tabs].
    destruct (JsMap.get n _) as [tn|]; [|reflexivity].
    cbn [tabCounter].
    destruct (_ && _); [|reflexivity].
    unfold loadTabContent. cbn [tabs].
    destruct (JsMap.get n _) as [tn'|]; [|reflexivity].
    destruct (_ || _); reflexivity. }
  split; [exact Hs1|]. split; [exact Hc|].
  cbn zeta. cbn [tabs]. rewrite Hc.
  match goal with
  | |- skeleton (tabs (if ?c then ?a else ?b)) = _ =>
      assert (Hab : skeleton (tabs a) = skeleton (tabs b)
                    /\ skeleton (tabs b)
                       = JsMap.set (tab_id k (S (tabCounter s)))
                           (tab_id k (S (tabCounter s)), Some k)
                           (skeleton (tabs s1)));
      [| destruct Hab as [Ha Hb]; destruct c; congruence]
  end.
  split.
  - rewrite skeleton_loadTabContent. reflexivity.
  - cbn [scheduleTabLoad with_queue tabs].
    rewrite skeleton_activateTab. cbn [tabs].
    rewrite skeleton_set. reflexivity.
Qed.

Lemma openTab_well_formed k o now s :
  well_formed systems (skeleton (tabs s)) ->
  well_formed systems (skeleton (tabs (openTab systems k o now s))).
Proof.
  intros Hwf.
  destruct (systems_get systems k) as [cfg|] eqn:Hcfg;
    [|by rewrite openTab_unknown].
  destruct (findTabBySystem k s) as [t|] eqn:Hfind.
  - unfold openTab. rewrite Hcfg, Hfind, skeleton_activateTab. exact Hwf.
  - destruct (openTab_new_skeleton k o now s cfg Hcfg Hfind)
      as (Hs1 & _ & ->).
    set (s1 := if (maxTabs s <=? JsMap.size (tabs s))%nat
               then closeOldestInactiveTab now s else s) in *.
    apply (well_formed_set _ _ k); try reflexivity.
    + eapply well_formed_sublist; [exact Hs1 | exact Hwf].
    + rewrite system_keys_skeleton. intros Hin.
      apply (findTabBySystem_None k s Hfind).
      by apply (shrinks_system_keys s s1 Hs1).
    + rewrite Hcfg. by eexists.
Qed.

Lemma step_well_formed now a s :
  well_formed systems (skeleton (tabs s)) ->
  well_formed systems (skeleton (tabs (step systems now a s))).
Proof.
  intros Hwf.
  assert (Hsh : forall s', shrinks s s' ->
                well_formed systems (skeleton (tabs s'))).
  { intros s' H. eapply well_formed_sublist; [exact H | exact Hwf]. }
  destruct a; cbn [step].
  - by apply openTab_well_formed.
  - apply Hsh, shrinks_same, skeleton_activateTab.
  - apply Hsh, shrinks_closeTab.
  - apply Hsh, shrinks_answerCloseDialog.
  - apply Hsh, shrinks_stopServiceSettled.
  - apply Hsh, shrinks_idleCallback.
  - apply Hsh, shrinks_onIframeLoad.
  - apply Hsh, shrinks_onIframeError.
  - apply Hsh, shrinks_unloadInactiveTab.
  - apply Hsh, shrinks_refreshCurrentTab.
  - unfold duplicateTab. destruct (JsMap.get tabId (tabs s)) as [t|];
      [|exact Hwf].
    destruct (negb (is_system t)); [exact Hwf|].
    destruct (system t); [by apply openTab_well_formed | exact Hwf].
  - apply Hsh, shrinks_closeOtherTabs.
  - apply Hsh. unfold shrinks, destroy. cbn [tabs skeleton map].
    apply sublist_nil_l.
Qed.

Lemma run_well_formed turns : forall s,
  well_formed systems (skeleton (tabs s)) ->
  well_formed systems (skeleton (tabs (run systems turns s))).
Proof.
  induction turns as [|[now a] turns IH]; intros s Hwf; [exact Hwf|].
  cbn [run]. by apply IH, step_well_formed.
Qed.

Lemma constructor_well_formed b :
  well_formed systems (skeleton (tabs (constructor b))).
Proof.
  destruct b; cbn; repeat split; repeat constructor;
    try (intros H; by apply elem_of_nil in H); try discriminate.
Qed.

Lemma length_skeleton m : length (skeleton m) = length m.
Proof. unfold skeleton. apply length_map. Qed.

(** While every closable tab is a system tab, the eviction inside [openTab]
    removes nothing before [openTab] returns: it only opens a confirmation.
    So an [openTab] that creates a tab makes the registry one larger,
    whether or not it was full. *)
Lemma openTab_grows k o now s cfg :
  systems_get systems k = Some cfg ->
  findTabBySystem k s = None ->
  (forall key t, JsMap.get key (tabs s) = Some t -> isClosable t = true ->
                 is_system t && truthy (system t) = true) ->
  JsMap.get (tab_id k (S (tabCounter s))) (tabs s) = None ->
  JsMap.size (tabs (openTab systems k o now s)) = S (JsMap.size (tabs s)).
Proof.
  intros Hcfg Hfind Hsys Hfresh.
  destruct (openTab_new_skeleton k o now s cfg Hcfg Hfind) as (_ & _ & Hsk).
  set (s1 := if (maxTabs s <=? JsMap.size (tabs s))%nat
             then closeOldestInactiveTab now s else s) in *.
  assert (Hsame : tabs s1 = tabs s).
  { subst s1. destruct (_ <=? _)%nat; [|reflexivity].
    unfold closeOldestInactiveTab.
    destruct (oldestInactiveTab now s) as [t|]; [|reflexivity].
    unfold closeTab. destruct (JsMap.get (id t) (tabs s)) as [t'|] eqn:Hg;
      [|reflexivity].
    destruct (isClosable t') eqn:Hc; [|reflexivity]. cbn [negb].
    rewrite (Hsys _ _ Hg Hc). reflexivity. }
  unfold JsMap.size. rewrite <- (length_skeleton (tabs (openTab _ _ _ _ _))).
  rewrite Hsk, Hsame. unfold JsMap.set, JsMap.has.
  rewrite get_skeleton, Hfresh. cbn [fmap option_fmap option_map].
  rewrite length_app, length_skeleton. cbn. lia.
Qed.

End TabInvariant.

Section TabActivation.
Import Tabs.

Lemma isActive_deactivate now t : isActive (deactivate now t) = false.
Proof.
  unfold deactivate. destruct (isActive t) eqn:Ha; [reflexivity | exact Ha].
Qed.

(** The tab that [activateTab] is called for. *)
Lemma activateTab_self k now s t :
  JsMap.get k (tabs s) = Some t ->
  activeTab (activateTab k now s) = Some k /\
  exists t',
    JsMap.get k (tabs (activateTab k now s)) = Some t' /\
    isActive t' = true /\ lastActiveTime t' = Some now /\
    system t' = system t /\ type t' = type t /\
    (is_system t = true -> isLoaded t = false ->
     status t' = Some Loading /\ isLoaded t' = true) /\
    (is_system t = true -> isLoaded t' = true).
Proof.
  intros Hget. unfold activateTab. rewrite Hget.
  set (tabs1 := JsMap.update k (set_active true now)
                  (JsMap.map_values (deactivate now) (tabs s))).
  assert (Hg1 : JsMap.get k tabs1
                = Some (set_active true now (deactivate now t))).
  { subst tabs1. rewrite get_update_eq, get_map_values, Hget.
    reflexivity. }
  assert (Hsys : forall u, system (deactivate now u) = system u
                           /\ type (deactivate now u) = type u
                           /\ isLoaded (deactivate now u) = isLoaded u).
  { intros u. unfold deactivate. by destruct (isActive u). }
  destruct (Hsys t) as (Hs & Hty & Hl).
  destruct (negb (isLoaded t) && is_system t) eqn:Hc.
  - apply andb_prop in Hc as [Hnl Hsy]. apply negb_true_iff in Hnl.
    unfold loadTabContent. cbn [tabs]. rewrite Hg1.
    assert (Hgo : negb (is_system (set_active true now (deactivate now t)))
                  || isLoaded (set_active true now (deactivate now t))
                  = false).
    { unfold is_system in *. cbn [type isLoaded set_active].
      rewrite Hty, Hl, Hnl. destruct (type t); [discriminate|reflexivity]. }
    rewrite Hgo. cbn [with_tabs with_queue updateTabStatus tabs activeTab].
    split; [reflexivity|].
    rewrite !get_update_eq, Hg1. cbn [fmap option_fmap option_map].
    eexists. split; [reflexivity|]. cbn. rewrite Hs, Hty. by repeat split.
  - cbn [tabs activeTab]. split; [reflexivity|].
    rewrite Hg1. eexists. split; [reflexivity|]. cbn.
    rewrite Hs, Hty, Hl. do 4 (split; [reflexivity|]). split.
    + intros H1 H2. rewrite H1, H2 in Hc. discriminate.
    + intros H1. rewrite H1, andb_true_r in Hc.
      by apply negb_false_iff in Hc.
Qed.

(** The other tabs. *)
Lemma activateTab_other k k' now s t :
  JsMap.get k (tabs s) = Some t -> k <> k' ->
  JsMap.get k' (tabs (activateTab k now s))
  = deactivate now <$> JsMap.get k' (tabs s).
Proof.
  intros Hget Hne. unfold activateTab. rewrite Hget.
  set (tabs1 := JsMap.update k (set_active true now)
                  (JsMap.map_values (deactivate now) (tabs s))).
  assert (Hg1 : JsMap.get k' tabs1
                = deactivate now <$> JsMap.get k' (tabs s)).
  { subst tabs1. rewrite get_update.
    destruct (String.eqb_spec k k'); [congruence|].
    apply get_map_values. }
  destruct (negb (isLoaded t) && is_system t); cbn [tabs]; [|exact Hg1].
  unfold loadTabContent. cbn [tabs].
  destruct (JsMap.get k tabs1) as [t1|]; [|exact Hg1].
  destruct (_ || _); [exact Hg1|].
  cbn [with_tabs with_queue updateTabStatus tabs].
  rewrite !get_update.
  destruct (String.eqb_spec k k'); [congruence | exact Hg1].
Qed.

Lemma same_system_same_entry (m : list (string * Tab)) k k1 k2 t1 t2 :
  NoDup (system_keys m) ->
  (k1, t1) ∈ m -> (k2, t2) ∈ m ->
  system t1 = Some k -> system t2 = Some k ->
  (k1, t1) = (k2, t2).
Proof.
  unfold system_keys, JsMap.values.
  induction m as [|[k0 t0] m IH]; intros Hnd H1 H2 Hs1 Hs2.
  - by apply elem_of_nil in H1.
  - cbn [map omap list_omap snd] in Hnd.
    assert (Hin : forall kk tt, (kk, tt) ∈ m -> system tt = Some k ->
                  k ∈ omap (fun t => system t) (map snd m)).
    { intros kk tt Hm Hsys. apply list_elem_of_omap. exists tt.
      split; [|exact Hsys].
      apply (list_elem_of_fmap_2 snd) in Hm. exact Hm. }
    apply elem_of_cons in H1 as [[= -> ->]|H1];
      apply elem_of_cons in H2 as [[= -> ->]|H2].
    + reflexivity.
    + rewrite Hs1 in Hnd. apply NoDup_cons in Hnd as [Hno _].
      exfalso. apply Hno. by eapply Hin.
    + rewrite Hs2 in Hnd. apply NoDup_cons in Hnd as [Hno _].
      exfalso. apply Hno. by eapply Hin.
    + apply IH; try assumption.
      destruct (system t0); [by apply NoDup_cons in Hnd as [_ ?]|exact Hnd].
Qed.

End TabActivation.

Section TabClaims.
Import Tabs.

(** C1, on the code.  While every closable tab is a system tab (as all tabs
    made by [openTab] are), an [openTab] that creates a tab in a full
    registry returns with more than [maxTabs] tabs: the eviction has only
    opened a confirmation.  Evaluated: (1) the scenario of the
    specification, on a page without the welcome tab: with [maxTabs = 2],
    after the third [openTab] the registry holds three tabs, and the tab
    chosen for eviction is gone only if the user later agrees; (2) on the
    shipped page ([maxTabs = 10]), after ten opens the registry holds
    eleven tabs. *)
Theorem capacity_exceeded :
  (forall systems k o now s cfg,
      systems_get systems k = Some cfg ->
      findTabBySystem k s = None ->
      (forall key t, JsMap.get key (tabs s) = Some t -> isClosable t = true ->
                     is_system t && truthy (system t) = true) ->
      JsMap.get (tab_id k (S (tabCounter s))) (tabs s) = None ->
      (maxTabs s <= JsMap.size (tabs s))%nat ->
      (maxTabs s < JsMap.size (tabs (openTab systems k o now s)))%nat) /\
  (let s0 := with_maxTabs 2 (constructor false) in
   let s := run portal_systems three_opens s0 in
   maxTabs s = 2%nat /\ JsMap.size (tabs s) = 3%nat /\
   closeDialogs s = [("tab-writing-1", "writing")] /\
   JsMap.size
     (tabs (answerCloseDialog "tab-writing-1" Cancel 400 s)) = 3%nat /\
   JsMap.keys
     (tabs (answerCloseDialog "tab-writing-1" CloseOnly 400 s))
   = ["tab-case2pg-2"; "tab-censor-3"]) /\
  (let s := run portal_systems ten_opens (constructor true) in
   maxTabs s = 10%nat /\ JsMap.size (tabs s) = 11%nat /\
   closeDialogs s = [("tab-writing-1", "writing")]).
Proof.
  split.
  - intros systems k o now s cfg Hcfg Hfind Hsys Hfresh Hfull.
    rewrite (openTab_grows systems k o now s cfg Hcfg Hfind Hsys Hfresh).
    lia.
  - vm_compute. repeat split; reflexivity.
Qed.

Lemma capacity_exceeded_witness :
  let s := run portal_systems [open_ 100 "writing"; open_ 200 "case2pg"]
             (with_maxTabs 2 (constructor false)) in
  (maxTabs s <= JsMap.size (tabs s))%nat /\
  (maxTabs s < JsMap.size
                 (tabs (openTab portal_systems "censor" no_options 300 s)))%nat.
Proof.
  cbn zeta.
  set (s := run portal_systems [open_ 100 "writing"; open_ 200 "case2pg"]
              (with_maxTabs 2 (constructor false))).
  assert (Hfull : (maxTabs s <= JsMap.size (tabs s))%nat)
    by (vm_compute; lia).
  split; [exact Hfull|].
  destruct capacity_exceeded as [H _].
  apply (H portal_systems "censor" no_options 300 s
           (mkSystem (Some "文件审查系统") (Some "/censor") (Some "/censor")));
    [reflexivity | reflexivity | | reflexivity | exact Hfull].
  intros key t Hget Hc.
  apply get_Some_in in Hget.
  apply elem_of_cons in Hget as [[= -> ->]|Hget]; [reflexivity|].
  apply elem_of_cons in Hget as [[= -> ->]|Hget]; [reflexivity|].
  by apply elem_of_nil in Hget.
Defined.

(** C10, on the code.  [openTab] changes nothing for a name that the lookup
    in the configuration does not find; but the lookup finds every property
    name of [Object.prototype], configured or not.  Evaluated: "constructor"
    is not a configured system, yet [openTab] creates and activates a tab
    for it. *)
Theorem unknown_inherited_name_opens_tab :
  (forall systems k o now s,
      systems_get systems k = None -> openTab systems k o now s = s) /\
  (forall systems k,
      In k object_prototype_names -> is_Some (systems_get systems k)) /\
  (let s0 := constructor true in
   let s := openTab portal_systems "constructor" no_options 100 s0 in
   portal_systems !! "constructor" = None /\
   JsMap.keys (tabs s0) = ["welcome"] /\
   JsMap.keys (tabs s) = ["welcome"; "tab-constructor-1"] /\
   activeTab s0 = Some "welcome" /\
   activeTab s = Some "tab-constructor-1").
Proof.
  split; [|split].
  - intros systems k o now s. apply openTab_unknown.
  - intros systems k Hin. unfold systems_get.
    destruct (systems !! k) as [c|]; [by eexists|].
    unfold inherited_member.
    assert (Hex : existsb (String.eqb k) object_prototype_names = true).
    { apply existsb_exists. exists k. split; [exact Hin|].
      apply String.eqb_refl. }
    rewrite Hex. by eexists.
  - vm_compute. repeat split; reflexivity.
Qed.

Lemma unknown_inherited_name_opens_tab_witness :
  openTab portal_systems "reports" no_options 100 (constructor true)
  = constructor true /\
  is_Some (systems_get portal_systems "valueOf").
Proof.
  destruct unknown_inherited_name_opens_tab as (A & B & _).
  split.
  - apply A. reflexivity.
  - apply B. cbn. tauto.
Defined.

(** C4 (uniqueness).  In every state reached from the constructor by any
    sequence of turns, no two tabs have the same [system]; and [openTab]
    for a system that has a tab is exactly [activateTab] of that tab: the
    registry keeps its keys and the existing tab becomes the active one. *)
Theorem one_tab_per_system (systems : gmap string SystemConfig)
    (hasTabList : bool) (turns : list (Z * Action)) :
  let s := run systems turns (constructor hasTabList) in
  unique_systems s /\
  (forall k k1 k2 t1 t2,
      JsMap.get k1 (tabs s) = Some t1 -> JsMap.get k2 (tabs s) = Some t2 ->
      system t1 = Some k -> system t2 = Some k -> k1 = k2) /\
  (forall k o now existing,
      findTabBySystem k s = Some existing ->
      let s' := openTab systems k o now s in
      s' = activateTab (id existing) now s /\
      JsMap.keys (tabs s') = JsMap.keys (tabs s) /\
      activeTab s' = Some (id existing) /\
      exists t', JsMap.get (id existing) (tabs s') = Some t' /\
                 isActive t' = true /\ system t' = Some k).
Proof.
  cbn zeta. set (s := run systems turns (constructor hasTabList)).
  assert (Hwf : well_formed systems (skeleton (tabs s))).
  { apply run_well_formed, constructor_well_formed. }
  destruct Hwf as (Hkeys & Hid & Hsys & Hcfg).
  rewrite keys_skeleton in Hkeys. rewrite system_keys_skeleton in Hsys.
  split; [exact Hsys|]. split.
  - intros k k1 k2 t1 t2 H1 H2 Hs1 Hs2.
    apply get_Some_in in H1. apply get_Some_in in H2.
    by injection (same_system_same_entry (tabs s) k k1 k2 t1 t2
                    Hsys H1 H2 Hs1 Hs2).
  - intros k o now existing Hfind.
    apply findTabBySystem_Some in Hfind as Hex. destruct Hex as [Hin Hk].
    assert (Hget : JsMap.get (id existing) (tabs s) = Some existing).
    { unfold JsMap.values in Hin.
      apply list_elem_of_fmap in Hin as ([key t] & -> & Hin).
      cbn [snd]. rewrite Forall_forall in Hid.
      assert (Hkey : id t = key).
      { apply (Hid (key, (id t, system t))).
        apply (list_elem_of_fmap_2
                 (fun p => (fst p, (id (snd p), system (snd p)))))
          in Hin. exact Hin. }
      rewrite Hkey. by apply in_get_NoDup. }
    assert (Hok : is_Some (systems_get systems k)).
    { rewrite Forall_forall in Hcfg.
      apply (Hcfg (id existing, (id existing, system existing))); [|exact Hk].
      apply get_Some_in in Hget.
      apply (list_elem_of_fmap_2
               (fun p => (fst p, (id (snd p), system (snd p)))))
        in Hget. exact Hget. }
    destruct Hok as [cfg Hcfg'].
    assert (Heq : openTab systems k o now s
                  = activateTab (id existing) now s).
    { unfold openTab. rewrite Hcfg', Hfind. reflexivity. }
    rewrite Heq. split; [reflexivity|]. split.
    { rewrite <- !keys_skeleton, skeleton_activateTab. reflexivity. }
    destruct (activateTab_self (id existing) now s existing Hget)
      as (Ha & t' & Hg' & Hact & _ & Hs' & _).
    split; [exact Ha|]. exists t'. rewrite Hs'. by repeat split.
Qed.

Lemma one_tab_per_system_witness :
  let s := run portal_systems [open_ 100 "writing"; open_ 200 "qa_sys"]
             (constructor true) in
  let s' := openTab portal_systems "writing" no_options 300 s in
  JsMap.keys (tabs s') = JsMap.keys (tabs s) /\
  activeTab s' = Some "tab-writing-1".
Proof.
  destruct (one_tab_per_system portal_systems true
              [open_ 100 "writing"; open_ 200 "qa_sys"]) as (_ & _ & H).
  cbn zeta in *.
  destruct (H "writing" no_options 300
              (mkTab "tab-writing-1" (Some "智能文件撰写系统") System
                 (Some "writing") (Some "/writing/") true false
                 (Some Loading) None (Some 100) (Some 200) true
                 (Some "normal") (Some 100)))
    as (_ & Hk & Ha & _); [reflexivity|].
  split; [exact Hk | exact Ha].
Defined.

Lemma JsSet_has_add k q : JsSet.has k (JsSet.add k q) = true.
Proof.
  unfold JsSet.add. destruct (JsSet.has k q) eqn:Hh; [exact Hh|].
  unfold JsSet.has. rewrite existsb_app. cbn.
  rewrite String.eqb_refl, orb_true_r. reflexivity.
Qed.

Lemma closeOldestInactiveTab_counter now s :
  tabCounter (closeOldestInactiveTab now s) = tabCounter s.
Proof.
  unfold closeOldestInactiveTab.
  destruct (oldestInactiveTab now s) as [t|]; [|reflexivity].
  unfold closeTab. destruct (JsMap.get (id t) (tabs s)) as [t'|];
    [|reflexivity].
  destruct (negb (isClosable t')); [reflexivity|].
  destruct (_ && _); [reflexivity|].
  unfold closeTab_finish. cbn [activeTab].
  destruct (activeTab s) as [a|]; [|reflexivity].
  destruct (String.eqb a (id t)); [|reflexivity].
  rewrite activateNextTab_eq. cbn [tabs].
  destruct (next_after_close _) as [n|]; [|reflexivity].
  unfold activateTab. cbn [tabs].
  destruct (JsMap.get n _) as [tn|]; [|reflexivity].
  cbn [tabCounter].
  destruct (_ && _); [|reflexivity].
  unfold loadTabContent. cbn [tabs].
  destruct (JsMap.get n _) as [tn'|]; [|reflexivity].
  destruct (_ || _); reflexivity.
Qed.

(** C3, on the code.  Whatever the options, a tab created by [openTab] is
    loading when [openTab] returns, because the new tab is activated and
    activation loads a system tab that is not loaded.  Without
    [priority = "high"] or [immediate] the tab is also put in the lazy
    queue, where it stays: the deferred callback finds it loaded and does
    nothing. *)
Theorem new_tab_loading_at_once (systems : gmap string SystemConfig)
    (k : string) (o : Options) (now : Z) (s : TabManager)
    (cfg : SystemConfig) :
  systems_get systems k = Some cfg ->
  findTabBySystem k s = None ->
  let tabId := tab_id k (S (tabCounter s)) in
  let s' := openTab systems k o now s in
  status_of tabId s' = Some Loading /\
  (wants_immediate o = false ->
   JsSet.has tabId (lazyLoadQueue s') = true /\
   forall later, idleCallback tabId later s' = s').
Proof.
  intros Hcfg Hfind. cbn zeta. unfold openTab. rewrite Hcfg, Hfind.
  set (s1 := if (maxTabs s <=? JsMap.size (tabs s))%nat
             then closeOldestInactiveTab now s else s).
  assert (Hc : tabCounter s1 = tabCounter s).
  { subst s1. destruct (_ <=? _)%nat;
      [apply closeOldestInactiveTab_counter | reflexivity]. }
  cbn zeta. rewrite Hc.
  set (tabId := tab_id k (S (tabCounter s))).
  set (tab := new_tab tabId k cfg o now).
  set (s2 := mkTM (JsMap.set tabId tab (tabs s1)) (activeTab s1)
               (S (tabCounter s)) (lazyLoadQueue s1) (maxTabs s1)
               (inactiveTabTimers s1) (idleCallbacks s1) (closeDialogs s1)
               (stopRequests s1) (currentSystem s1)).
  assert (Hg2 : JsMap.get tabId (tabs s2) = Some tab)
    by apply get_set_eq.
  destruct (activateTab_self tabId now s2 tab Hg2)
    as (_ & t' & Hg3 & _ & _ & _ & Hty & Hload & _).
  destruct (Hload eq_refl eq_refl) as [Hst Hld].
  assert (Hsys' : is_system t' = true).
  { unfold is_system. rewrite Hty. reflexivity. }
  set (s3 := activateTab tabId now s2) in *.
  assert (Hnoop : forall later sx,
             tabs sx = tabs s3 -> loadTabContent tabId later sx = sx).
  { intros later sx Hsx. unfold loadTabContent. rewrite Hsx, Hg3.
    rewrite Hld, orb_true_r. reflexivity. }
  destruct (wants_immediate o) eqn:Himm.
  - rewrite (Hnoop now s3 eq_refl). unfold status_of. cbn [tabs].
    rewrite Hg3. split; [exact Hst | discriminate].
  - unfold status_of. cbn [tabs scheduleTabLoad with_queue lazyLoadQueue].
    rewrite Hg3. split; [exact Hst|]. intros _.
    split; [apply JsSet_has_add|].
    intros later. unfold idleCallback. cbn [lazyLoadQueue].
    rewrite JsSet_has_add. apply Hnoop. reflexivity.
Qed.

Lemma new_tab_loading_at_once_witness :
  let s' := openTab portal_systems "qa_sys" no_options 100
              (constructor true) in
  status_of "tab-qa_sys-1" s' = Some Loading /\
  JsSet.has "tab-qa_sys-1" (lazyLoadQueue s') = true /\
  idleCallback "tab-qa_sys-1" 5000 s' = s'.
Proof.
  destruct (new_tab_loading_at_once portal_systems "qa_sys" no_options 100
              (constructor true)
              (mkSystem (Some "业务查询系统") (Some "/qa_sys")
                 (Some "/qa_sys")) eq_refl eq_refl) as [Hst Hq].
  destruct (Hq eq_refl) as [Hin Hidle].
  split; [exact Hst|]. split; [exact Hin | exact (Hidle 5000)].
Defined.



(** ** Closing a tab *)







End TabClaims.

(* ===================================================================== *)
(** * Further properties of the health monitor                            *)
(* ===================================================================== *)

Section HealthMore.
Import Health.

(** How a cycle gets past the breaker check: untouched with the breaker
    closed, or with the breaker closed and the counter cleared. *)
Lemma check_enter_cases m now m0 :
  check_enter m now = Proceed m0 ->
  isChecking m = false /\
  ((circuitBreakerOpen m = false /\ m0 = m) \/
   (circuitBreakerOpen m = true /\
    m0 = mkHCM (isChecking m) (maxRetries m) (retryDelay m) 0
           (maxConsecutiveFailures m) (adaptiveInterval m) (errorHistory m)
           (maxErrorHistory m) false (circuitBreakerTimeout m)
           (lastCircuitBreakerReset m) (systemHealth m))).
Proof.
  unfold check_enter. destruct (isChecking m); [discriminate|].
  intros He. split; [reflexivity|]. revert He.
  destruct (circuitBreakerOpen m).
  - destruct (_ && _); [discriminate|]. intros [= <-]. right. by split.
  - intros [= <-]. left. by split.
Qed.

(** The state a cycle leaves, by cases on how it ended. *)
Lemma check_after_cases base m now later net :
  let r := check base m now later net in
  after r = m \/
  exists m0,
    check_enter m now = Proceed m0 /\
    (after r = set_isChecking false
                 (onCheckFailure base (set_isChecking true m0) later) \/
     exists d,
       after r = set_isChecking false
                   (fst (onCheckSuccess base (set_isChecking true m0) d)) \/
       after r = set_isChecking false
                   (onCheckFailure base
                      (fst (onCheckSuccess base (set_isChecking true m0) d))
                      later)).
Proof.
  cbn zeta. unfold check.
  destruct (check_enter m now) as [| |m0] eqn:He; [by left | by left|].
  right. exists m0. split; [reflexivity|].
  destruct (check_body_spec base m0 net later)
    as (_ & _ & _ & n & _ & _ & _ & Hlast).
  destruct (net (n - 1)%nat) as [| |[d|]].
  - left. tauto.
  - left. tauto.
  - right. exists d. destruct (updateUI_throws d); tauto.
  - left. tauto.
Qed.

Lemma onCheckSuccess_fields base m d :
  let m' := fst (onCheckSuccess base m d) in
  consecutiveFailures m' = 0%nat /\ circuitBreakerOpen m' = false /\
  maxConsecutiveFailures m' = maxConsecutiveFailures m /\
  maxErrorHistory m' = maxErrorHistory m /\
  (errorHistory m' <= errorHistory m)%nat /\
  lastCircuitBreakerReset m' = lastCircuitBreakerReset m.
Proof.
  cbn zeta. unfold onCheckSuccess.
  destruct (updateUI_throws d); cbn [fst]; [repeat split; cbn; lia|].
  destruct (match overall_status d with
            | Some _ => _ | None => _ end); repeat split; cbn; lia.
Qed.

(** X1.  The error history never holds more than [maxErrorHistory]
    entries: whatever the cycles and their outcomes, a manager that starts
    within the limit stays within it. *)
Theorem error_history_bounded (base : Q) (cs : list Cycle)
    (m : HealthCheckManager) :
  (errorHistory m <= maxErrorHistory m)%nat ->
  let m' := run_cycles base m cs in
  maxErrorHistory m' = maxErrorHistory m /\
  (errorHistory m' <= maxErrorHistory m)%nat.
Proof.
  cbn zeta. revert m.
  induction cs as [|[[now later] net] cs IH]; intros m Hm; [by split|].
  cbn [run_cycles].
  assert (Hfail : forall x t,
             (errorHistory x <= maxErrorHistory x)%nat ->
             (errorHistory (onCheckFailure base x t)
              <= maxErrorHistory x)%nat).
  { intros x t Hx. cbn [onCheckFailure errorHistory].
    destruct (Nat.ltb_spec (maxErrorHistory x) (S (errorHistory x)));
      cbn; lia. }
  assert (Hstep : maxErrorHistory (after (check base m now later net))
                  = maxErrorHistory m /\
                  (errorHistory (after (check base m now later net))
                   <= maxErrorHistory m)%nat).
  { destruct (check_after_cases base m now later net)
      as [->|(m0 & He & Hr)]; [by split|].
    assert (Hm0 : errorHistory m0 = errorHistory m
                  /\ maxErrorHistory m0 = maxErrorHistory m).
    { apply check_enter_cases in He as (_ & [[_ ->]|[_ ->]]); by split. }
    destruct Hm0 as [H1 H2].
    set (x := set_isChecking true m0) in *.
    assert (Hx1 : errorHistory x = errorHistory m) by exact H1.
    assert (Hx2 : maxErrorHistory x = maxErrorHistory m) by exact H2.
    destruct (Hr) as [->|(d & [->| ->])].
    - split; [exact Hx2|]. cbn [set_isChecking errorHistory].
      rewrite <- Hx2. apply Hfail. lia.
    - destruct (onCheckSuccess_fields base x d)
        as (_ & _ & _ & Hmax & Hh & _).
      cbn [set_isChecking errorHistory maxErrorHistory].
      split; [congruence | lia].
    - destruct (onCheckSuccess_fields base x d)
        as (_ & _ & _ & Hmax & Hh & _).
      cbn [set_isChecking errorHistory maxErrorHistory].
      split; [exact (eq_trans Hmax Hx2)|].
      rewrite <- Hx2, <- Hmax. apply Hfail. lia. }
  destruct Hstep as [Hmax Hle].
  destruct (IH (after (check base m now later net))) as [A B]; [lia|].
  split; [congruence | lia].
Qed.

Lemma error_history_bounded_witness :
  (errorHistory (run_cycles healthCheckInterval
                   (constructor healthCheckInterval)
                   (five_failures ++ five_failures ++ five_failures))
   <= 10)%nat.
Proof.
  apply (error_history_bounded healthCheckInterval
           (five_failures ++ five_failures ++ five_failures)
           (constructor healthCheckInterval)).
  cbn. lia.
Defined.

Lemma failure_keeps_consistent base x t :
  circuitBreakerOpen x = false ->
  (consecutiveFailures x < maxConsecutiveFailures x)%nat ->
  breaker_consistent (set_isChecking false (onCheckFailure base x t)).
Proof.
  intros Ho Hlt. unfold breaker_consistent.
  cbn [set_isChecking onCheckFailure consecutiveFailures
         maxConsecutiveFailures circuitBreakerOpen lastCircuitBreakerReset].
  rewrite Ho.
  destruct (Nat.leb_spec (maxConsecutiveFailures x)
              (S (consecutiveFailures x))) as [Hle|Hgt].
  - split; [lia|]. split; [split; [lia | reflexivity]|]. by eexists.
  - split; [lia|]. split; [split; [discriminate | lia]|]. discriminate.
Qed.

(** X2.  With a threshold of at least one, the failure counter never
    exceeds [maxConsecutiveFailures], the breaker is open exactly when the
    counter has reached it, and an open breaker always has its opening time
    recorded; this holds after every sequence of cycles. *)
Theorem breaker_stays_consistent (base : Q) (cs : list Cycle)
    (m : HealthCheckManager) :
  (1 <= maxConsecutiveFailures m)%nat ->
  breaker_consistent m ->
  let m' := run_cycles base m cs in
  maxConsecutiveFailures m' = maxConsecutiveFailures m /\
  breaker_consistent m'.
Proof.
  cbn zeta. revert m.
  induction cs as [|[[now later] net] cs IH]; intros m Hmax Hm; [by split|].
  cbn [run_cycles].
  assert (Hstep : maxConsecutiveFailures (after (check base m now later net))
                  = maxConsecutiveFailures m /\
                  breaker_consistent (after (check base m now later net))).
  { destruct (check_after_cases base m now later net)
      as [->|(m0 & He & Hr)]; [by split|].
    assert (Hm0 : circuitBreakerOpen m0 = false /\
                  (consecutiveFailures m0 < maxConsecutiveFailures m0)%nat /\
                  maxConsecutiveFailures m0 = maxConsecutiveFailures m).
    { destruct Hm as (Hle & Hiff & _).
      apply check_enter_cases in He as (_ & [[Ho ->]|[Ho ->]]).
      - split; [exact Ho|]. split; [|reflexivity].
        destruct (Nat.eq_dec (consecutiveFailures m)
                    (maxConsecutiveFailures m)) as [Heq|Hne]; [|lia].
        apply Hiff in Heq. congruence.
      - cbn. split; [reflexivity|]. split; [lia | reflexivity]. }
    destruct Hm0 as (Ho & Hlt & Hsame).
    set (x := set_isChecking true m0) in *.
    destruct Hr as [->|(d & [->| ->])].
    - split; [exact Hsame|]. by apply failure_keeps_consistent.
    - destruct (onCheckSuccess_fields base x d)
        as (Hcf & Hop & Hmx & _ & _ & _).
      split; [exact (eq_trans Hmx Hsame)|].
      unfold breaker_consistent.
      cbn [set_isChecking consecutiveFailures maxConsecutiveFailures
             circuitBreakerOpen lastCircuitBreakerReset].
      rewrite Hcf, Hop, Hmx.
      change (maxConsecutiveFailures x) with (maxConsecutiveFailures m0).
      split; [lia|]. split; [split; [discriminate | lia]|]. discriminate.
    - destruct (onCheckSuccess_fields base x d)
        as (Hcf & Hop & Hmx & _ & _ & _).
      split; [exact (eq_trans Hmx Hsame)|].
      apply failure_keeps_consistent; [exact Hop|].
      rewrite Hcf, Hmx.
      change (maxConsecutiveFailures x) with (maxConsecutiveFailures m0).
      lia. }
  destruct Hstep as [Hsame Hcons].
  destruct (IH (after (check base m now later net))) as [A B];
    [lia | exact Hcons |].
  split; [congruence | exact B].
Qed.

Lemma breaker_stays_consistent_witness :
  breaker_consistent
    (run_cycles healthCheckInterval (constructor healthCheckInterval)
       (five_failures ++ [(800000, 800001, net_up)])).
Proof.
  apply (breaker_stays_consistent healthCheckInterval
           (five_failures ++ [(800000, 800001, net_up)])
           (constructor healthCheckInterval)).
  - cbn. lia.
  - unfold breaker_consistent. cbn.
    split; [lia|]. split; [split; [discriminate | lia]|]. discriminate.
Defined.

(** X3.  Once the cool-down has passed, a cycle probes again, and if that
    probe fails too the breaker does not re-open (for a threshold above
    one): the cycle leaves it closed with a single failure counted, so a
    whole new streak is needed to open it again. *)
Theorem half_open_failure_leaves_closed (base : Q) (m : HealthCheckManager)
    (now later openedAt : Z) (net : nat -> Reply) :
  isChecking m = false ->
  circuitBreakerOpen m = true ->
  lastCircuitBreakerReset m = Some openedAt ->
  circuitBreakerTimeout m <= now - openedAt ->
  all_attempts_fail m net = true ->
  (1 < maxConsecutiveFailures m)%nat ->
  let r := check base m now later net in
  probes (trace r) = S (maxRetries m) /\ outcome r = Failed /\
  circuitBreakerOpen (after r) = false /\
  consecutiveFailures (after r) = 1%nat /\
  lastCircuitBreakerReset (after r) = Some openedAt.
Proof.
  intros Hc Ho Hl Hcool Hall Hmax. cbn zeta.
  set (m0 := mkHCM (isChecking m) (maxRetries m) (retryDelay m) 0
               (maxConsecutiveFailures m) (adaptiveInterval m)
               (errorHistory m) (maxErrorHistory m) false
               (circuitBreakerTimeout m) (lastCircuitBreakerReset m)
               (systemHealth m)).
  assert (Heq : check base m now later net = check base m0 now later net).
  { assert (Hge : (now - default 0 (Some openedAt)
                   <? circuitBreakerTimeout m) = false).
    { apply Z.ltb_ge. exact Hcool. }
    assert (E1 : check_enter m now = Proceed m0).
    { unfold check_enter. subst m0. rewrite Hc, Ho, Hl, Hge, andb_false_r.
      reflexivity. }
    assert (E2 : check_enter m0 now = Proceed m0).
    { unfold check_enter. subst m0. cbn [isChecking circuitBreakerOpen].
      rewrite Hc. reflexivity. }
    unfold check. rewrite E1, E2. reflexivity. }
  rewrite Heq.
  rewrite (check_all_fail base m0 now later net Hc eq_refl Hall).
  cbn [trace outcome after]. split.
  { unfold attempts_trace. apply probes_attempts. }
  split; [reflexivity|].
  cbn [set_isChecking onCheckFailure circuitBreakerOpen consecutiveFailures
         lastCircuitBreakerReset maxConsecutiveFailures m0].
  destruct (Nat.leb_spec (maxConsecutiveFailures m) 1); [lia|].
  repeat split. exact Hl.
Qed.

Lemma half_open_failure_leaves_closed_witness :
  let r := check healthCheckInterval tripped 800000 807500 net_down in
  circuitBreakerOpen tripped = true /\
  circuitBreakerOpen (after r) = false /\
  consecutiveFailures (after r) = 1%nat.
Proof.
  cbn zeta. split; [reflexivity|].
  destruct (half_open_failure_leaves_closed healthCheckInterval tripped
              800000 807500 766000 net_down)
    as (_ & _ & A & B & _);
    [reflexivity | reflexivity | reflexivity | cbn; lia | reflexivity
    | cbn; lia |].
  split; [exact A | exact B].
Defined.

Lemma pow2_pred (a : nat) :
  (1 <= a)%nat -> 2 ^ Z.of_nat a = 2 * 2 ^ (Z.of_nat a - 1).
Proof.
  intros Ha. replace (Z.of_nat a) with (Z.succ (Z.of_nat a - 1)) at 1 by lia.
  rewrite Z.pow_succ_r by lia. reflexivity.
Qed.

Lemma waits_app t1 t2 : waits (t1 ++ t2) = waits t1 + waits t2.
Proof.
  induction t1 as [|[ms|k] t1 IH]; cbn [app waits]; lia.
Qed.

Lemma waits_attempts m n : forall a,
  (1 <= a)%nat ->
  waits (concat (map (attempt_events m) (seq a n)))
  = retryDelay m * (2 ^ (Z.of_nat (a + n) - 1) - 2 ^ (Z.of_nat a - 1)).
Proof.
  induction n as [|n IH]; intros a Ha.
  - cbn [seq map concat waits]. rewrite Nat.add_0_r. lia.
  - cbn [seq map concat]. rewrite waits_app, IH by lia.
    unfold attempt_events.
    destruct (Nat.ltb_spec 0 a) as [_|Hbad]; [|lia].
    cbn [waits]. unfold backoff.
    replace (Z.of_nat (S a) - 1) with (Z.of_nat a) by lia.
    replace (S a + n)%nat with (a + S n)%nat by lia.
    rewrite (pow2_pred a Ha). lia.
Qed.

Lemma waits_attempts_trace m n :
  (1 <= n)%nat ->
  waits (attempts_trace m n) = retryDelay m * (2 ^ (Z.of_nat n - 1) - 1).
Proof.
  intros Hn. destruct n as [|n]; [lia|].
  unfold attempts_trace. cbn [seq map concat].
  rewrite waits_app. change (waits (attempt_events m 0)) with 0.
  rewrite (waits_attempts m n 1) by lia.
  replace (Z.of_nat (1 + n) - 1) with (Z.of_nat (S n) - 1) by lia.
  change (2 ^ (Z.of_nat 1 - 1)) with 1. lia.
Qed.

(** X4.  The waits between the attempts of one cycle add up to at most
    [retryDelay * (2^maxRetries - 1)] milliseconds (7000 with the
    constructor's values), and to exactly that when every attempt fails. *)
Theorem cycle_wait_budget (base : Q) (m : HealthCheckManager)
    (now later : Z) (net : nat -> Reply) :
  0 <= retryDelay m ->
  let r := check base m now later net in
  0 <= waits (trace r) /\
  waits (trace r) <= retryDelay m * (2 ^ Z.of_nat (maxRetries m) - 1) /\
  (outcome r <> NotRun -> all_attempts_fail m net = true ->
   waits (trace r) = retryDelay m * (2 ^ Z.of_nat (maxRetries m) - 1)).
Proof.
  intros Hrd. cbn zeta.
  assert (Hpow : 1 <= 2 ^ Z.of_nat (maxRetries m)).
  { apply (Z.pow_le_mono_r 2 0); lia. }
  unfold check. destruct (check_enter m now) as [| |m0] eqn:He.
  1,2: cbn [trace outcome waits]; repeat split; try nia; congruence.
  apply check_enter_Proceed in He as (_ & Hmr & Hrdm & _).
  destruct (check_body_spec base m0 net later)
    as (_ & _ & _ & n & Hn & Htr & Hprev & Hlast).
  rewrite Htr, Hmr in *.
  rewrite waits_attempts_trace by lia. rewrite Hrdm.
  assert (Hmono : 1 <= 2 ^ (Z.of_nat n - 1)
                  /\ 2 ^ (Z.of_nat n - 1) <= 2 ^ Z.of_nat (maxRetries m)).
  { split; [apply (Z.pow_le_mono_r 2 0); lia
           | apply Z.pow_le_mono_r; lia]. }
  split; [nia|]. split; [nia|].
  intros _ Hall. rewrite all_attempts_fail_spec in Hall.
  assert (Hbad : reply_ok (net (n - 1)%nat) = false) by (apply Hall; lia).
  destruct (net (n - 1)%nat) as [| |b]; try discriminate;
    destruct Hlast as (-> & _);
    replace (Z.of_nat (S (maxRetries m)) - 1)
      with (Z.of_nat (maxRetries m)) by lia; reflexivity.
Qed.

Lemma cycle_wait_budget_witness :
  waits (trace (check healthCheckInterval (constructor healthCheckInterval)
                  1000 8500 net_down)) = 7000.
Proof.
  destruct (cycle_wait_budget healthCheckInterval
              (constructor healthCheckInterval) 1000 8500 net_down)
    as (_ & _ & H); [cbn; lia|].
  rewrite H; [reflexivity | discriminate | reflexivity].
Defined.




End HealthMore.

(* ===================================================================== *)
(** * Further properties of the service controller                        *)
(* ===================================================================== *)

Section ServiceMore.
Import Service.

Lemma cards_update_same name st s :
  is_Some (cards s !! name) ->
  cards (updateServiceStatus name st s) !! name = Some st.
Proof.
  intros [x Hx]. unfold updateServiceStatus. rewrite Hx. cbn [cards].
  apply lookup_insert_eq.
Qed.

Lemma cards_update_other name n st s :
  n <> name ->
  cards (updateServiceStatus name st s) !! n = cards s !! n.
Proof.
  intros Hne. unfold updateServiceStatus.
  destruct (cards s !! name); [|reflexivity]. cbn [cards].
  apply lookup_insert_ne. congruence.
Qed.

Lemma cards_update_is_Some name n st s :
  is_Some (cards (updateServiceStatus name st s) !! n)
  <-> is_Some (cards s !! n).
Proof.
  destruct (decide (n = name)) as [->|Hne].
  - unfold updateServiceStatus.
    destruct (cards s !! name) as [x|] eqn:Hx; [|rewrite ?Hx; done].
    cbn [cards]. rewrite lookup_insert_eq. split; by eexists.
  - by rewrite cards_update_other.
Qed.



















Lemma updateAll_other data s n :
  ~ In n (map fst data) ->
  cards (updateAllServiceStatus data s) !! n = cards s !! n.
Proof.
  revert s. induction data as [|[k v] rest IH]; intros s Hn; [reflexivity|].
  unfold updateAllServiceStatus in *. cbn [fold_left fst snd].
  cbn [map fst In] in Hn.
  rewrite IH by tauto. apply cards_update_other. intros ->. tauto.
Qed.

Lemma updateAll_same data s n st :
  List.NoDup (map fst data) -> In (n, st) data ->
  is_Some (cards s !! n) ->
  cards (updateAllServiceStatus data s) !! n = Some st.
Proof.
  revert s. induction data as [|[k v] rest IH]; intros s Hnd Hin Hs;
    [destruct Hin|].
  cbn [map fst] in Hnd. apply List.NoDup_cons_iff in Hnd as [Hk Hnd].
  change (updateAllServiceStatus ((k, v) :: rest) s)
    with (updateAllServiceStatus rest (updateServiceStatus k v s)).
  destruct Hin as [E|Hin].
  - injection E as -> ->.
    rewrite updateAll_other by exact Hk. by apply cards_update_same.
  - apply IH; [exact Hnd | exact Hin |]. by apply cards_update_is_Some.
Qed.

Lemma markAllUnknown_eq s :
  markAllUnknown s
  = updateAllServiceStatus (map (fun n => (n, Unknown)) managed_services) s.
Proof. reflexivity. Qed.



(** X10.  When the status request fails, the body is not JSON, or the
    answer reports success without a [services] object, each of the four
    managed services that has a card is shown as unknown and every other
    card is untouched; an answer that reports failure changes nothing. *)
Theorem checkAllServices_failed (reply : AllStatusReply)
    (s : ServiceManager) :
  let s' := checkAllServices reply s in
  (reply = AllRejected \/ reply = AllAnswer true None ->
   (forall n, In n managed_services -> is_Some (cards s !! n) ->
              cards s' !! n = Some Unknown) /\
   (forall n, ~ In n managed_services -> cards s' !! n = cards s !! n)) /\
  (forall data, reply = AllAnswer false data -> s' = s).
Proof.
  cbn zeta. split.
  - intros H.
    assert (E : checkAllServices reply s = markAllUnknown s)
      by (destruct H as [-> | ->]; reflexivity).
    rewrite E, markAllUnknown_eq. split.
    + intros n Hin Hs. apply updateAll_same; [| |exact Hs].
      * cbn. repeat constructor; cbn; intuition discriminate.
      * apply List.in_map_iff. by exists n.
    + intros n Hn. apply updateAll_other.
      rewrite List.map_map. cbn [fst]. by rewrite List.map_id.
  - intros data ->. reflexivity.
Qed.

Lemma checkAllServices_failed_witness :
  let s' := checkAllServices AllRejected two_cards in
  cards s' !! "censor" = Some Unknown /\
  cards s' !! "writing" = Some Unknown.
Proof.
  cbn zeta.
  destruct (checkAllServices_failed AllRejected two_cards) as [A _].
  destruct A as [A _]; [by left|].
  split; apply A; cbn; try tauto; by eexists.
Defined.

End ServiceMore.

(* ===================================================================== *)
(** * Properties of the response cache                                    *)
(* ===================================================================== *)

Section CacheMore.
Context {V : Type}.
Implicit Types (c : Cache.CacheManager V) (m : list (string * Cache.Item V)).

Lemma delete_filter {A} k (m : list (string * A)) :
  JsMap.delete k m = List.filter (fun p => negb (String.eqb (fst p) k)) m.
Proof.
  induction m as [|[k0 v] m IH]; [reflexivity|].
  cbn. destruct (String.eqb k0 k); cbn; congruence.
Qed.

Lemma filter_twice {A} (P Q : A -> bool) (l : list A) :
  List.filter P (List.filter Q l) = List.filter (fun x => Q x && P x) l.
Proof.
  induction l as [|x l IH]; [reflexivity|].
  cbn. destruct (Q x); cbn; [destruct (P x)|]; congruence.
Qed.

Lemma filter_sublist_of {A} (P : A -> bool) (l : list A) :
  List.filter P l `sublist_of` l.
Proof.
  induction l as [|x l IH]; [constructor|].
  cbn. destruct (P x); by constructor.
Qed.

Lemma keys_delete_NoDup {A} k (m : list (string * A)) :
  NoDup (JsMap.keys m) -> NoDup (JsMap.keys (JsMap.delete k m)).
Proof.
  intros H. eapply sublist_NoDup; [exact H|].
  apply (fmap_sublist _), delete_sublist.
Qed.

Lemma length_delete_le {A} k (m : list (string * A)) :
  (length (JsMap.delete k m) <= length m)%nat.
Proof. apply sublist_length, delete_sublist. Qed.

Lemma keys_set_NoDup {A} k (v : A) (m : list (string * A)) :
  NoDup (JsMap.keys m) -> NoDup (JsMap.keys (JsMap.set k v m)).
Proof.
  intros H. unfold JsMap.set, JsMap.has.
  destruct (JsMap.get k m) eqn:Hg.
  - by rewrite keys_update.
  - unfold JsMap.keys. rewrite map_app. cbn [map fst].
    apply NoDup_app. split; [exact H|]. split.
    + intros x Hx Hx'. apply list_elem_of_singleton in Hx'. subst x.
      by apply get_None_not_in_keys in Hg.
    + apply NoDup_singleton.
Qed.

Lemma length_set {A} k (v : A) (m : list (string * A)) :
  length (JsMap.set k v m)
  = if JsMap.has k m then length m else S (length m).
Proof.
  unfold JsMap.set. destruct (JsMap.has k m).
  - apply length_update.
  - rewrite length_app. cbn. lia.
Qed.

Lemma set_bounded key v t now c :
  (1 <= Cache.maxSize c)%nat -> Cache.bounded c ->
  Cache.bounded (Cache.set key v t now c).
Proof.
  intros Hmax [Hnd Hsz]. unfold Cache.bounded, Cache.set, JsMap.size in *.
  destruct (Nat.leb_spec (Cache.maxSize c) (length (Cache.cache c)))
    as [Hfull|Hroom].
  - destruct (Cache.cache c) as [|[k0 i0] rest] eqn:Hc;
      [cbn in Hfull; lia|].
    cbn [JsMap.keys map fst Cache.with_cache Cache.cache Cache.maxSize].
    split.
    + apply keys_set_NoDup, keys_delete_NoDup. exact Hnd.
    + rewrite length_set.
      assert (length (JsMap.delete k0 ((k0, i0) :: rest)) <= length rest)%nat.
      { cbn [JsMap.delete]. rewrite String.eqb_refl. apply length_delete_le. }
      cbn [length] in Hsz.
      destruct (JsMap.has key _); lia.
  - cbn [Cache.with_cache Cache.cache Cache.maxSize]. split.
    + by apply keys_set_NoDup.
    + rewrite length_set. destruct (JsMap.has key _); lia.
Qed.

Lemma get_bounded key now c :
  Cache.bounded c -> Cache.bounded (fst (Cache.get key now c)).
Proof.
  intros [Hnd Hsz]. unfold Cache.get.
  destruct (JsMap.get key (Cache.cache c)) as [item|]; [|by split].
  destruct (now >? Cache.expiry item); [|by split].
  split; cbn.
  - by apply keys_delete_NoDup.
  - unfold JsMap.size in *. pose proof (length_delete_le key (Cache.cache c)).
    lia.
Qed.

Lemma cleanup_fold now (l acc : list (string * Cache.Item V)) :
  fold_left
    (fun a p => if now >? Cache.expiry (snd p) then JsMap.delete (fst p) a
                else a) l acc
  = List.filter
      (fun q => negb (existsb
                        (fun p => (now >? Cache.expiry (snd p))
                                  && String.eqb (fst q) (fst p)) l))
      acc.
Proof.
  revert acc. induction l as [|p l IH]; intros acc; cbn [fold_left existsb].
  - change (acc = List.filter (fun _ => true) acc).
    induction acc as [|x acc IHa]; [reflexivity|].
    cbn [List.filter]. by f_equal.
  - rewrite IH. destruct (now >? Cache.expiry (snd p)); cbn [andb orb].
    + rewrite delete_filter, filter_twice. apply List.filter_ext.
      intros q. by rewrite negb_orb.
    + reflexivity.
Qed.

Lemma cleanup_fresh now c :
  NoDup (JsMap.keys (Cache.cache c)) ->
  Cache.cache (Cache.cleanup now c) = Cache.fresh now (Cache.cache c).
Proof.
  intros Hnd. unfold Cache.cleanup, Cache.fresh.
  cbn [Cache.with_cache Cache.cache].
  rewrite cleanup_fold. apply List.filter_ext_in. intros [k i] Hin.
  f_equal. cbn [fst snd].
  apply list_elem_of_In in Hin.
  destruct (now >? Cache.expiry i) eqn:He.
  - apply existsb_exists. exists (k, i). split.
    + by apply list_elem_of_In.
    + cbn. by rewrite He, String.eqb_refl.
  - apply not_true_is_false. intros Hex.
    apply existsb_exists in Hex as ([k' i'] & Hin' & Hp). cbn in Hp.
    apply andb_true_iff in Hp as [Hexp Hk]. apply String.eqb_eq in Hk.
    subst k'. apply list_elem_of_In in Hin'.
    pose proof (in_get_NoDup _ _ _ Hnd Hin) as G1.
    pose proof (in_get_NoDup _ _ _ Hnd Hin') as G2.
    rewrite G1 in G2. injection G2 as <-. congruence.
Qed.

Lemma get_filter_snd {A} (P : A -> bool) k (m : list (string * A)) :
  NoDup (JsMap.keys m) ->
  JsMap.get k (List.filter (fun p => P (snd p)) m)
  = match JsMap.get k m with
    | Some v => if P v then Some v else None
    | None => None
    end.
Proof.
  induction m as [|[k0 v0] m IH]; [reflexivity|].
  cbn [JsMap.keys map fst]. intros Hnd.
  apply NoDup_cons in Hnd as [Hnotin Hnd].
  cbn [List.filter snd JsMap.get].
  destruct (String.eqb_spec k0 k) as [->|Hne].
  - destruct (P v0) eqn:HP; cbn [JsMap.get].
    + by rewrite String.eqb_refl.
    + rewrite (IH Hnd).
      destruct (JsMap.get k m) eqn:Hg; [|reflexivity].
      exfalso. apply Hnotin. eapply get_Some_in_keys, Hg.
  - destruct (P v0); cbn [JsMap.get].
    + apply String.eqb_neq in Hne. rewrite Hne. by apply IH.
    + by apply IH.
Qed.

Lemma cleanup_bounded now c :
  Cache.bounded c -> Cache.bounded (Cache.cleanup now c).
Proof.
  intros [Hnd Hsz]. unfold Cache.bounded.
  rewrite (cleanup_fresh now c Hnd).
  unfold Cache.fresh, JsMap.size, JsMap.keys in *. split.
  - eapply sublist_NoDup; [exact Hnd|].
    apply (fmap_sublist _), filter_sublist_of.
  - cbn. pose proof (sublist_length _ _
                       (filter_sublist_of
                          (fun p => negb (now >? Cache.expiry (snd p)))
                          (Cache.cache c))). lia.
Qed.

Lemma step_bounded now a c :
  (1 <= Cache.maxSize c)%nat -> Cache.bounded c ->
  Cache.bounded (Cache.step now a c)
  /\ Cache.maxSize (Cache.step now a c) = Cache.maxSize c.
Proof.
  intros Hmax Hb. destruct a as [key v t|key| |]; cbn [Cache.step].
  - split; [by apply set_bounded|].
    unfold Cache.set.
    destruct (_ <=? _)%nat; [destruct (JsMap.keys _)|]; reflexivity.
  - split; [by apply get_bounded|].
    unfold Cache.get. destruct (JsMap.get _ _) as [i|]; [|reflexivity].
    by destruct (now >? Cache.expiry i).
  - split; [|reflexivity]. split; cbn; [constructor | lia].
  - split; [by apply cleanup_bounded | reflexivity].
Qed.

(** X11.  Whatever is stored, read, cleaned up or cleared, and whenever,
    a cache that allows at least one entry never holds more entries than
    [maxSize], and never two under the same key. *)
Theorem cache_stays_bounded (calls : list (Z * Cache.Call V))
    (c : Cache.CacheManager V) :
  (1 <= Cache.maxSize c)%nat -> Cache.bounded c ->
  Cache.bounded (Cache.run calls c)
  /\ Cache.maxSize (Cache.run calls c) = Cache.maxSize c.
Proof.
  revert c. induction calls as [|[now a] rest IH]; intros c Hmax Hb;
    [by split|].
  cbn [Cache.run].
  destruct (step_bounded now a c Hmax Hb) as [Hb' Hm'].
  destruct (IH (Cache.step now a c)) as [A B]; [lia | exact Hb' |].
  split; [exact A | congruence].
Qed.

Lemma lookup_after_set key (v : V) customTtl now c :
  JsMap.get key (Cache.cache (Cache.set key v customTtl now c))
  = Some (Cache.mkItem v (now + Cache.effective_ttl customTtl c)).
Proof.
  unfold Cache.set. cbn [Cache.with_cache Cache.cache]. apply get_set_eq.
Qed.

(** X12.  A value that was stored is read back unchanged as long as the
    clock has not passed its expiry, the time of the [set] plus the
    custom lifetime, or plus the default one when the custom lifetime is
    missing or zero; the read changes nothing.  Once the clock has passed
    the expiry, the read gives [null] and removes the entry. *)
Theorem cache_get_after_set (key : string) (v : V) (customTtl : option Z)
    (now now' : Z) (c : Cache.CacheManager V) :
  let c' := Cache.set key v customTtl now c in
  let lifetime := match customTtl with
                  | Some t => if t =? 0 then Cache.ttl c else t
                  | None => Cache.ttl c
                  end in
  (now' <= now + lifetime -> Cache.get key now' c' = (c', Some v)) /\
  (now + lifetime < now' ->
   snd (Cache.get key now' c') = None /\
   JsMap.get key (Cache.cache (fst (Cache.get key now' c'))) = None).
Proof.
  cbn zeta.
  pose proof (lookup_after_set key v customTtl now c) as Hg.
  unfold Cache.effective_ttl in Hg.
  set (c' := Cache.set key v customTtl now c) in *.
  set (lifetime := match customTtl with
                   | Some t => if t =? 0 then Cache.ttl c else t
                   | None => Cache.ttl c
                   end) in *.
  unfold Cache.get. rewrite Hg. cbn [Cache.expiry Cache.value].
  split; intros H.
  - destruct (Z.gtb_spec now' (now + lifetime)); [lia | reflexivity].
  - destruct (Z.gtb_spec now' (now + lifetime)); [|lia].
    cbn [fst snd Cache.with_cache Cache.cache].
    split; [reflexivity | apply get_delete_eq].
Qed.

(** X13.  Storing into a full cache always drops the oldest entry first,
    also when the key stored is already present: the oldest entry is gone
    unless it is the one being stored, in which case it moves to the end;
    a key that was present elsewhere is overwritten in place and the cache
    ends one entry short of full. *)
Theorem cache_full_set_evicts_oldest (key k0 : string) (v : V)
    (i0 : Cache.Item V) (rest : list (string * Cache.Item V))
    (customTtl : option Z) (now : Z) (c : Cache.CacheManager V) :
  Cache.cache c = (k0, i0) :: rest ->
  NoDup (JsMap.keys (Cache.cache c)) ->
  JsMap.size (Cache.cache c) = Cache.maxSize c ->
  let c' := Cache.set key v customTtl now c in
  let item := Cache.mkItem v (now + Cache.effective_ttl customTtl c) in
  (key <> k0 -> JsMap.get k0 (Cache.cache c') = None) /\
  (key = k0 -> Cache.cache c' = rest ++ [(key, item)]) /\
  (key ∈ JsMap.keys rest ->
   S (JsMap.size (Cache.cache c')) = Cache.maxSize c) /\
  (key ∉ JsMap.keys rest ->
   JsMap.size (Cache.cache c') = Cache.maxSize c).
Proof.
  intros Hc Hnd Hsz. cbn zeta. unfold Cache.set, JsMap.size in *.
  rewrite <- Hsz, Nat.leb_refl. rewrite Hc in *.
  cbn [JsMap.keys map fst] in *.
  apply NoDup_cons in Hnd as [Hk0 Hnd].
  assert (Hd : JsMap.delete k0 ((k0, i0) :: rest) = rest).
  { cbn [JsMap.delete]. rewrite String.eqb_refl, delete_filter.
    rewrite <- (List.filter_ext_in (fun _ => true)).
    - clear. induction rest as [|x l IH]; [reflexivity|]. cbn. congruence.
    - intros [k i] Hin. cbn [fst]. symmetry. apply negb_true_iff.
      apply String.eqb_neq. intros ->. apply Hk0.
      apply list_elem_of_In in Hin.
      by apply (list_elem_of_fmap_2 fst) in Hin. }
  cbn [Cache.with_cache Cache.cache Cache.maxSize Cache.ttl].
  rewrite Hd.
  assert (Hnone : JsMap.get k0 rest = None).
  { destruct (JsMap.get k0 rest) eqn:Hg; [|reflexivity].
    exfalso. apply Hk0. eapply get_Some_in_keys, Hg. }
  split; [|split; [|split]].
  - intros Hne. unfold JsMap.set, JsMap.has.
    destruct (JsMap.get key rest) eqn:Hg.
    + rewrite get_update. apply String.eqb_neq in Hne. by rewrite Hne.
    + rewrite get_app, Hnone. cbn.
      destruct (String.eqb_spec key k0); [congruence | reflexivity].
  - intros ->. unfold JsMap.set, JsMap.has. by rewrite Hnone.
  - intros Hin. rewrite length_set. unfold JsMap.has.
    destruct (in_keys_get _ _ Hin) as [x ->]. reflexivity.
  - intros Hnin. rewrite length_set. unfold JsMap.has.
    destruct (JsMap.get key rest) eqn:Hg; [|reflexivity].
    exfalso. apply Hnin. eapply get_Some_in_keys, Hg.
Qed.

(** X14.  [cleanup] leaves exactly the entries that have not expired, in
    their order, and is invisible to a read at the same instant: every key
    reads the same before and after it. *)
Theorem cache_cleanup_keeps_fresh (now : Z) (c : Cache.CacheManager V) :
  NoDup (JsMap.keys (Cache.cache c)) ->
  Cache.cache (Cache.cleanup now c) = Cache.fresh now (Cache.cache c) /\
  forall key,
    snd (Cache.get key now (Cache.cleanup now c))
    = snd (Cache.get key now c).
Proof.
  intros Hnd. split; [by apply cleanup_fresh|].
  intros key. unfold Cache.get. rewrite (cleanup_fresh now c Hnd).
  unfold Cache.fresh.
  rewrite (get_filter_snd (fun i => negb (now >? Cache.expiry i)) key _ Hnd).
  destruct (JsMap.get key (Cache.cache c)) as [i|]; [|reflexivity].
  destruct (now >? Cache.expiry i) eqn:He; cbn [negb]; [reflexivity|].
  rewrite He. reflexivity.
Qed.

End CacheMore.

Lemma cache_stays_bounded_witness :
  Cache.bounded
    (Cache.run [ (10, Cache.CallSet "c" 3%nat None);
                 (700, Cache.CallCleanup);
                 (710, Cache.CallSet "d" 4%nat (Some 5)) ] Cache.small).
Proof.
  apply (cache_stays_bounded _ Cache.small).
  - cbn. lia.
  - split; cbn; [|lia].
    repeat constructor; rewrite ?elem_of_cons, ?elem_of_nil;
      intuition discriminate.
Defined.

Lemma cache_get_after_set_witness :
  Cache.get "c" 110 (Cache.set "c" 3%nat (Some 0) 10 Cache.small)
  = (Cache.set "c" 3%nat (Some 0) 10 Cache.small, Some 3%nat).
Proof.
  destruct (cache_get_after_set "c" 3%nat (Some 0) 10 110 Cache.small)
    as [A _].
  apply A. cbn. lia.
Defined.

Lemma cache_full_set_evicts_oldest_witness :
  S (JsMap.size (Cache.cache (Cache.set "b" 7%nat None 10 Cache.small)))
  = Cache.maxSize Cache.small.
Proof.
  assert (Hnd : NoDup (JsMap.keys (Cache.cache Cache.small))).
  { cbn. repeat constructor; rewrite ?elem_of_cons, ?elem_of_nil;
      intuition discriminate. }
  destruct (cache_full_set_evicts_oldest "b" "a" 7%nat _ _ None 10
              Cache.small eq_refl Hnd eq_refl) as (_ & _ & A & _).
  apply A. cbn. apply list_elem_of_here.
Defined.

Lemma cache_cleanup_keeps_fresh_witness :
  Cache.cache (Cache.cleanup 100 Cache.small)
  = [("b", Cache.mkItem 2%nat 500)].
Proof.
  assert (Hnd : NoDup (JsMap.keys (Cache.cache Cache.small))).
  { cbn. repeat constructor; rewrite ?elem_of_cons, ?elem_of_nil;
      intuition discriminate. }
  destruct (cache_cleanup_keeps_fresh 100 Cache.small Hnd) as [A _].
  rewrite A. reflexivity.
Defined.

(* ===================================================================== *)
(** * Properties of [PortalUtils]                                         *)
(* ===================================================================== *)

Section RequestMore.
Context {V : Type} (truthy : V -> bool).
Import PortalUtils.

Lemma is_get_not_post method : is_get method = true -> not_post method = true.
Proof.
  destruct method as [m|]; [|reflexivity]. cbn.
  intros H. apply orb_true_iff in H as [H|H]; apply String.eqb_eq in H;
    subst m; reflexivity.
Qed.

Lemma ttl_get key now (c : Cache.CacheManager V) :
  Cache.ttl (fst (Cache.get key now c)) = Cache.ttl c.
Proof.
  unfold Cache.get. destruct (JsMap.get key (Cache.cache c)) as [i|];
    [|reflexivity].
  by destruct (now >? Cache.expiry i).
Qed.

(** The cache after a request that went to the network and stored the
    body. *)
Lemma cache_after_fetch url optionsJson method now later (d : V) c :
  is_get method = true ->
  fetched (request truthy true url optionsJson method now later
             (FetchOk (Some d)) c) = true ->
  cache_after (request truthy true url optionsJson method now later
                 (FetchOk (Some d)) c)
  = Cache.set (cacheKey url optionsJson) d None later
      (fst (Cache.get (cacheKey url optionsJson) now c)).
Proof.
  intros Hget. unfold request.
  rewrite (is_get_not_post _ Hget). cbn [andb].
  destruct (Cache.get (cacheKey url optionsJson) now c) as [c1 [d0|]];
    cbn [fst].
  - destruct (truthy d0); [discriminate|]. intros _.
    unfold request_fetch. rewrite Hget. reflexivity.
  - intros _. unfold request_fetch. rewrite Hget. reflexivity.
Qed.

(** A request that finds a fresh truthy entry. *)
Lemma request_hit url optionsJson method now later reply (d : V) e c :
  not_post method = true -> truthy d = true ->
  JsMap.get (cacheKey url optionsJson) (Cache.cache c)
  = Some (Cache.mkItem d e) ->
  now <= e ->
  request truthy true url optionsJson method now later reply c
  = mkOutcome c (FromCache d) false.
Proof.
  intros Hnp Ht Hg Hle. unfold request. rewrite Hnp. cbn [andb].
  unfold Cache.get. rewrite Hg. cbn [Cache.expiry Cache.value].
  destruct (Z.gtb_spec now e); [lia|]. by rewrite Ht.
Qed.

(** X15.  With caching on, when a request without a method, or with
    [GET], went to the network and got a response with a parsable body
    that is truthy, the same request made again before the default
    lifetime of the cache has passed is answered from the cache with that
    body: [fetch] is not called and the cache does not change.  Made after
    the lifetime has passed, it goes to the network again. *)
Theorem request_served_from_cache (url optionsJson : string)
    (method : option string) (now later now2 later2 : Z) (d : V)
    (reply2 : FetchReply V) (c : Cache.CacheManager V) :
  is_get method = true ->
  truthy d = true ->
  let r1 := request truthy true url optionsJson method now later
              (FetchOk (Some d)) c in
  let r2 := request truthy true url optionsJson method now2 later2 reply2
              (cache_after r1) in
  fetched r1 = true ->
  (now2 <= later + Cache.ttl c ->
   result r2 = FromCache d /\ fetched r2 = false /\
   cache_after r2 = cache_after r1) /\
  (later + Cache.ttl c < now2 -> fetched r2 = true).
Proof.
  intros Hget Ht. cbn zeta. intros Hf.
  rewrite (cache_after_fetch _ _ _ _ _ _ _ Hget Hf). clear Hf.
  set (key := cacheKey url optionsJson).
  set (c1 := fst (Cache.get key now c)).
  assert (Httl : Cache.ttl c1 = Cache.ttl c) by apply ttl_get.
  pose proof (lookup_after_set key d None later c1) as Hg.
  cbn [Cache.effective_ttl] in Hg. rewrite Httl in Hg.
  split; intros H.
  - rewrite (request_hit _ _ _ _ _ _ d _ _ (is_get_not_post _ Hget) Ht Hg H).
    by repeat split.
  - unfold request. fold key. rewrite (is_get_not_post _ Hget).
    cbn [andb]. unfold Cache.get. rewrite Hg.
    cbn [Cache.expiry Cache.value].
    destruct (Z.gtb_spec now2 (later + Cache.ttl c)); [|lia].
    unfold request_fetch. by destruct reply2 as [a| |b].
Qed.

End RequestMore.

Lemma request_served_from_cache_witness :
  let r1 := PortalUtils.request (fun n : nat => negb (n =? 0)%nat) true
              "/health" "{}" None 0 5 (PortalUtils.FetchOk (Some 7%nat))
              Cache.initial in
  PortalUtils.result
    (PortalUtils.request (fun n : nat => negb (n =? 0)%nat) true
       "/health" "{}" None 1000 1005 PortalUtils.FetchNotOk
       (PortalUtils.cache_after r1))
  = PortalUtils.FromCache 7%nat.
Proof.
  cbn zeta.
  destruct (request_served_from_cache (fun n : nat => negb (n =? 0)%nat)
              "/health" "{}" None 0 5 1000 1005 7%nat
              PortalUtils.FetchNotOk Cache.initial eq_refl eq_refl eq_refl)
    as [A _].
  apply A. cbn. lia.
Defined.

Section ProbeMore.
Import Health PortalUtils Probe.



End ProbeMore.

Section NotifyMore.
Import PortalUtils.








End NotifyMore.

(* ===================================================================== *)
(** * The system guide                                                    *)
(* ===================================================================== *)

Section GuideMore.
Import Guide.



End GuideMore.

(* ===================================================================== *)
(** * The performance metrics                                             *)
(* ===================================================================== *)

Section MetricsMore.
Context {V : Type}.
Import Metrics.

Lemma Forall_update {A} (P : string * A -> Prop) k g
    (m : list (string * A)) :
  (forall v, P (k, v) -> P (k, g v)) ->
  Forall P m -> Forall P (JsMap.update k g m).
Proof.
  intros Hg. induction m as [|[k0 v] m IH]; intros H; [constructor|].
  apply Forall_cons in H as [H0 H]. cbn [JsMap.update].
  destruct (String.eqb_spec k0 k) as [->|Hne].
  - apply Forall_cons. split; [by apply Hg | exact H].
  - apply Forall_cons. split; [exact H0 | by apply IH].
Qed.

Lemma Forall_set {A} (P : string * A -> Prop) k v
    (m : list (string * A)) :
  P (k, v) -> Forall P m -> Forall P (JsMap.set k v m).
Proof.
  intros Hv H. unfold JsMap.set. destruct (JsMap.has k m).
  - apply Forall_update; [intros _ _; exact Hv | exact H].
  - apply Forall_app. split; [exact H | by apply Forall_singleton].
Qed.

Lemma last_ten_length {A} (l : list A) : (length (last_ten l) <= 10)%nat.
Proof.
  unfold last_ten. destruct (Nat.ltb_spec 10 (length l)); [|lia].
  rewrite length_drop. lia.
Qed.

Lemma last_ten_last {A} (l : list A) x : last (last_ten (l ++ [x])) = Some x.
Proof.
  unfold last_ten. destruct (Nat.ltb_spec 10 (length (l ++ [x]))).
  - rewrite last_lookup, length_drop, lookup_drop.
    rewrite length_app in *. cbn [length] in *.
    replace (length l + 1 - 10 + Init.Nat.pred (length l + 1
                                                  - (length l + 1 - 10)))%nat
      with (length l) by lia.
    rewrite lookup_app_r by lia. by rewrite Nat.sub_diag.
  - apply last_snoc.
Qed.

Lemma record_capped tabId metric (v : V) now pm :
  capped pm -> capped (fst (recordPerformanceMetric tabId metric v now pm)).
Proof.
  intros H. unfold recordPerformanceMetric.
  set (pm1 := if JsMap.has tabId pm then pm else JsMap.set tabId [] pm).
  assert (H1 : capped pm1).
  { subst pm1. destruct (JsMap.has tabId pm); [exact H|].
    apply Forall_set; [constructor | exact H]. }
  assert (Hstore : forall vals,
             capped (JsMap.update tabId
                       (JsMap.set metric
                          (last_ten (vals ++ [mkSample v now]))) pm1)).
  { intros vals. apply Forall_update; [|exact H1].
    intros ms Hms. cbn [snd] in *.
    apply Forall_set; [apply last_ten_length | exact Hms]. }
  destruct (JsMap.get tabId pm1) as [metrics|]; [|exact H1].
  destruct (JsMap.get metric metrics) as [vals|]; [apply Hstore|].
  destruct (existsb _ _); [exact H1 | apply Hstore].
Qed.

Lemma step_capped now (a : Call V) pm : capped pm -> capped (step now a pm).
Proof.
  intros H. destruct a as [tabId metric v| |tabId]; cbn [step].
  - by apply record_capped.
  - unfold cleanupPerformanceMetrics, JsMap.map_values, capped in *.
    apply Forall_fmap. eapply Forall_impl; [exact H|].
    intros [k ms] Hms. cbn [snd fst] in *.
    apply Forall_fmap. eapply Forall_impl; [exact Hms|].
    intros [metric vals] Hv. cbn [snd fst] in *.
    pose proof (sublist_length _ _
                  (filter_sublist_of
                     (fun item => timestamp item >? now - 300000) vals)).
    unfold compose. cbn [snd fst]. lia.
  - eapply Forall_sublist_of; [apply delete_sublist | exact H].
Qed.

(** X28.  Whatever samples are recorded, cleaned up or deleted, no
    metric of any tab keeps more than ten samples.  A sample recorded
    under a name that the metrics object does not inherit is the newest
    one kept for that metric of that tab; under an inherited name the
    call raises and records nothing. *)
Theorem metrics_keep_last_ten (calls : list (Z * Call V))
    (tabId metric : string) (v : V) (now : Z) :
  let pm := run calls [] in
  let r := recordPerformanceMetric tabId metric v now pm in
  (forall t m vals, samples t m (fst r) = Some vals ->
                    (length vals <= 10)%nat) /\
  (existsb (String.eqb metric) Tabs.object_prototype_names = false ->
   snd r = true /\
   exists vals, samples tabId metric (fst r) = Some vals /\
                last vals = Some (mkSample v now)) /\
  (samples tabId metric pm = None ->
   existsb (String.eqb metric) Tabs.object_prototype_names = true ->
   snd r = false /\ samples tabId metric (fst r) = None).
Proof.
  cbn zeta.
  assert (Hc : capped (run calls ([] : PerformanceMetrics V))).
  { assert (H0 : capped ([] : PerformanceMetrics V)) by constructor.
    revert H0. generalize ([] : PerformanceMetrics V).
    induction calls as [|[n a] calls IH]; intros pm Hpm; [exact Hpm|].
    cbn [run]. by apply IH, step_capped. }
  set (pm := run calls []) in *.
  split; [|split].
  - intros t m vals Hs.
    pose proof (record_capped tabId metric v now pm Hc) as Hc'.
    unfold samples in Hs.
    destruct (JsMap.get t _) as [ms|] eqn:Hg; [|discriminate].
    apply get_Some_in in Hg. apply get_Some_in in Hs.
    unfold capped in Hc'. rewrite Forall_forall in Hc'.
    specialize (Hc' _ Hg). cbn [snd] in Hc'.
    rewrite Forall_forall in Hc'. exact (Hc' _ Hs).
  - intros Hown. unfold recordPerformanceMetric, samples.
    set (pm1 := if JsMap.has tabId pm then pm else JsMap.set tabId [] pm).
    assert (Hg1 : is_Some (JsMap.get tabId pm1)).
    { subst pm1. unfold JsMap.has.
      destruct (JsMap.get tabId pm) eqn:Hg; [by rewrite Hg|].
      rewrite get_set_eq. by eexists. }
    destruct Hg1 as [metrics Hm]. rewrite Hm, Hown.
    destruct (JsMap.get metric metrics) as [vals|]; cbn [fst snd];
      (split; [reflexivity|]); rewrite get_update_eq, Hm;
      cbn [fmap option_fmap option_map]; rewrite get_set_eq;
      eexists; (split; [reflexivity|]); apply last_ten_last.
  - intros Hnone Hinh. unfold recordPerformanceMetric, samples in *.
    unfold JsMap.has.
    destruct (JsMap.get tabId pm) as [metrics|] eqn:Hg.
    + rewrite Hg, Hnone, Hinh. cbn [fst snd]. by rewrite Hg.
    + rewrite get_set_eq. cbn [JsMap.get]. rewrite Hinh. cbn [fst snd].
      by rewrite get_set_eq.
Qed.

End MetricsMore.

Lemma metrics_keep_last_ten_witness :
  let r := Metrics.recordPerformanceMetric "tab-writing-1" "activation"
             12 100
             (Metrics.run
                [ (1, Metrics.Record_ "tab-writing-1" "loadStart" 1) ] [])
  in
  snd r = true /\
  exists vals,
    Metrics.samples "tab-writing-1" "activation" (fst r) = Some vals /\
    last vals = Some (Metrics.mkSample 12 100).
Proof.
  cbn zeta.
  destruct (metrics_keep_last_ten
              [ (1, Metrics.Record_ "tab-writing-1" "loadStart" 1) ]
              "tab-writing-1" "activation" 12 100) as (_ & A & _).
  apply A. reflexivity.
Defined.

(* ===================================================================== *)
(** * Further properties of the tab registry                              *)
(* ===================================================================== *)

Section Projection.
Import Tabs.
Context {A : Type} (f : Tab -> A).

Lemma get_proj k m : JsMap.get k (proj f m) = f <$> JsMap.get k m.
Proof.
  unfold proj. induction m as [|[k0 t] m IH]; [reflexivity|].
  cbn. destruct (String.eqb k0 k); [reflexivity | exact IH].
Qed.

Lemma keys_proj m : JsMap.keys (proj f m) = JsMap.keys m.
Proof. unfold JsMap.keys, proj. rewrite map_map. reflexivity. Qed.

Lemma proj_delete k m : proj f (JsMap.delete k m) = JsMap.delete k (proj f m).
Proof.
  unfold proj. induction m as [|[k0 t] m IH]; [reflexivity|].
  cbn. destruct (String.eqb k0 k); cbn; congruence.
Qed.

Lemma proj_update_gen k g h m :
  (forall t, f (g t) = h (f t)) ->
  proj f (JsMap.update k g m) = JsMap.update k h (proj f m).
Proof.
  intros H. unfold proj. induction m as [|[k0 t] m IH]; [reflexivity|].
  cbn. destruct (String.eqb k0 k); cbn; [by rewrite H | congruence].
Qed.

Lemma proj_map_values_gen g h m :
  (forall t, f (g t) = h (f t)) ->
  proj f (JsMap.map_values g m) = JsMap.map_values h (proj f m).
Proof.
  intros H. unfold proj, JsMap.map_values. rewrite !map_map.
  apply map_ext. intros [k t]. cbn. by rewrite H.
Qed.

Lemma proj_update k g m :
  keeps_on f g -> proj f (JsMap.update k g m) = proj f m.
Proof.
  intros H. unfold proj. induction m as [|[k0 t] m IH]; [reflexivity|].
  cbn. destruct (String.eqb k0 k); cbn; [by rewrite H | congruence].
Qed.

Lemma proj_map_values g m :
  keeps_on f g -> proj f (JsMap.map_values g m) = proj f m.
Proof.
  intros H. unfold proj, JsMap.map_values. rewrite map_map.
  apply map_ext. intros [k t]. cbn. by rewrite H.
Qed.

Lemma proj_set k t m :
  proj f (JsMap.set k t m) = JsMap.set k (f t) (proj f m).
Proof.
  unfold JsMap.set, JsMap.has. rewrite get_proj.
  destruct (JsMap.get k m); cbn [fmap option_fmap option_map].
  - by apply proj_update_gen.
  - unfold proj. rewrite map_app. reflexivity.
Qed.

(** The operations that assign the loading fields only. *)
Section Quiet.
Hypothesis Hstatus : forall st, keeps_on f (set_status st).
Hypothesis HisLoaded : forall b, keeps_on f (set_isLoaded b).
Hypothesis HloadStart : forall v, keeps_on f (set_loadStartTime v).
Hypothesis HloadTime : forall v, keeps_on f (set_loadTime v).

Lemma proj_updateTabStatus k st s :
  proj f (tabs (updateTabStatus k st s)) = proj f (tabs s).
Proof. apply proj_update, Hstatus. Qed.

Lemma proj_loadTabContent k now s :
  proj f (tabs (loadTabContent k now s)) = proj f (tabs s).
Proof.
  unfold loadTabContent. destruct (JsMap.get k (tabs s)); [|reflexivity].
  destruct (_ || _); [reflexivity|]. cbn [with_tabs tabs].
  rewrite proj_update.
  - by rewrite proj_updateTabStatus.
  - intros u. by rewrite HisLoaded, HloadStart.
Qed.

Lemma proj_idleCallback k now s :
  proj f (tabs (idleCallback k now s)) = proj f (tabs s).
Proof.
  unfold idleCallback. destruct (JsSet.has _ _); [|reflexivity].
  apply proj_loadTabContent.
Qed.

Lemma proj_onIframeLoad k now s :
  proj f (tabs (onIframeLoad k now s)) = proj f (tabs s).
Proof.
  unfold onIframeLoad.
  assert (Hp : forall s0, tabs (preloadNextTab s0) = tabs s0).
  { intros s0. unfold preloadNextTab. destruct (lazyLoadQueue s0);
      [reflexivity|]. by destruct (truthy _). }
  rewrite Hp, proj_updateTabStatus. cbn [with_tabs tabs].
  apply proj_update. intros t.
  destruct (loadStartTime t) as [t0|]; [|reflexivity].
  destruct (negb (t0 =? 0)); [|reflexivity].
  by rewrite HloadStart, HloadTime.
Qed.

Lemma proj_onIframeError k s :
  proj f (tabs (onIframeError k s)) = proj f (tabs s).
Proof. apply proj_updateTabStatus. Qed.

Lemma proj_unloadInactiveTab k b s :
  proj f (tabs (unloadInactiveTab k b s)) = proj f (tabs s).
Proof.
  unfold unloadInactiveTab. destruct (JsMap.get k (tabs s)); [|reflexivity].
  destruct (_ || _); [reflexivity|]. destruct b; [|reflexivity].
  rewrite proj_updateTabStatus. cbn [with_tabs tabs].
  apply proj_update, HisLoaded.
Qed.

Lemma proj_refreshCurrentTab b now s :
  proj f (tabs (refreshCurrentTab b now s)) = proj f (tabs s).
Proof.
  unfold refreshCurrentTab. destruct (activeTab s) as [a|]; [|reflexivity].
  destruct (negb (truthy (Some a))); [reflexivity|].
  destruct (JsMap.get a (tabs s)) as [t|]; [|reflexivity].
  destruct (negb (is_system t)); [reflexivity|].
  destruct b; [|reflexivity]. cbn [with_tabs tabs].
  rewrite proj_update by apply HloadStart. apply proj_updateTabStatus.
Qed.

End Quiet.
End Projection.

Section Frames.
Import Tabs.

Local Ltac frame := unfold same_frame; repeat split; reflexivity.

Lemma same_frame_refl s : same_frame s s.
Proof. frame. Qed.

Lemma same_frame_trans s1 s2 s3 :
  same_frame s1 s2 -> same_frame s2 s3 -> same_frame s1 s3.
Proof.
  unfold same_frame. intros (A1 & B1 & C1) (A2 & B2 & C2).
  repeat split; congruence.
Qed.

Lemma same_frame_updateTabStatus k st s :
  same_frame s (updateTabStatus k st s).
Proof. frame. Qed.

Lemma same_frame_loadTabContent k now s :
  same_frame s (loadTabContent k now s).
Proof.
  unfold loadTabContent. destruct (JsMap.get k (tabs s)); [|frame].
  destruct (_ || _); frame.
Qed.

Lemma same_frame_idleCallback k now s : same_frame s (idleCallback k now s).
Proof.
  unfold idleCallback. destruct (JsSet.has _ _); [|frame].
  apply same_frame_loadTabContent.
Qed.

Lemma same_frame_preloadNextTab s : same_frame s (preloadNextTab s).
Proof.
  unfold preloadNextTab. destruct (lazyLoadQueue s); [frame|].
  destruct (truthy _); frame.
Qed.

Lemma same_frame_onIframeLoad k now s : same_frame s (onIframeLoad k now s).
Proof.
  unfold onIframeLoad.
  eapply same_frame_trans; [|apply same_frame_preloadNextTab]. frame.
Qed.

Lemma same_frame_unloadInactiveTab k b s :
  same_frame s (unloadInactiveTab k b s).
Proof.
  unfold unloadInactiveTab. destruct (JsMap.get k (tabs s)); [|frame].
  destruct (_ || _); [frame|]. destruct b; frame.
Qed.

Lemma same_frame_refreshCurrentTab b now s :
  same_frame s (refreshCurrentTab b now s).
Proof.
  unfold refreshCurrentTab. destruct (activeTab s) as [a|] eqn:Ha; [|frame].
  destruct (negb (truthy (Some a))); [frame|].
  destruct (JsMap.get a (tabs s)) as [t|]; [|frame].
  destruct (negb (is_system t)); [frame|].
  destruct b; frame.
Qed.

Lemma activateTab_absent k now s :
  JsMap.get k (tabs s) = None -> activateTab k now s = s.
Proof. intros H. unfold activateTab. by rewrite H. Qed.

(** What [activateTab] does to the frame and to the active marks. *)
Lemma activateTab_frame k now s t :
  JsMap.get k (tabs s) = Some t ->
  activeTab (activateTab k now s) = Some k /\
  closeDialogs (activateTab k now s) = closeDialogs s /\
  stopRequests (activateTab k now s) = stopRequests s /\
  lazyLoadQueue (activateTab k now s)
  = (if negb (isLoaded t) && is_system t
     then JsSet.delete k (lazyLoadQueue s) else lazyLoadQueue s).
Proof.
  intros Hget. unfold activateTab. rewrite Hget.
  destruct (negb (isLoaded t) && is_system t) eqn:Hc;
    [|by repeat split].
  match goal with
  | |- context [loadTabContent k now ?x] => set (s1 := x)
  end.
  destruct (same_frame_loadTabContent k now s1) as (A & B & C).
  cbn [activeTab closeDialogs stopRequests lazyLoadQueue].
  rewrite A, B, C. do 3 (split; [reflexivity|]).
  unfold loadTabContent.
  assert (Hg1 : JsMap.get k (tabs s1)
                = Some (set_active true now (deactivate now t))).
  { subst s1. cbn [tabs]. rewrite get_update_eq, get_map_values, Hget.
    reflexivity. }
  rewrite Hg1.
  apply andb_prop in Hc as [Hnl Hsy]. apply negb_true_iff in Hnl.
  assert (Hgo : negb (is_system (set_active true now (deactivate now t)))
                || isLoaded (set_active true now (deactivate now t))
                = false).
  { unfold is_system, deactivate in *.
    destruct (isActive t); cbn [type isLoaded set_active];
      rewrite Hnl; destruct (type t); try discriminate; reflexivity. }
  rewrite Hgo. reflexivity.
Qed.

Lemma proj_activateTab {A} (f : Tab -> A) k now s :
  (forall st, keeps_on f (set_status st)) ->
  (forall b, keeps_on f (set_isLoaded b)) ->
  (forall v, keeps_on f (set_loadStartTime v)) ->
  (forall v, keeps_on f (set_loadTime v)) ->
  (forall b n, keeps_on f (set_active b n)) ->
  proj f (tabs (activateTab k now s)) = proj f (tabs s).
Proof.
  intros H1 H2 H3 H4 H5. unfold activateTab.
  destruct (JsMap.get k (tabs s)) as [t|]; [|reflexivity].
  cbn [tabs].
  match goal with
  | |- proj f (tabs (if ?c then loadTabContent k now ?s1 else _)) = _ =>
      assert (Hs1 : proj f (tabs s1) = proj f (tabs s));
      [| destruct c; [rewrite proj_loadTabContent by assumption|];
         exact Hs1]
  end.
  cbn [tabs]. rewrite proj_update by apply H5.
  apply proj_map_values. intros u. unfold deactivate.
  destruct (isActive u); [apply H5 | reflexivity].
Qed.

Lemma active_activateTab k now s t :
  JsMap.get k (tabs s) = Some t ->
  proj isActive (tabs (activateTab k now s))
  = JsMap.update k (fun _ => true)
      (JsMap.map_values (fun _ => false) (proj isActive (tabs s))).
Proof.
  intros Hget. unfold activateTab. rewrite Hget. cbn [tabs].
  match goal with
  | |- proj _ (tabs (if ?c then loadTabContent k now ?s1 else _)) = _ =>
      assert (Hs1 : proj isActive (tabs s1)
                    = JsMap.update k (fun _ => true)
                        (JsMap.map_values (fun _ => false)
                           (proj isActive (tabs s))));
      [| destruct c;
         [rewrite proj_loadTabContent by (intros ? ?; reflexivity)|];
         exact Hs1]
  end.
  cbn [tabs].
  rewrite (proj_update_gen isActive k (set_active true now)
             (fun _ => true)) by reflexivity.
  f_equal. apply proj_map_values_gen. intros u. apply isActive_deactivate.
Qed.

Lemma all_false_no_true k (act : list (string * bool)) :
  (k, true) ∉ JsMap.map_values (fun _ => false) act.
Proof.
  unfold JsMap.map_values. intros H.
  apply list_elem_of_fmap in H as ([k0 b] & E & _). discriminate.
Qed.

Lemma consistent_activate k (act : list (string * bool)) :
  consistent (Some k)
    (JsMap.update k (fun _ => true)
       (JsMap.map_values (fun _ => false) act)).
Proof.
  split.
  - intros k'. induction act as [|[k0 b] act IH]; cbn.
    + intros H. by apply elem_of_nil in H.
    + destruct (String.eqb_spec k0 k) as [->|Hne].
      * intros H. apply elem_of_cons in H as [[= ->]|H]; [reflexivity|].
        by apply all_false_no_true in H.
      * intros H. apply elem_of_cons in H as [H|H]; [discriminate|].
        by apply IH.
  - intros k' [= <-]. rewrite get_update_eq.
    destruct (JsMap.get k _); discriminate.
Qed.

Lemma consistent_delete k a (act : list (string * bool)) :
  consistent a act -> consistent a (JsMap.delete k act).
Proof.
  intros [H1 H2]. split.
  - intros k' Hin. apply H1.
    eapply sublist_subseteq; [apply delete_sublist | exact Hin].
  - intros k' Ha. destruct (String.eqb_spec k k') as [->|Hne].
    + by rewrite get_delete_eq.
    + rewrite get_delete_ne by exact Hne. by apply H2.
Qed.

Lemma active_consistent_same s s' :
  proj isActive (tabs s') = proj isActive (tabs s) ->
  activeTab s' = activeTab s ->
  active_consistent s -> active_consistent s'.
Proof. unfold active_consistent. by intros -> ->. Qed.

Lemma active_consistent_activateTab k now s :
  active_consistent s -> active_consistent (activateTab k now s).
Proof.
  intros H. destruct (JsMap.get k (tabs s)) as [t|] eqn:Hget.
  - unfold active_consistent.
    rewrite (active_activateTab k now s t Hget).
    destruct (activateTab_frame k now s t Hget) as [-> _].
    apply consistent_activate.
  - by rewrite activateTab_absent.
Qed.

Lemma active_consistent_activateNextTab now s :
  active_consistent s -> active_consistent (activateNextTab now s).
Proof.
  intros H. rewrite activateNextTab_eq.
  destruct (next_after_close (tabs s)); [|exact H].
  by apply active_consistent_activateTab.
Qed.

Lemma active_consistent_closeTab_finish k now s :
  active_consistent s -> active_consistent (closeTab_finish k now s).
Proof.
  intros H. unfold closeTab_finish.
  set (s1 := mkTM _ _ _ _ _ _ _ _ _ _).
  assert (H1 : active_consistent s1).
  { unfold active_consistent. subst s1. cbn [tabs activeTab].
    rewrite proj_delete. by apply consistent_delete. }
  destruct (activeTab s1) as [a|]; [|exact H1].
  destruct (String.eqb a k); [|exact H1].
  by apply active_consistent_activateNextTab.
Qed.

Lemma active_consistent_closeTab k c now s :
  active_consistent s -> active_consistent (closeTab k c now s).
Proof.
  intros H. unfold closeTab. destruct (JsMap.get k (tabs s)) as [t|];
    [|exact H].
  destruct (negb (isClosable t)); [exact H|].
  destruct (_ && _); [exact H|].
  by apply active_consistent_closeTab_finish.
Qed.

Lemma active_consistent_openTab systems k o now s :
  active_consistent s -> active_consistent (openTab systems k o now s).
Proof.
  intros H. unfold openTab.
  destruct (systems_get systems k) as [cfg|]; [|exact H].
  destruct (findTabBySystem k s) as [t|];
    [by apply active_consistent_activateTab|].
  set (s1 := if (maxTabs s <=? JsMap.size (tabs s))%nat
             then closeOldestInactiveTab now s else s).
  set (tabId := tab_id k (S (tabCounter s1))).
  set (tab := new_tab tabId k cfg o now).
  set (s2 := mkTM (JsMap.set tabId tab (tabs s1)) _ _ _ _ _ _ _ _ _).
  assert (Hg : JsMap.get tabId (tabs s2) = Some tab)
    by (subst s2; cbn [tabs]; apply get_set_eq).
  assert (H3 : active_consistent (activateTab tabId now s2)).
  { unfold active_consistent.
    rewrite (active_activateTab tabId now s2 tab Hg).
    destruct (activateTab_frame tabId now s2 tab Hg) as [-> _].
    apply consistent_activate. }
  set (s3 := activateTab tabId now s2) in *.
  destruct (wants_immediate o).
  - eapply active_consistent_same; [| |exact H3].
    + cbn [tabs]. apply proj_loadTabContent; intros ? ?; reflexivity.
    + cbn [activeTab]. apply same_frame_loadTabContent.
  - exact H3.
Qed.

Lemma active_consistent_step systems now a s :
  active_consistent s -> active_consistent (step systems now a s).
Proof.
  intros H. destruct a; cbn [step].
  - by apply active_consistent_openTab.
  - by apply active_consistent_activateTab.
  - by apply active_consistent_closeTab.
  - unfold answerCloseDialog.
    destruct (remove_first tabId (closeDialogs s)) as [[sys rest]|];
      [|exact H].
    destruct c; [exact H | | exact H].
    by apply active_consistent_closeTab_finish.
  - unfold stopServiceSettled.
    destruct (remove_first tabId (stopRequests s)) as [[sys rest]|];
      [|exact H].
    by apply active_consistent_closeTab_finish.
  - eapply active_consistent_same; [| |exact H].
    + apply proj_idleCallback; intros ? ?; reflexivity.
    + apply same_frame_idleCallback.
  - eapply active_consistent_same; [| |exact H].
    + apply proj_onIframeLoad; intros ? ?; reflexivity.
    + apply same_frame_onIframeLoad.
  - eapply active_consistent_same; [| |exact H].
    + apply proj_onIframeError; intros ? ?; reflexivity.
    + reflexivity.
  - eapply active_consistent_same; [| |exact H].
    + apply proj_unloadInactiveTab; intros ? ?; reflexivity.
    + apply same_frame_unloadInactiveTab.
  - eapply active_consistent_same; [| |exact H].
    + apply proj_refreshCurrentTab; intros ? ?; reflexivity.
    + apply same_frame_refreshCurrentTab.
  - unfold duplicateTab. destruct (JsMap.get tabId (tabs s)) as [t|];
      [|exact H].
    destruct (negb (is_system t)); [exact H|].
    destruct (system t); [by apply active_consistent_openTab | exact H].
  - unfold closeOtherTabs.
    generalize (List.filter
                  (fun k => negb (String.eqb k keepTabId)
                            && match JsMap.get k (tabs s) with
                               | Some t => isClosable t
                               | None => false
                               end) (JsMap.keys (tabs s))).
    intros l. revert s H. induction l as [|k l IH]; intros s H;
      [exact H|].
    cbn [fold_left]. by apply IH, active_consistent_closeTab.
  - split; cbn.
    + intros k Hk. by apply elem_of_nil in Hk.
    + discriminate.
Qed.

Lemma active_consistent_run systems turns : forall s,
  active_consistent s -> active_consistent (run systems turns s).
Proof.
  induction turns as [|[now a] turns IH]; intros s H; [exact H|].
  cbn [run]. by apply IH, active_consistent_step.
Qed.

Lemma active_consistent_get s k t :
  active_consistent s -> JsMap.get k (tabs s) = Some t ->
  (isActive t = true <-> activeTab s = Some k).
Proof.
  intros [H1 H2] Hget. split.
  - intros Ha. apply H1. apply get_Some_in in Hget.
    apply (list_elem_of_fmap_2 (fun p => (fst p, isActive (snd p))))
      in Hget. cbn in Hget. by rewrite Ha in Hget.
  - intros Ha. specialize (H2 k Ha). rewrite get_proj, Hget in H2.
    cbn in H2. destruct (isActive t); [reflexivity | congruence].
Qed.

(** X18.  At every point of every run of the tab manager, started with or
    without the welcome tab, a registered tab is marked active exactly
    when it is the tab that [activeTab] names; with the keys being unique,
    at most one tab is marked active. *)
Theorem one_active_tab (systems : gmap string SystemConfig)
    (turns : list (Z * Action)) (hasTabList : bool) :
  let s := run systems turns (constructor hasTabList) in
  (forall k t, JsMap.get k (tabs s) = Some t ->
               (isActive t = true <-> activeTab s = Some k)) /\
  NoDup (JsMap.keys (tabs s)).
Proof.
  cbn zeta. split.
  - intros k t. apply active_consistent_get, active_consistent_run.
    destruct hasTabList; split; cbn.
    + intros k' Hk. apply list_elem_of_singleton in Hk. congruence.
    + intros k' [= <-]. cbn. discriminate.
    + intros k' Hk. by apply elem_of_nil in Hk.
    + discriminate.
  - pose proof (run_well_formed systems turns (constructor hasTabList)
                  (constructor_well_formed systems hasTabList))
      as (Hnd & _).
    by rewrite keys_skeleton in Hnd.
Qed.

Lemma one_active_tab_witness :
  activeTab three_no_welcome = Some "tab-qa_sys-2".
Proof.
  destruct (one_active_tab portal_systems
              [ open_ 1 "writing"; open_ 2 "qa_sys"; open_ 3 "case2pg";
                (4, ActivateTab "tab-writing-1");
                (5, ActivateTab "tab-qa_sys-2") ] false) as [A _].
  refine (proj1 (A "tab-qa_sys-2" _ _) _).
  - vm_compute. reflexivity.
  - reflexivity.
Defined.

End Frames.

Section WelcomeTab.
Import Tabs.

Local Ltac kept := repeat intro; reflexivity.

Lemma get_set_ne {V} k k' (v : V) (m : list (string * V)) :
  k <> k' -> JsMap.get k' (JsMap.set k v m) = JsMap.get k' m.
Proof.
  intros Hne. unfold JsMap.set. destruct (JsMap.has k m).
  - rewrite get_update. apply String.eqb_neq in Hne. by rewrite Hne.
  - rewrite get_app. destruct (JsMap.get k' m); [reflexivity|].
    cbn. apply String.eqb_neq in Hne. by rewrite Hne.
Qed.

Lemma tab_id_not_welcome k n : tab_id k n <> "welcome".
Proof. unfold tab_id. cbn. discriminate. Qed.

Lemma remove_first_Forall (P : string * string -> Prop) k l sys rest :
  remove_first k l = Some (sys, rest) ->
  Forall P l -> P (k, sys) /\ Forall P rest.
Proof.
  revert sys rest. induction l as [|[k0 s0] l IH]; intros sys rest;
    [discriminate|].
  cbn [remove_first]. destruct (String.eqb_spec k0 k) as [->|Hne].
  - intros [= <- <-] H. by apply Forall_cons in H.
  - destruct (remove_first k l) as [[sys' r]|]; [|discriminate].
    intros [= <- <-] H. apply Forall_cons in H as [H0 H].
    destruct (IH _ _ eq_refl H) as [A B]. split; [exact A|].
    by apply Forall_cons.
Qed.

Lemma welcome_kept_same s s' :
  proj closing_view (tabs s') = proj closing_view (tabs s) ->
  same_frame s s' -> welcome_kept s -> welcome_kept s'.
Proof.
  unfold welcome_kept. intros -> (_ & -> & ->). tauto.
Qed.

Lemma welcome_kept_activateTab k now s :
  welcome_kept s -> welcome_kept (activateTab k now s).
Proof.
  intros H. destruct (JsMap.get k (tabs s)) as [t|] eqn:Hget.
  - destruct (activateTab_frame k now s t Hget) as (_ & Hd & Hr & _).
    unfold welcome_kept. rewrite Hd, Hr.
    rewrite proj_activateTab by kept. exact H.
  - by rewrite activateTab_absent.
Qed.

Lemma welcome_kept_closeTab_finish k now s :
  k <> "welcome" -> welcome_kept s ->
  welcome_kept (closeTab_finish k now s).
Proof.
  intros Hne (Hw & Hd & Hr). unfold closeTab_finish.
  match goal with
  | |- context [activateNextTab now ?x] => set (s1 := x)
  end.
  assert (H1 : welcome_kept s1).
  { unfold welcome_kept. subst s1. cbn [tabs closeDialogs stopRequests].
    rewrite proj_delete, get_delete_ne by exact Hne. by repeat split. }
  destruct (activeTab s1) as [a|]; [|exact H1].
  destruct (String.eqb a k); [|exact H1].
  rewrite activateNextTab_eq. destruct (next_after_close (tabs s1));
    [by apply welcome_kept_activateTab | exact H1].
Qed.

Lemma welcome_not_closable s k t :
  welcome_kept s -> JsMap.get k (tabs s) = Some t ->
  isClosable t = true -> k <> "welcome".
Proof.
  intros (Hw & _) Hget Hc ->. rewrite get_proj, Hget in Hw.
  unfold closing_view in Hw. cbn in Hw. congruence.
Qed.

Lemma welcome_kept_closeTab k c now s :
  welcome_kept s -> welcome_kept (closeTab k c now s).
Proof.
  intros H. unfold closeTab.
  destruct (JsMap.get k (tabs s)) as [t|] eqn:Hget; [|exact H].
  destruct (isClosable t) eqn:Hc; cbn [negb]; [|exact H].
  pose proof (welcome_not_closable s k t H Hget Hc) as Hne.
  destruct (_ && _).
  - destruct H as (Hw & Hd & Hr). split; [exact Hw|]. split; [|exact Hr].
    cbn [closeDialogs]. apply Forall_app. split; [exact Hd|].
    by apply Forall_singleton.
  - by apply welcome_kept_closeTab_finish.
Qed.

Lemma welcome_kept_openTab systems k o now s :
  welcome_kept s -> welcome_kept (openTab systems k o now s).
Proof.
  intros H. unfold openTab.
  destruct (systems_get systems k) as [cfg|]; [|exact H].
  destruct (findTabBySystem k s) as [t|];
    [by apply welcome_kept_activateTab|].
  set (s1 := if (maxTabs s <=? JsMap.size (tabs s))%nat
             then closeOldestInactiveTab now s else s).
  assert (H1 : welcome_kept s1).
  { subst s1. destruct (_ <=? _)%nat; [|exact H].
    unfold closeOldestInactiveTab.
    destruct (oldestInactiveTab now s); [|exact H].
    by apply welcome_kept_closeTab. }
  set (tabId := tab_id k (S (tabCounter s1))).
  set (tab := new_tab tabId k cfg o now).
  match goal with
  | |- context [activateTab tabId now ?x] => set (s2 := x)
  end.
  assert (H2 : welcome_kept s2).
  { destruct H1 as (Hw & Hd & Hr). unfold welcome_kept. subst s2.
    cbn [tabs closeDialogs stopRequests].
    rewrite proj_set, get_set_ne by apply tab_id_not_welcome.
    by repeat split. }
  pose proof (welcome_kept_activateTab tabId now s2 H2) as H3.
  set (s3 := activateTab tabId now s2) in *.
  destruct (wants_immediate o).
  - eapply welcome_kept_same; [| |exact H3].
    + cbn [tabs]. apply proj_loadTabContent; kept.
    + destruct (same_frame_loadTabContent tabId now s3) as (A & B & C).
      unfold same_frame. cbn [activeTab closeDialogs stopRequests].
      by repeat split.
  - exact H3.
Qed.

Lemma welcome_kept_step systems now a s :
  a <> Destroy -> welcome_kept s -> welcome_kept (step systems now a s).
Proof.
  intros Hnd H. destruct a; cbn [step].
  - by apply welcome_kept_openTab.
  - by apply welcome_kept_activateTab.
  - by apply welcome_kept_closeTab.
  - unfold answerCloseDialog.
    destruct (remove_first tabId (closeDialogs s)) as [[sys rest]|] eqn:Hrf;
      [|exact H].
    destruct H as (Hw & Hd & Hr).
    destruct (remove_first_Forall _ _ _ _ _ Hrf Hd) as [Hk Hrest].
    cbn [fst] in Hk.
    destruct c.
    + by repeat split.
    + apply welcome_kept_closeTab_finish; [exact Hk|]. by repeat split.
    + split; [exact Hw|]. split; [exact Hrest|].
      cbn [stopRequests]. apply Forall_app. split; [exact Hr|].
      by apply Forall_singleton.
  - unfold stopServiceSettled.
    destruct (remove_first tabId (stopRequests s)) as [[sys rest]|] eqn:Hrf;
      [|exact H].
    destruct H as (Hw & Hd & Hr).
    destruct (remove_first_Forall _ _ _ _ _ Hrf Hr) as [Hk Hrest].
    apply welcome_kept_closeTab_finish; [exact Hk|]. by repeat split.
  - eapply welcome_kept_same; [| |exact H].
    + apply proj_idleCallback; kept.
    + apply same_frame_idleCallback.
  - eapply welcome_kept_same; [| |exact H].
    + apply proj_onIframeLoad; kept.
    + apply same_frame_onIframeLoad.
  - eapply welcome_kept_same; [| |exact H].
    + apply proj_onIframeError; kept.
    + apply same_frame_updateTabStatus.
  - eapply welcome_kept_same; [| |exact H].
    + apply proj_unloadInactiveTab; kept.
    + apply same_frame_unloadInactiveTab.
  - eapply welcome_kept_same; [| |exact H].
    + apply proj_refreshCurrentTab; kept.
    + apply same_frame_refreshCurrentTab.
  - unfold duplicateTab. destruct (JsMap.get tabId (tabs s)) as [t|];
      [|exact H].
    destruct (negb (is_system t)); [exact H|].
    destruct (system t); [by apply welcome_kept_openTab | exact H].
  - unfold closeOtherTabs.
    generalize (List.filter
                  (fun k => negb (String.eqb k keepTabId)
                            && match JsMap.get k (tabs s) with
                               | Some t => isClosable t
                               | None => false
                               end) (JsMap.keys (tabs s))).
    intros l. revert s H. induction l as [|k l IH]; intros s H;
      [exact H|].
    cbn [fold_left]. by apply IH, welcome_kept_closeTab.
  - congruence.
Qed.

(** X19.  On a page with the tab list, the welcome tab is there for good:
    whatever is opened, closed, confirmed, loaded or unloaded, as long as
    the manager is not destroyed the registry holds a tab under the key
    [welcome] that is a welcome tab and cannot be closed. *)
Theorem welcome_tab_stays (systems : gmap string SystemConfig)
    (turns : list (Z * Action)) :
  Forall (fun turn => snd turn <> Destroy) turns ->
  let s := run systems turns (constructor true) in
  exists t, JsMap.get "welcome" (tabs s) = Some t /\
            isClosable t = false /\ type t = Welcome.
Proof.
  intros Hnd. cbn zeta.
  assert (H : welcome_kept (run systems turns (constructor true))).
  { assert (H0 : welcome_kept (constructor true))
      by (by repeat split).
    revert H0. generalize (constructor true).
    induction turns as [|[now a] turns IH]; intros s Hs; [exact Hs|].
    apply Forall_cons in Hnd as [Ha Hnd]. cbn [run].
    apply IH; [exact Hnd|]. by apply welcome_kept_step. }
  destruct H as (Hw & _). rewrite get_proj in Hw.
  destruct (JsMap.get "welcome" _) as [t|]; [|discriminate].
  exists t. unfold closing_view in Hw. cbn in Hw.
  injection Hw as Hc Ht. by repeat split.
Qed.

Lemma welcome_tab_stays_witness :
  exists t,
    JsMap.get "welcome"
      (tabs (run portal_systems
               [ open_ 1 "writing"; (2, CloseTab "welcome" false);
                 (3, CloseOtherTabs "tab-writing-1") ]
               (constructor true))) = Some t /\
    isClosable t = false /\ type t = Welcome.
Proof.
  apply (welcome_tab_stays portal_systems).
  repeat constructor; discriminate.
Defined.

End WelcomeTab.

Section Navigation.
Import Tabs.

Lemma index_from_absent i a l :
  (forall k, a = Some k -> k ∉ l) -> index_from i a l = -1.
Proof.
  revert i. induction l as [|x l IH]; intros i H; [reflexivity|].
  cbn [index_from]. destruct a as [k|].
  - destruct (String.eqb_spec x k) as [->|Hne].
    + exfalso. apply (H k eq_refl). apply list_elem_of_here.
    + apply IH. intros k' [= <-] Hin. apply (H k eq_refl).
      by apply list_elem_of_further.
  - apply IH. discriminate.
Qed.

Lemma index_from_found i a l n :
  NoDup l -> l !! n = Some a ->
  index_from i (Some a) l = i + Z.of_nat n.
Proof.
  revert i n. induction l as [|x l IH]; intros i n Hnd Hn;
    [by destruct n|].
  apply NoDup_cons in Hnd as [Hx Hnd]. cbn [index_from].
  destruct n as [|n]; cbn in Hn.
  - injection Hn as ->. rewrite String.eqb_refl. lia.
  - destruct (String.eqb_spec x a) as [->|Hne].
    + exfalso. apply Hx. by eapply list_elem_of_lookup_2.
    + rewrite (IH (i + 1) n Hnd Hn). lia.
Qed.

Lemma at_index_nat l n : at_index l (Z.of_nat n) = l !! n.
Proof.
  unfold at_index. destruct (Z.ltb_spec (Z.of_nat n) 0); [lia|].
  by rewrite Nat2Z.id.
Qed.

Lemma keys_activateTab k now s :
  JsMap.keys (tabs (activateTab k now s)) = JsMap.keys (tabs s).
Proof. by rewrite <- !keys_skeleton, skeleton_activateTab. Qed.

Lemma activeTab_activateTab k now s :
  k ∈ JsMap.keys (tabs s) -> activeTab (activateTab k now s) = Some k.
Proof.
  intros Hin. apply in_keys_get in Hin as [t Ht].
  by destruct (activateTab_frame k now s t Ht) as [-> _].
Qed.

(** Where [switchToNextTab] and [navigateToPreviousTab] go from the
    [n]-th tab. *)
Lemma switchToNextTab_at now s n a :
  NoDup (JsMap.keys (tabs s)) ->
  JsMap.keys (tabs s) !! n = Some a -> activeTab s = Some a ->
  switchToNextTab now s
  = activate_at (JsMap.keys (tabs s))
      (Z.of_nat (S n mod length (JsMap.keys (tabs s)))) now s.
Proof.
  intros Hnd Hn Ha. unfold switchToNextTab. rewrite Ha.
  unfold indexOf. rewrite (index_from_found 0 a _ n Hnd Hn).
  pose proof (lookup_lt_Some _ _ _ Hn) as Hlt.
  destruct (JsMap.keys (tabs s)) as [|k0 l] eqn:Hk; [cbn in Hlt; lia|].
  f_equal. rewrite Z.rem_mod_nonneg by (cbn [length]; lia).
  rewrite Nat2Z.inj_mod. f_equal. lia.
Qed.

Lemma navigateToPreviousTab_at now s n a :
  NoDup (JsMap.keys (tabs s)) ->
  JsMap.keys (tabs s) !! n = Some a -> activeTab s = Some a ->
  navigateToPreviousTab now s
  = activate_at (JsMap.keys (tabs s))
      (Z.of_nat (match n with
                 | O => length (JsMap.keys (tabs s)) - 1
                 | S m => m
                 end)) now s.
Proof.
  intros Hnd Hn Ha. unfold navigateToPreviousTab. rewrite Ha.
  unfold indexOf. rewrite (index_from_found 0 a _ n Hnd Hn).
  pose proof (lookup_lt_Some _ _ _ Hn) as Hlt.
  f_equal. destruct n as [|m].
  - change (0 + Z.of_nat 0 >? 0) with false. cbv iota. lia.
  - destruct (Z.gtb_spec (0 + Z.of_nat (S m)) 0); lia.
Qed.

Lemma activate_at_key l n k now s :
  l !! n = Some k -> activate_at l (Z.of_nat n) now s = activateTab k now s.
Proof. intros H. unfold activate_at. by rewrite at_index_nat, H. Qed.

(** X20.  In a registry with unique keys whose active tab is registered,
    [switchToNextTab] and [navigateToPreviousTab] undo each other: after
    one and then the other, in either order, the same tab is active
    again, also across the ends of the tab list, and no tab has been added
    or removed. *)
Theorem next_and_previous_undo (now now' : Z) (s : TabManager)
    (a : string) :
  NoDup (JsMap.keys (tabs s)) ->
  activeTab s = Some a ->
  a ∈ JsMap.keys (tabs s) ->
  let back := navigateToPreviousTab now' (switchToNextTab now s) in
  let forth := switchToNextTab now' (navigateToPreviousTab now s) in
  activeTab back = Some a /\ activeTab forth = Some a /\
  JsMap.keys (tabs back) = JsMap.keys (tabs s) /\
  JsMap.keys (tabs forth) = JsMap.keys (tabs s).
Proof.
  intros Hnd Ha Hin. cbn zeta.
  apply list_elem_of_lookup_1 in Hin as [n Hn].
  pose proof (lookup_lt_Some _ _ _ Hn) as Hlt.
  set (l := JsMap.keys (tabs s)) in *.
  (* next, then previous *)
  assert (Hj : (S n mod length l < length l)%nat)
    by (apply Nat.mod_upper_bound; lia).
  destruct (lookup_lt_is_Some_2 l _ Hj) as [b Hb].
  assert (E1 : switchToNextTab now s = activateTab b now s).
  { rewrite (switchToNextTab_at now s n a Hnd Hn Ha). fold l.
    by apply activate_at_key. }
  assert (Hbin : b ∈ JsMap.keys (tabs s))
    by (by eapply list_elem_of_lookup_2).
  set (s1 := activateTab b now s).
  assert (Hk1 : JsMap.keys (tabs s1) = l) by apply keys_activateTab.
  assert (Ha1 : activeTab s1 = Some b) by (by apply activeTab_activateTab).
  assert (E2 : navigateToPreviousTab now' s1 = activateTab a now' s1).
  { rewrite (navigateToPreviousTab_at now' s1 (S n mod length l) b);
      rewrite ?Hk1; try assumption.
    apply activate_at_key.
    destruct (Nat.eq_dec (S n) (length l)) as [E|E].
    - rewrite E, Nat.Div0.mod_same. rewrite <- E.
      replace (S n - 1)%nat with n by lia. exact Hn.
    - rewrite Nat.mod_small by lia. exact Hn. }
  (* previous, then next *)
  set (p := match n with O => (length l - 1)%nat | S m => m end).
  assert (Hp : (p < length l)%nat) by (subst p; destruct n; lia).
  destruct (lookup_lt_is_Some_2 l _ Hp) as [c Hc].
  assert (E3 : navigateToPreviousTab now s = activateTab c now s).
  { rewrite (navigateToPreviousTab_at now s n a Hnd Hn Ha). fold l.
    by apply activate_at_key. }
  assert (Hcin : c ∈ JsMap.keys (tabs s))
    by (by eapply list_elem_of_lookup_2).
  set (s2 := activateTab c now s).
  assert (Hk2 : JsMap.keys (tabs s2) = l) by apply keys_activateTab.
  assert (Ha2 : activeTab s2 = Some c) by (by apply activeTab_activateTab).
  assert (E4 : switchToNextTab now' s2 = activateTab a now' s2).
  { rewrite (switchToNextTab_at now' s2 p c);
      rewrite ?Hk2; try assumption.
    apply activate_at_key. subst p. destruct n as [|m].
    - replace (S (length l - 1)) with (length l) by lia.
      by rewrite Nat.Div0.mod_same.
    - rewrite Nat.mod_small by lia. exact Hn. }
  rewrite E1, E3. fold s1 s2. rewrite E2, E4.
  assert (Hin1 : a ∈ JsMap.keys (tabs s1))
    by (rewrite Hk1; by eapply list_elem_of_lookup_2).
  assert (Hin2 : a ∈ JsMap.keys (tabs s2))
    by (rewrite Hk2; by eapply list_elem_of_lookup_2).
  rewrite !activeTab_activateTab by assumption.
  rewrite !keys_activateTab. by rewrite Hk1, Hk2.
Qed.

Lemma next_and_previous_undo_witness :
  activeTab (navigateToPreviousTab 7 (switchToNextTab 6 three_tabs))
  = Some "welcome".
Proof.
  assert (Hnd : NoDup (JsMap.keys (tabs three_tabs))).
  { cbn. repeat constructor; rewrite ?elem_of_cons, ?elem_of_nil;
      intuition discriminate. }
  assert (Hin : "welcome" ∈ JsMap.keys (tabs three_tabs))
    by apply list_elem_of_here.
  exact (proj1 (next_and_previous_undo 6 7 three_tabs "welcome" Hnd
                  eq_refl Hin)).
Defined.

(** X21.  When [activeTab] names no registered tab (it is [null], or
    the tab it names is gone), [switchToNextTab] does what
    [navigateToFirstTab] does and [navigateToPreviousTab] what
    [navigateToLastTab] does; with an empty registry all four change
    nothing. *)
Theorem navigation_without_active_tab (now : Z) (s : TabManager) :
  (forall a, activeTab s = Some a -> a ∉ JsMap.keys (tabs s)) ->
  switchToNextTab now s = navigateToFirstTab now s /\
  navigateToPreviousTab now s = navigateToLastTab now s /\
  (tabs s = [] ->
   switchToNextTab now s = s /\ navigateToPreviousTab now s = s).
Proof.
  intros H.
  unfold switchToNextTab, navigateToPreviousTab, navigateToFirstTab,
    navigateToLastTab, indexOf.
  rewrite (index_from_absent 0 (activeTab s) _ H).
  split; [|split].
  - destruct (JsMap.keys (tabs s)) as [|k l]; [reflexivity|].
    cbn [Z.add]. rewrite Z.rem_0_l by (cbn [length]; lia). reflexivity.
  - cbn [Z.gtb Z.compare]. unfold activate_at.
    destruct (JsMap.keys (tabs s)) as [|k l] eqn:Hk; [reflexivity|].
    replace (Z.of_nat (length (k :: l)) - 1)
      with (Z.of_nat (length l)) by (cbn [length]; lia).
    rewrite at_index_nat, last_lookup. reflexivity.
  - intros ->. by split.
Qed.

Lemma navigation_without_active_tab_witness :
  let s := closeTab "tab-writing-1" false 9
             (run portal_systems [ open_ 1 "writing" ] (constructor false))
  in
  activeTab s = Some "tab-writing-1" /\ switchToNextTab 10 s = s.
Proof.
  cbn zeta. split; [reflexivity|].
  refine (proj1 (proj2 (proj2 (navigation_without_active_tab 10 _ _)) _)).
  - intros a Ha Hin. vm_compute in Hin. by apply elem_of_nil in Hin.
  - vm_compute. reflexivity.
Defined.

End Navigation.

Section Reloading.
Import Tabs.

Lemma refreshCurrentTab_get k b now s t :
  activeTab s = Some k -> k <> "" ->
  JsMap.get k (tabs s) = Some t -> is_system t = true ->
  JsMap.get k (tabs (refreshCurrentTab b now s))
  = Some (if b then set_loadStartTime (Some now) (set_status Loading t)
          else t) /\
  forall k', k <> k' ->
    JsMap.get k' (tabs (refreshCurrentTab b now s)) = JsMap.get k' (tabs s).
Proof.
  intros Ha Hne Hget Hsys. unfold refreshCurrentTab. rewrite Ha.
  apply String.eqb_neq in Hne. cbn [truthy]. rewrite Hne. cbn [negb].
  rewrite Hget, Hsys. cbn [negb]. destruct b; [|by split].
  cbn [with_tabs updateTabStatus tabs]. split.
  - rewrite !get_update_eq, Hget. reflexivity.
  - intros k' Hk. rewrite !get_update.
    apply String.eqb_neq in Hk. by rewrite Hk.
Qed.

Lemma JsSet_delete_not_in k q : k ∉ JsSet.delete k q.
Proof.
  unfold JsSet.delete. intros H. apply list_elem_of_In in H.
  apply List.filter_In in H as [_ H]. by rewrite String.eqb_refl in H.
Qed.

(** X22.  [refreshTab] on a system tab in the background leaves the tab
    that was active active, but it counts as a use of the refreshed tab:
    the tab is activated on the way, so its [lastActiveTime] becomes the
    time of the refresh and it is loaded if it was not; when the page has
    its frame it is shown as loading again. *)
Theorem refresh_background_tab (tabId a : string) (iframeFound : bool)
    (now : Z) (s : TabManager) (t : Tab) :
  activeTab s = Some a ->
  is_Some (JsMap.get a (tabs s)) ->
  tabId <> a -> tabId <> "" ->
  JsMap.get tabId (tabs s) = Some t ->
  is_system t = true ->
  let s' := refreshTab tabId iframeFound now s in
  activeTab s' = Some a /\
  exists t',
    JsMap.get tabId (tabs s') = Some t' /\
    isActive t' = false /\ lastActiveTime t' = Some now /\
    isLoaded t' = true /\
    (iframeFound = true ->
     status t' = Some Loading /\ loadStartTime t' = Some now).
Proof.
  intros Ha [ta Hta] Hne Hnz Hget Hsys. cbn zeta.
  unfold refreshTab. rewrite Ha.
  assert (Hne' : a <> tabId) by congruence.
  apply String.eqb_neq in Hne' as Heq. rewrite Heq.
  destruct (activateTab_self tabId now s t Hget)
    as (Ha1 & t1 & Hg1 & Hact1 & Hlast1 & _ & Hty1 & _ & Hl1).
  set (s1 := activateTab tabId now s) in *.
  assert (Hsys1 : is_system t1 = true)
    by (unfold is_system in *; by rewrite Hty1).
  destruct (refreshCurrentTab_get tabId iframeFound now s1 t1 Ha1 Hnz Hg1
              Hsys1) as [Hg2 Hother].
  set (s2 := refreshCurrentTab iframeFound now s1) in *.
  assert (Hga : is_Some (JsMap.get a (tabs s2))).
  { rewrite (Hother a Hne). subst s1.
    rewrite (activateTab_other tabId a now s t Hget Hne), Hta.
    by eexists. }
  destruct Hga as [ta2 Hta2].
  destruct (activateTab_frame a now s2 ta2 Hta2) as (Hact & _).
  split; [exact Hact|].
  rewrite (activateTab_other a tabId now s2 ta2 Hta2 Hne'), Hg2.
  cbn [fmap option_fmap option_map]. eexists. split; [reflexivity|].
  specialize (Hl1 Hsys).
  unfold deactivate. destruct iframeFound;
    cbn [isActive set_loadStartTime set_status]; rewrite Hact1;
    cbn [isActive lastActiveTime isLoaded status loadStartTime set_active
           set_loadStartTime set_status];
    repeat split; try assumption; try reflexivity; discriminate.
Qed.

Lemma refresh_background_tab_witness :
  let s' := refreshTab "tab-censor-3" true 50 three_tabs in
  activeTab s' = Some "welcome" /\
  exists t',
    JsMap.get "tab-censor-3" (tabs s') = Some t' /\
    isActive t' = false /\ lastActiveTime t' = Some 50 /\
    isLoaded t' = true /\
    (true = true -> status t' = Some Loading /\ loadStartTime t' = Some 50).
Proof.
  apply (refresh_background_tab "tab-censor-3" "welcome" true 50
           three_tabs T3);
    try reflexivity; try discriminate.
  by eexists.
Defined.

(** X23.  A system tab that is not active is unloaded by its timer when
    the page has its frame: it is shown as unloaded and marked not
    loaded.  Activating it afterwards loads it again: it is shown as
    loading, marked loaded, and is not in the lazy-load queue.  The timer
    of a tab that is active changes nothing. *)
Theorem unload_then_activate_reloads (k : string) (now : Z)
    (s : TabManager) (t : Tab) :
  JsMap.get k (tabs s) = Some t ->
  is_system t = true ->
  let s1 := unloadInactiveTab k true s in
  let s2 := activateTab k now s1 in
  (isActive t = true -> forall b, unloadInactiveTab k b s = s) /\
  (isActive t = false ->
   (exists t1, JsMap.get k (tabs s1) = Some t1 /\
               status t1 = Some Unloaded /\ isLoaded t1 = false) /\
   (exists t2, JsMap.get k (tabs s2) = Some t2 /\
               status t2 = Some Loading /\ isLoaded t2 = true /\
               isActive t2 = true) /\
   activeTab s2 = Some k /\ k ∉ lazyLoadQueue s2).
Proof.
  intros Hget Hsys. cbn zeta. split.
  - intros Ha b. unfold unloadInactiveTab. by rewrite Hget, Ha.
  - intros Ha.
    assert (Hg1 : JsMap.get k (tabs (unloadInactiveTab k true s))
                  = Some (set_status Unloaded (set_isLoaded false t))).
    { unfold unloadInactiveTab. rewrite Hget, Ha, Hsys. cbn [negb orb].
      cbn [with_tabs updateTabStatus tabs].
      rewrite !get_update_eq, Hget. reflexivity. }
    set (s1 := unloadInactiveTab k true s) in *.
    split; [eexists; split; [exact Hg1|]; by split|].
    destruct (activateTab_self k now s1 _ Hg1)
      as (Hact & t2 & Hg2 & Hact2 & _ & _ & _ & Hload & _).
    destruct (activateTab_frame k now s1 _ Hg1) as (_ & _ & _ & Hq).
    split; [|split; [exact Hact|]].
    + exists t2. destruct Hload as [A B]; [exact Hsys | reflexivity |].
      by repeat split.
    + rewrite Hq. cbn [isLoaded set_status set_isLoaded negb andb].
      replace (is_system (set_status Unloaded (set_isLoaded false t)))
        with true by (symmetry; exact Hsys).
      apply JsSet_delete_not_in.
Qed.

Lemma unload_then_activate_reloads_witness :
  status_of "tab-writing-1"
    (activateTab "tab-writing-1" 60
       (unloadInactiveTab "tab-writing-1" true three_tabs))
  = Some Loading.
Proof.
  destruct (unload_then_activate_reloads "tab-writing-1" 60 three_tabs T1
              eq_refl eq_refl) as [_ A].
  destruct (A eq_refl) as (_ & (t2 & Hg & Hst & _) & _).
  unfold status_of. rewrite Hg. exact Hst.
Defined.

End Reloading.

Section Closing.
Import Tabs.

Lemma closeTab_asks k now s t :
  JsMap.get k (tabs s) = Some t -> isClosable t = true ->
  is_system t && truthy (system t) = true ->
  tabs (closeTab k true now s) = tabs s /\
  activeTab (closeTab k true now s) = activeTab s /\
  closeDialogs (closeTab k true now s)
  = closeDialogs s ++ [(k, default "" (system t))].
Proof.
  intros Hget Hc Hsys. unfold closeTab. rewrite Hget, Hc, Hsys.
  by repeat split.
Qed.

(** X24.  While every closable tab is a system tab with a system name (as
    all tabs made by [openTab] are), [closeOtherTabs] closes nothing
    before it returns: the registry and the active tab are as before, and
    one confirmation has been opened for each closable tab other than the
    one to keep, in the order of the tabs. *)
Theorem closeOtherTabs_only_asks (keepTabId : string) (now : Z)
    (s : TabManager) :
  closable_are_systems s ->
  let s' := closeOtherTabs keepTabId now s in
  tabs s' = tabs s /\ activeTab s' = activeTab s /\
  map fst (closeDialogs s')
  = map fst (closeDialogs s)
    ++ List.filter
         (fun k => negb (String.eqb k keepTabId)
                   && match JsMap.get k (tabs s) with
                      | Some t => isClosable t
                      | None => false
                      end) (JsMap.keys (tabs s)).
Proof.
  intros Hsys. cbn zeta. unfold closeOtherTabs.
  set (l := List.filter _ _).
  assert (Hl : Forall (fun k => exists t, JsMap.get k (tabs s) = Some t
                                          /\ isClosable t = true) l).
  { apply Forall_forall. intros k Hk. apply list_elem_of_In in Hk.
    subst l. apply List.filter_In in Hk as [_ Hk].
    apply andb_prop in Hk as [_ Hk].
    destruct (JsMap.get k (tabs s)) as [t|]; [|discriminate].
    by exists t. }
  clearbody l.
  assert (Hgen : forall acc,
             tabs acc = tabs s ->
             tabs (fold_left (fun a k => closeTab k true now a) l acc)
             = tabs s /\
             activeTab (fold_left (fun a k => closeTab k true now a) l acc)
             = activeTab acc /\
             map fst (closeDialogs
                        (fold_left (fun a k => closeTab k true now a) l acc))
             = map fst (closeDialogs acc) ++ l).
  { induction l as [|k l IH]; intros acc Hacc.
    - cbn. by rewrite app_nil_r.
    - apply Forall_cons in Hl as [(t & Hget & Hc) Hl]. cbn [fold_left].
      rewrite <- Hacc in Hget.
      assert (Hs : is_system t && truthy (system t) = true).
      { apply (Hsys k t); [by rewrite <- Hacc | exact Hc]. }
      destruct (closeTab_asks k now acc t Hget Hc Hs) as (A & B & C).
      destruct (IH Hl (closeTab k true now acc)) as (A' & B' & C');
        [congruence|].
      split; [exact A'|]. split; [congruence|].
      rewrite C', C, map_app, <- app_assoc. reflexivity. }
  by apply Hgen.
Qed.

Lemma closeOtherTabs_only_asks_witness :
  let s' := closeOtherTabs "tab-case2pg-2" 70 three_tabs in
  JsMap.size (tabs s') = 4%nat /\
  map fst (closeDialogs s') = [ "tab-writing-1"; "tab-censor-3" ].
Proof.
  cbn zeta.
  assert (H : closable_are_systems three_tabs).
  { intros k t Hget Hc. cbn in Hget.
    repeat match type of Hget with
           | (if ?c then _ else _) = _ => destruct c
           end;
      try discriminate; injection Hget as <-; try discriminate;
      reflexivity. }
  destruct (closeOtherTabs_only_asks "tab-case2pg-2" 70 three_tabs H)
    as (A & _ & C).
  split; [by rewrite A | exact C].
Defined.

End Closing.

Section Registry.
Import Tabs.

(** X25.  At every point of every run of the tab manager, each tab is
    registered under its own [id], and the [system] of each tab is a name
    that the configuration lookup finds. *)
Theorem tabs_registered_under_their_id
    (systems : gmap string SystemConfig) (turns : list (Z * Action))
    (hasTabList : bool) :
  let s := run systems turns (constructor hasTabList) in
  forall k t, JsMap.get k (tabs s) = Some t ->
              id t = k /\
              forall name, system t = Some name ->
                           is_Some (systems_get systems name).
Proof.
  cbn zeta. intros k t Hget.
  pose proof (run_well_formed systems turns (constructor hasTabList)
                (constructor_well_formed systems hasTabList))
    as (_ & Hid & _ & Hcfg).
  apply get_Some_in in Hget.
  apply (list_elem_of_fmap_2
           (fun p => (fst p, (id (snd p), system (snd p))))) in Hget.
  cbn [fst snd] in Hget.
  rewrite Forall_forall in Hid, Hcfg. split.
  - exact (Hid _ Hget).
  - exact (Hcfg _ Hget).
Qed.

Lemma tabs_registered_under_their_id_witness :
  exists t,
    JsMap.get "tab-constructor-1"
      (tabs (run portal_systems [ open_ 1 "constructor" ]
               (constructor true))) = Some t /\
    id t = "tab-constructor-1".
Proof.
  destruct (JsMap.get "tab-constructor-1"
              (tabs (run portal_systems [ open_ 1 "constructor" ]
                       (constructor true)))) as [t|] eqn:Hget.
  - exists t. split; [reflexivity|].
    exact (proj1 (tabs_registered_under_their_id portal_systems
                    [ open_ 1 "constructor" ] true _ t Hget)).
  - vm_compute in Hget. discriminate.
Defined.

End Registry.

Section MemoryCleanup.
Import Tabs.
Context (iframeFound : string -> bool).

Lemma unloadInactiveTab_other k k' b s :
  k <> k' ->
  JsMap.get k' (tabs (unloadInactiveTab k b s)) = JsMap.get k' (tabs s).
Proof.
  intros Hne. unfold unloadInactiveTab.
  destruct (JsMap.get k (tabs s)); [|reflexivity].
  destruct (_ || _); [reflexivity|]. destruct b; [|reflexivity].
  cbn [with_tabs updateTabStatus tabs]. rewrite !get_update.
  apply String.eqb_neq in Hne. by rewrite Hne.
Qed.

Lemma visit_other k k' s :
  k <> k' ->
  JsMap.get k' (tabs (cleanup_visit iframeFound s k))
  = JsMap.get k' (tabs s).
Proof.
  intros Hne. unfold cleanup_visit. destruct (JsMap.get k (tabs s)) as [t|];
    [|reflexivity].
  destruct (_ && _); [|reflexivity].
  by apply unloadInactiveTab_other.
Qed.

Lemma visit_self k s t :
  iframeFound k = true -> JsMap.get k (tabs s) = Some t ->
  JsMap.get k (tabs (cleanup_visit iframeFound s k))
  = Some (if negb (isActive t) && is_system t && isLoaded t
          then set_status Unloaded (set_isLoaded false t) else t).
Proof.
  intros Hf Hget. unfold cleanup_visit. rewrite Hget.
  destruct (negb (isActive t) && is_system t && isLoaded t) eqn:Hc;
    [|exact Hget].
  apply andb_prop in Hc as [Hc _]. apply andb_prop in Hc as [Ha Hs].
  apply negb_true_iff in Ha.
  unfold unloadInactiveTab. rewrite Hget, Ha, Hs, Hf. cbn [negb orb].
  cbn [with_tabs updateTabStatus tabs]. rewrite !get_update_eq, Hget.
  reflexivity.
Qed.

Lemma visit_frame k s : same_frame s (cleanup_visit iframeFound s k).
Proof.
  unfold cleanup_visit. destruct (JsMap.get k (tabs s)) as [t|];
    [|apply same_frame_refl].
  destruct (_ && _); [|apply same_frame_refl].
  apply same_frame_unloadInactiveTab.
Qed.

Lemma cleanup_not_visited l : forall s k,
  k ∉ l ->
  JsMap.get k (tabs (fold_left (cleanup_visit iframeFound) l s))
  = JsMap.get k (tabs s).
Proof.
  induction l as [|x l IH]; intros s k Hk; [reflexivity|].
  cbn [fold_left]. rewrite IH.
  - apply visit_other. intros ->. apply Hk, list_elem_of_here.
  - intros Hin. apply Hk. by apply list_elem_of_further.
Qed.

Lemma cleanup_visited l : forall s k t,
  (forall x, iframeFound x = true) ->
  NoDup l -> k ∈ l -> JsMap.get k (tabs s) = Some t ->
  JsMap.get k (tabs (fold_left (cleanup_visit iframeFound) l s))
  = Some (if negb (isActive t) && is_system t && isLoaded t
          then set_status Unloaded (set_isLoaded false t) else t).
Proof.
  induction l as [|x l IH]; intros s k t Hf Hnd Hin Hget.
  - by apply elem_of_nil in Hin.
  - apply NoDup_cons in Hnd as [Hx Hnd]. cbn [fold_left].
    destruct (String.eqb_spec x k) as [->|Hne].
    + rewrite cleanup_not_visited by exact Hx.
      by apply visit_self.
    + apply elem_of_cons in Hin as [->|Hin]; [congruence|].
      apply IH; try assumption.
      rewrite visit_other by exact Hne. exact Hget.
Qed.

Lemma cleanup_frame l : forall s,
  same_frame s (fold_left (cleanup_visit iframeFound) l s).
Proof.
  induction l as [|x l IH]; intros s; [apply same_frame_refl|].
  cbn [fold_left]. eapply same_frame_trans; [apply visit_frame | apply IH].
Qed.

(** X26.  When memory runs short and the page has the frame of every
    tab, [performMemoryCleanup] leaves no system tab loaded except the
    active one: every system tab that is not active ends up not loaded,
    shown as unloaded if it was loaded before.  The active tab, the
    welcome tab and the tabs that were not loaded are exactly as
    before, no tab is added or removed, and the same tab is active. *)
Theorem memory_cleanup_unloads_background (s : TabManager) :
  NoDup (JsMap.keys (tabs s)) ->
  (forall k, iframeFound k = true) ->
  let s' := performMemoryCleanup iframeFound s in
  activeTab s' = activeTab s /\
  forall k t,
    JsMap.get k (tabs s) = Some t ->
    exists t',
      JsMap.get k (tabs s') = Some t' /\
      isActive t' = isActive t /\
      (isActive t = true \/ is_system t = false \/ isLoaded t = false ->
       t' = t) /\
      (isActive t = false -> is_system t = true ->
       isLoaded t' = false /\
       (isLoaded t = true -> status t' = Some Unloaded)).
Proof.
  intros Hnd Hf. cbn zeta. unfold performMemoryCleanup. split.
  - apply cleanup_frame.
  - intros k t Hget.
    rewrite (cleanup_visited _ s k t Hf Hnd
               (get_Some_in_keys _ _ _ Hget) Hget).
    eexists. split; [reflexivity|].
    destruct (isActive t) eqn:Ha, (is_system t) eqn:Hs,
      (isLoaded t) eqn:Hl; cbn [negb andb isActive isLoaded status
                                  set_status set_isLoaded];
      rewrite ?Ha, ?Hl;
      repeat split; try reflexivity; try discriminate; try assumption;
      try (intros [H|[H|H]]; discriminate); intros; discriminate.
Qed.

End MemoryCleanup.

Lemma memory_cleanup_unloads_background_witness :
  let s' := Tabs.performMemoryCleanup (fun _ => true) Tabs.three_tabs in
  exists t',
    JsMap.get "tab-censor-3" (Tabs.tabs s') = Some t' /\
    Tabs.isLoaded t' = false /\ Tabs.status t' = Some Tabs.Unloaded.
Proof.
  cbn zeta.
  assert (Hnd : NoDup (JsMap.keys (Tabs.tabs Tabs.three_tabs))).
  { cbn. repeat constructor; rewrite ?elem_of_cons, ?elem_of_nil;
      intuition discriminate. }
  destruct (memory_cleanup_unloads_background (fun _ => true)
              Tabs.three_tabs Hnd (fun _ => eq_refl)) as [_ A].
  destruct (A "tab-censor-3" Tabs.T3 eq_refl) as (t' & Hg & _ & _ & B).
  destruct (B eq_refl eq_refl) as [B1 B2].
  exists t'. split; [exact Hg|]. split; [exact B1 | by apply B2].
Defined.

Section LazyQueue.
Import Tabs.

Local Ltac unit_kept := repeat intro; reflexivity.

Lemma keys_of_proj (m m' : list (string * Tab)) :
  proj (fun _ => tt) m' = proj (fun _ => tt) m ->
  JsMap.keys m' = JsMap.keys m.
Proof.
  intros H. rewrite <- (keys_proj (fun _ => tt) m'),
              <- (keys_proj (fun _ => tt) m). by rewrite H.
Qed.

Lemma JsSet_delete_in k x q : x ∈ JsSet.delete k q -> x ∈ q /\ x <> k.
Proof.
  unfold JsSet.delete. intros H. apply list_elem_of_In in H.
  apply List.filter_In in H as [H1 H2]. split.
  - by apply list_elem_of_In.
  - intros ->. by rewrite String.eqb_refl in H2.
Qed.

Lemma JsSet_add_in k x q : x ∈ JsSet.add k q -> x ∈ q \/ x = k.
Proof.
  unfold JsSet.add. destruct (JsSet.has k q); [by left|].
  intros H. apply elem_of_app in H as [H|H]; [by left|].
  apply list_elem_of_singleton in H. by right.
Qed.

Lemma in_keys_delete {V} k x (m : list (string * V)) :
  x ∈ JsMap.keys m -> x <> k -> x ∈ JsMap.keys (JsMap.delete k m).
Proof.
  intros Hin Hne. apply in_keys_get in Hin as [v Hv].
  eapply get_Some_in_keys. rewrite get_delete_ne; [exact Hv | congruence].
Qed.

Lemma in_keys_set {V} k x (v : V) (m : list (string * V)) :
  x ∈ JsMap.keys m \/ x = k -> x ∈ JsMap.keys (JsMap.set k v m).
Proof.
  intros [Hin| ->].
  - unfold JsMap.set. destruct (JsMap.has k m).
    + by rewrite keys_update.
    + unfold JsMap.keys in *. rewrite map_app. apply elem_of_app. by left.
  - eapply get_Some_in_keys. apply get_set_eq.
Qed.

Lemma queue_shrinks_refl s : queue_shrinks s s.
Proof. by split. Qed.

Lemma queue_shrinks_trans s1 s2 s3 :
  queue_shrinks s1 s2 -> queue_shrinks s2 s3 -> queue_shrinks s1 s3.
Proof.
  intros [A1 B1] [A2 B2]. split; [congruence|]. intros k Hk. auto.
Qed.

Lemma queue_registered_shrinks s s' :
  queue_shrinks s s' -> queue_registered s -> queue_registered s'.
Proof.
  intros [Hk Hq] H k Hin. rewrite Hk. apply H, Hq, Hin.
Qed.

Lemma queue_shrinks_loadTabContent k now s :
  queue_shrinks s (loadTabContent k now s).
Proof.
  split.
  - apply keys_of_proj, proj_loadTabContent; unit_kept.
  - unfold loadTabContent. destruct (JsMap.get k (tabs s)); [|done].
    destruct (_ || _); [done|]. cbn [with_tabs with_queue updateTabStatus
                                       lazyLoadQueue].
    intros x Hx. by apply JsSet_delete_in in Hx as [? _].
Qed.

Lemma queue_shrinks_activateTab k now s :
  queue_shrinks s (activateTab k now s).
Proof.
  split; [apply keys_activateTab|].
  destruct (JsMap.get k (tabs s)) as [t|] eqn:Hget.
  - destruct (activateTab_frame k now s t Hget) as (_ & _ & _ & ->).
    destruct (_ && _); [|done].
    intros x Hx. by apply JsSet_delete_in in Hx as [? _].
  - by rewrite activateTab_absent.
Qed.

Lemma queue_registered_closeTab_finish k now s :
  queue_registered s -> queue_registered (closeTab_finish k now s).
Proof.
  intros H. unfold closeTab_finish.
  match goal with
  | |- context [activateNextTab now ?x] => set (s1 := x)
  end.
  assert (H1 : queue_registered s1).
  { intros x Hx. subst s1. cbn [lazyLoadQueue tabs] in *.
    apply JsSet_delete_in in Hx as [Hx Hne].
    apply in_keys_delete; [by apply H | exact Hne]. }
  destruct (activeTab s1) as [a|]; [|exact H1].
  destruct (String.eqb a k); [|exact H1].
  rewrite activateNextTab_eq. destruct (next_after_close (tabs s1));
    [|exact H1].
  eapply queue_registered_shrinks; [apply queue_shrinks_activateTab|].
  exact H1.
Qed.

Lemma queue_registered_closeTab k c now s :
  queue_registered s -> queue_registered (closeTab k c now s).
Proof.
  intros H. unfold closeTab. destruct (JsMap.get k (tabs s)) as [t|];
    [|exact H].
  destruct (negb (isClosable t)); [exact H|].
  destruct (_ && _); [exact H|].
  by apply queue_registered_closeTab_finish.
Qed.

Lemma queue_registered_openTab systems k o now s :
  queue_registered s -> queue_registered (openTab systems k o now s).
Proof.
  intros H. unfold openTab.
  destruct (systems_get systems k) as [cfg|]; [|exact H].
  destruct (findTabBySystem k s) as [t|].
  { eapply queue_registered_shrinks; [apply queue_shrinks_activateTab|].
    exact H. }
  set (s1 := if (maxTabs s <=? JsMap.size (tabs s))%nat
             then closeOldestInactiveTab now s else s).
  assert (H1 : queue_registered s1).
  { subst s1. destruct (_ <=? _)%nat; [|exact H].
    unfold closeOldestInactiveTab.
    destruct (oldestInactiveTab now s); [|exact H].
    by apply queue_registered_closeTab. }
  set (tabId := tab_id k (S (tabCounter s1))).
  set (tab := new_tab tabId k cfg o now).
  match goal with
  | |- context [activateTab tabId now ?x] => set (s2 := x)
  end.
  assert (H2 : queue_registered s2).
  { intros x Hx. subst s2. cbn [lazyLoadQueue tabs] in *.
    apply in_keys_set. left. by apply H1. }
  assert (Hin2 : tabId ∈ JsMap.keys (tabs s2)).
  { subst s2. cbn [tabs]. apply in_keys_set. by right. }
  pose proof (queue_shrinks_activateTab tabId now s2) as Hs3.
  pose proof (queue_registered_shrinks _ _ Hs3 H2) as H3.
  set (s3 := activateTab tabId now s2) in *.
  assert (Hin3 : tabId ∈ JsMap.keys (tabs s3))
    by (destruct Hs3 as [-> _]; exact Hin2).
  destruct (wants_immediate o).
  - pose proof (queue_shrinks_loadTabContent tabId now s3) as Hs4.
    pose proof (queue_registered_shrinks _ _ Hs4 H3) as H4.
    exact H4.
  - intros x Hx. cbn [lazyLoadQueue tabs scheduleTabLoad with_queue] in *.
    apply JsSet_add_in in Hx as [Hx| ->]; [by apply H3 | exact Hin3].
Qed.

Lemma queue_registered_step systems now a s :
  queue_registered s -> queue_registered (step systems now a s).
Proof.
  intros H.
  assert (Hq : forall s', queue_shrinks s s' -> queue_registered s')
    by (intros s' Hs; by eapply queue_registered_shrinks).
  destruct a; cbn [step].
  - by apply queue_registered_openTab.
  - apply Hq, queue_shrinks_activateTab.
  - by apply queue_registered_closeTab.
  - unfold answerCloseDialog.
    destruct (remove_first tabId (closeDialogs s)) as [[sys rest]|];
      [|exact H].
    destruct c; [exact H | | exact H].
    by apply queue_registered_closeTab_finish.
  - unfold stopServiceSettled.
    destruct (remove_first tabId (stopRequests s)) as [[sys rest]|];
      [|exact H].
    by apply queue_registered_closeTab_finish.
  - unfold idleCallback. destruct (JsSet.has _ _); [|exact H].
    apply Hq, queue_shrinks_loadTabContent.
  - apply Hq. split.
    + apply keys_of_proj, proj_onIframeLoad; unit_kept.
    + assert (Hp : forall x, lazyLoadQueue (preloadNextTab x)
                               = lazyLoadQueue x).
      { intros x. unfold preloadNextTab.
        destruct (lazyLoadQueue x) eqn:E; [by rewrite E|].
        destruct (truthy _); cbn [scheduleTabLoad lazyLoadQueue];
          by rewrite ?E. }
      unfold onIframeLoad. by rewrite Hp.
  - apply Hq. split; [|done].
    apply keys_of_proj, proj_onIframeError; unit_kept.
  - apply Hq. split.
    + apply keys_of_proj, proj_unloadInactiveTab; unit_kept.
    + unfold unloadInactiveTab. destruct (JsMap.get _ _); [|done].
      destruct (_ || _); [done|]. by destruct iframeFound.
  - apply Hq. split.
    + apply keys_of_proj, proj_refreshCurrentTab; unit_kept.
    + unfold refreshCurrentTab. destruct (activeTab s) as [a|]; [|done].
      destruct (negb (truthy (Some a))); [done|].
      destruct (JsMap.get a (tabs s)) as [t|]; [|done].
      destruct (negb (is_system t)); [done|]. by destruct iframeFound.
  - unfold duplicateTab. destruct (JsMap.get tabId (tabs s)) as [t|];
      [|exact H].
    destruct (negb (is_system t)); [exact H|].
    destruct (system t); [by apply queue_registered_openTab | exact H].
  - unfold closeOtherTabs.
    generalize (List.filter
                  (fun k => negb (String.eqb k keepTabId)
                            && match JsMap.get k (tabs s) with
                               | Some t => isClosable t
                               | None => false
                               end) (JsMap.keys (tabs s))).
    intros l. clear Hq. revert s H. induction l as [|k l IH]; intros s H;
      [exact H|].
    cbn [fold_left]. by apply IH, queue_registered_closeTab.
  - intros x Hx. cbn in Hx. by apply elem_of_nil in Hx.
Qed.

(** X27.  At every point of every run of the tab manager, every id in
    the lazy-load queue is the key of a registered tab: closing a tab
    takes it out of the queue as well. *)
Theorem lazy_queue_is_registered (systems : gmap string SystemConfig)
    (turns : list (Z * Action)) (hasTabList : bool) :
  let s := run systems turns (constructor hasTabList) in
  forall k, k ∈ lazyLoadQueue s -> is_Some (JsMap.get k (tabs s)).
Proof.
  cbn zeta.
  assert (H : queue_registered (run systems turns (constructor hasTabList))).
  { assert (H0 : queue_registered (constructor hasTabList)).
    { intros x Hx. destruct hasTabList; cbn in Hx;
        by apply elem_of_nil in Hx. }
    revert H0. generalize (constructor hasTabList).
    induction turns as [|[now a] turns IH]; intros s Hs; [exact Hs|].
    cbn [run]. by apply IH, queue_registered_step. }
  intros k Hk. by apply in_keys_get, H.
Qed.

Lemma lazy_queue_is_registered_witness :
  is_Some
    (JsMap.get "tab-writing-1"
       (tabs (run portal_systems [ open_ 1 "writing"; open_ 2 "censor" ]
                (constructor true)))).
Proof.
  apply (lazy_queue_is_registered portal_systems
           [ open_ 1 "writing"; open_ 2 "censor" ] true).
  vm_compute. apply list_elem_of_here.
Defined.

End LazyQueue.

Section Loading.
Import Tabs.

(** X29.  Loading a tab is idempotent.  Once [loadTabContent] has run for
    a tab, a further [loadTabContent], the idle callback of
    [scheduleTabLoad] and [loadTabIfNeeded] all leave the manager exactly
    as it is: a loaded tab is not loaded again and its load start time is
    not reset. *)
Theorem loading_is_idempotent (k : string) (now now' : Z)
    (s : TabManager) :
  let s1 := loadTabContent k now s in
  loadTabContent k now' s1 = s1 /\
  idleCallback k now' s1 = s1 /\
  loadTabIfNeeded k now' s1 = s1.
Proof.
  cbn zeta.
  assert (H : loadTabContent k now' (loadTabContent k now s)
              = loadTabContent k now s).
  { unfold loadTabContent at 2 3.
    destruct (JsMap.get k (tabs s)) as [t|] eqn:Hget.
    - destruct (negb (is_system t) || isLoaded t) eqn:Hc.
      + unfold loadTabContent. by rewrite Hget, Hc.
      + unfold loadTabContent.
        cbn [with_tabs with_queue updateTabStatus tabs].
        rewrite !get_update_eq, Hget.
        cbn [fmap option_fmap option_map isLoaded set_isLoaded].
        by rewrite orb_true_r.
    - unfold loadTabContent. by rewrite Hget. }
  split; [exact H|]. split.
  - unfold idleCallback. destruct (JsSet.has _ _); [exact H | reflexivity].
  - unfold loadTabIfNeeded.
    destruct (JsMap.get k (tabs (loadTabContent k now s))); [|reflexivity].
    destruct (_ && _); [exact H | reflexivity].
Qed.

End Loading.
